(** * Secure Vault: the key hierarchy, the configuration store, the block
      manager and the repository database, embedded from the Python sources.

    Layout of the development
    - [Hex]              bytes.hex() and bytes.fromhex()
    - [Py]               exceptions, results, the state-and-exception monad
    - [config]           src/core/config.py
    - [crypto]           src/core/crypto.py over an interface to libsodium
    - [pathlib]          paths as lists of components
    - [hash_utils]       src/core/hash_utils.py
    - [sqlite3]          connections with their pending and durable statements
    - [database]         src/database/database.py
    - [models], [Block]  the blocks table and the Block model over it
    - [world]            the repository state: table, file system, randomness
    - [block_manager]    src/operations/block_manager.py
    - [main]             main.py (first-time setup and PIN verification)
    - [reference_sodium], [examples]  concrete primitives and repositories
    followed by the theorems, grouped by subsystem. *)

From Stdlib Require Import ZArith NArith Strings.Byte Ascii String List Lia.
From stdpp Require Import base option list strings pretty gmap.
From Equations Require Import Equations.

Local Open Scope Z_scope.

(** Python [bytes]. *)
Abbreviation bytes := (list byte).

#[global] Instance byte_eq_dec : EqDecision byte := Byte.byte_eq_dec.

(* ------------------------------------------------------------------ *)
(** ** bytes.hex() and bytes.fromhex() *)

Module Hex.

(** One lowercase hexadecimal digit, as [bytes.hex()] prints it. *)
Definition hex_digit (n : N) : ascii :=
  match n with
  | 0 => "0" | 1 => "1" | 2 => "2" | 3 => "3" | 4 => "4" | 5 => "5"
  | 6 => "6" | 7 => "7" | 8 => "8" | 9 => "9" | 10 => "a" | 11 => "b"
  | 12 => "c" | 13 => "d" | 14 => "e" | _ => "f"
  end%N%char.

Definition hi_digit (b : byte) : ascii := hex_digit (Byte.to_N b / 16).
Definition lo_digit (b : byte) : ascii := hex_digit (Byte.to_N b mod 16).

(** [b.hex()]: two digits per byte, most significant first. *)
Fixpoint hex (bs : bytes) : string :=
  match bs with
  | [] => EmptyString
  | b :: bs' => String (hi_digit b) (String (lo_digit b) (hex bs'))
  end.

(** Value of a hexadecimal digit; [bytes.fromhex] takes both cases. *)
Definition hexval (c : ascii) : option N :=
  let n := N_of_ascii c in
  if ((48 <=? n) && (n <=? 57))%N then Some (n - 48)%N
  else if ((97 <=? n) && (n <=? 102))%N then Some (n - 87)%N
  else if ((65 <=? n) && (n <=? 70))%N then Some (n - 55)%N
  else None.

(** ASCII whitespace, which [bytes.fromhex] skips between bytes. *)
Definition is_space (c : ascii) : bool :=
  let n := N_of_ascii c in
  ((n =? 32) || ((9 <=? n) && (n <=? 13)))%N.

Definition hex_pair (c d : ascii) : option byte :=
  match hexval c, hexval d with
  | Some h, Some l => Byte.of_N (16 * h + l)
  | _, _ => None
  end.

(** [bytes.fromhex(s)]; [None] stands for the ValueError it raises on a
    character that is not a digit or on a digit left without its pair. *)
Fixpoint fromhex (s : string) : option bytes :=
  match s with
  | EmptyString => Some []
  | String c s' =>
      if is_space c then fromhex s'
      else match s' with
           | EmptyString => None
           | String d s'' =>
               match hex_pair c d, fromhex s'' with
               | Some b, Some bs => Some (b :: bs)
               | _, _ => None
               end
           end
  end.

End Hex.

(* ------------------------------------------------------------------ *)
(** ** Exceptions, results and effects *)

Module Py.

(** The exception classes the embedded code raises or lets through.
    [KeyboardInterrupt] stands for what derives from BaseException
    only, which an [except Exception] clause does not catch. *)
Inductive exn : Type :=
| FileNotFoundError
| OSError
| ValueError
| TypeError
| CryptoError
| OperationalError      (* sqlite3 *)
| IntegrityError        (* sqlite3 *)
| ProgrammingError      (* sqlite3 *)
| AttributeError
| NotFound
| RuntimeError
| KeyboardInterrupt.

Definition is_Exception (e : exn) : bool :=
  match e with KeyboardInterrupt => false | _ => true end.

#[global] Instance exn_eq_dec : EqDecision exn.
Proof. solve_decision. Defined.

Inductive result (A : Type) : Type :=
| Ok (a : A)
| Raise (e : exn).
Arguments Ok {A} a.
Arguments Raise {A} e.

(** A computation over a mutable state [S]; an exception keeps the
    state as it was when it was raised, as in Python. *)
Definition M (S A : Type) : Type := S -> result A * S.

Definition ret {S A} (a : A) : M S A := fun s => (Ok a, s).
Definition raise {S A} (e : exn) : M S A := fun s => (Raise e, s).
Definition bind {S A B} (m : M S A) (k : A -> M S B) : M S B :=
  fun s => match m s with
           | (Ok a, s') => k a s'
           | (Raise e, s') => (Raise e, s')
           end.
Definition modify {S} (f : S -> S) : M S unit := fun s => (Ok tt, f s).

End Py.
Export Py.

Declare Scope py_scope.
Delimit Scope py_scope with py.
Notation "'let!' x ':=' m 'in' k" := (bind m (fun x => k))
  (at level 10, x name, m at level 100, k at level 200) : py_scope.
Notation "'do!' m 'in' k" := (bind m (fun _ => k))
  (at level 10, m at level 100, k at level 200) : py_scope.

(* ------------------------------------------------------------------ *)
(** ** src/core/config.py *)

Module config.

(** The values of the JSON document behind [_config_data]; the scalar
    values are the ones the recognised keys hold. *)
Inductive json : Type :=
| JNull
| JBool (b : bool)
| JInt (z : Z)
| JStr (s : string).

#[global] Instance json_eq_dec : EqDecision json.
Proof. solve_decision. Defined.

(** Python truthiness, as used by [... if key_hex else None]. *)
Definition truthy (v : json) : bool :=
  match v with
  | JNull => false
  | JBool b => b
  | JInt z => negb (z =? 0)%Z
  | JStr s => negb (String.eqb s "")
  end.

Record Config : Type := mkConfig {
  _config_data : gmap string json;
  (** what [_save_config] last wrote to config.json *)
  _config_file : option (gmap string json)
}.

Definition _save_config (c : Config) : Config :=
  {| _config_data := _config_data c; _config_file := Some (_config_data c) |}.

(** [_load_config]: the document in config.json, or the empty one. *)
Definition _load_config (c : Config) : Config :=
  {| _config_data := default ∅ (_config_file c); _config_file := _config_file c |}.

(** [self._config_data[key] = value; self._save_config()] *)
Definition set (key : string) (value : json) (c : Config) : Config :=
  _save_config {| _config_data := <[key := value]> (_config_data c);
                  _config_file := _config_file c |}.

(** [self._config_data.get(key)] *)
Definition get (key : string) (c : Config) : option json :=
  _config_data c !! key.

Definition is_first_run (c : Config) : bool :=
  bool_decide (_config_data c !! "encrypted_master_key" = None).

(** The common body of the three hex-encoded getters:
    [h = self._config_data.get(key); bytes.fromhex(h) if h else None]. *)
Definition get_hex (key : string) (c : Config) : result (option bytes) :=
  match get key c with
  | None => Ok None
  | Some v =>
      if truthy v then
        match v with
        | JStr s => match Hex.fromhex s with
                    | Some b => Ok (Some b)
                    | None => Raise ValueError
                    end
        | _ => Raise TypeError
        end
      else Ok None
  end.

Definition encrypted_master_key (c : Config) : result (option bytes) :=
  get_hex "encrypted_master_key" c.
Definition set_encrypted_master_key (value : bytes) (c : Config) : Config :=
  set "encrypted_master_key" (JStr (Hex.hex value)) c.

Definition master_key_salt (c : Config) : result (option bytes) :=
  get_hex "master_key_salt" c.
Definition set_master_key_salt (value : bytes) (c : Config) : Config :=
  set "master_key_salt" (JStr (Hex.hex value)) c.

Definition master_key_nonce (c : Config) : result (option bytes) :=
  get_hex "master_key_nonce" c.
Definition set_master_key_nonce (value : bytes) (c : Config) : Config :=
  set "master_key_nonce" (JStr (Hex.hex value)) c.

Definition master_key_hash (c : Config) : option json :=
  get "master_key_hash" c.
Definition set_master_key_hash (value : string) (c : Config) : Config :=
  set "master_key_hash" (JStr value) c.

(** Theme settings: [self._config_data.get("dark_mode", True)]. *)
Definition dark_mode (c : Config) : json :=
  default (JBool true) (get "dark_mode" c).
Definition set_dark_mode (value : bool) (c : Config) : Config :=
  set "dark_mode" (JBool value) c.

Definition language (c : Config) : json :=
  default (JStr "zh") (get "language" c).
(** The only setter with a guard: [if value in ["zh", "en"]]. *)
Definition set_language (value : string) (c : Config) : Config :=
  if bool_decide (value ∈ ["zh"; "en"]) then set "language" (JStr value) c
  else c.

(** Python's None stands for an absent key and for a stored null
    alike: both read as [JNull]. *)
Definition active_repository_id (c : Config) : json :=
  default JNull (get "active_repository_id" c).
Definition set_active_repository_id (value : option Z) (c : Config) : Config :=
  set "active_repository_id" (from_option JInt JNull value) c.

(** A configuration directory without config.json. *)
Definition fresh : Config := {| _config_data := ∅; _config_file := None |}.

End config.

(* ------------------------------------------------------------------ *)
(** ** Randomness *)

(** The operating system's random source: an infinite supply of bytes
    and the number of bytes drawn so far. *)
Record Rng : Type := mkRng {
  entropy : nat -> byte;
  drawn : nat
}.

(** The [n] bytes that lie [offset] bytes ahead in the supply. *)
Definition draw (r : Rng) (offset n : nat) : bytes :=
  map (entropy r) (seq (offset + drawn r) n).

(** The source after [n] more bytes were taken. *)
Definition advance (n : nat) (r : Rng) : Rng :=
  {| entropy := entropy r; drawn := n + drawn r |}.

(* ------------------------------------------------------------------ *)
(** ** Text *)

(** A Python [str] is held as its UTF-8 text, so that [s.encode("utf-8")]
    is the list of its bytes. *)
Module utf8.

Definition in_range (lo hi : N) (b : byte) : bool :=
  ((lo <=? Byte.to_N b) && (Byte.to_N b <=? hi))%N.

(** Bytes of the form 10xxxxxx, which continue a code point. *)
Definition is_continuation (b : byte) : bool := in_range 128 191 b.

(** [len(s)]: the number of code points. *)
Definition str_len (s : string) : nat :=
  length (filter (fun b => is_continuation b = false) (list_byte_of_string s)).

(** Well-formed UTF-8, as the strict decoder accepts it: shortest
    forms only, no surrogates, nothing above U+10FFFF. *)
Fixpoint valid (bs : bytes) : bool :=
  match bs with
  | [] => true
  | b0 :: rest =>
      if in_range 0 127 b0 then valid rest
      else if in_range 194 223 b0 then
        match rest with
        | b1 :: rest1 => is_continuation b1 && valid rest1
        | _ => false
        end
      else if in_range 224 239 b0 then
        match rest with
        | b1 :: b2 :: rest2 =>
            in_range (if Byte.eqb b0 xe0 then 160 else 128)
                     (if Byte.eqb b0 xed then 159 else 191) b1
            && is_continuation b2 && valid rest2
        | _ => false
        end
      else if in_range 240 244 b0 then
        match rest with
        | b1 :: b2 :: b3 :: rest3 =>
            in_range (if Byte.eqb b0 xf0 then 144 else 128)
                     (if Byte.eqb b0 xf4 then 143 else 191) b1
            && is_continuation b2 && is_continuation b3 && valid rest3
        | _ => false
        end
      else false
  end.

(** [b.decode("utf-8")]; UnicodeDecodeError is a ValueError. *)
Definition decode (b : bytes) : result string :=
  if valid b then Ok (string_of_list_byte b) else Raise ValueError.

End utf8.

(* ------------------------------------------------------------------ *)
(** ** src/core/crypto.py *)

Module crypto.

Definition MASTER_KEY_SIZE : Z := 32.
Definition SALT_SIZE : Z := 16.
Definition NONCE_SIZE : Z := 24.
Definition BLOCK_SIZE : Z := 4 * 1024 * 1024.

(** The libsodium bindings (PyNaCl) the module calls.  The sealing
    side is called with keys and nonces of the sizes fixed above;
    [secretbox_decrypt] answers [None] where [SecretBox.decrypt]
    raises. *)
Class Sodium : Type := {
  (** [nacl.hash.blake2b(data, digest_size=n, encoder=RawEncoder)] *)
  blake2b : bytes -> Z -> bytes;
  (** [argon2id.kdf(size, password, salt, OPSLIMIT_MODERATE, MEMLIMIT_MODERATE)] *)
  argon2id_kdf : Z -> bytes -> bytes -> bytes;
  (** [SecretBox(key).encrypt(plaintext, nonce).ciphertext] *)
  secretbox_encrypt : bytes -> bytes -> bytes -> bytes;
  (** [SecretBox(key).decrypt(ciphertext, nonce)] *)
  secretbox_decrypt : bytes -> bytes -> bytes -> option bytes
}.

(** [nacl.utils.random(n)] *)
Definition nacl_random (n : Z) : M Rng bytes :=
  fun r => (Ok (draw r 0 (Z.to_nat n)), advance (Z.to_nat n) r).

Definition generate_master_key : M Rng bytes := nacl_random MASTER_KEY_SIZE.
Definition generate_salt : M Rng bytes := nacl_random SALT_SIZE.

(** [pin.encode("utf-8")]: a PIN is held as its UTF-8 text. *)
Definition encode_utf8 (pin : string) : bytes := list_byte_of_string pin.

Section with_sodium.
Context `{Sodium}.

Definition derive_key_from_pin (pin : string) (salt : bytes) : bytes :=
  argon2id_kdf MASTER_KEY_SIZE (encode_utf8 pin) salt.

Definition encrypt_master_key (master_key : bytes) (pin : string)
  : M Rng (bytes * bytes * bytes) :=
  (let! salt := generate_salt in
   let derived_key := derive_key_from_pin pin salt in
   let! nonce := nacl_random NONCE_SIZE in
   let ciphertext := secretbox_encrypt derived_key nonce master_key in
   ret (ciphertext, salt, nonce))%py.

(** Whatever goes wrong inside the [try] comes out as [CryptoError]. *)
Definition decrypt_master_key (encrypted_key : bytes) (pin : string)
    (salt nonce : bytes) : result bytes :=
  let derived_key := derive_key_from_pin pin salt in
  match secretbox_decrypt derived_key nonce encrypted_key with
  | Some master_key => Ok master_key
  | None => Raise CryptoError
  end.

Definition compute_key_hash (key : bytes) : string :=
  Hex.hex (blake2b key 32).

Definition verify_key_hash (key : bytes) (expected_hash : option config.json) : bool :=
  bool_decide (Some (config.JStr (compute_key_hash key)) = expected_hash).

Definition derive_file_key (master_key salt : bytes) : bytes :=
  blake2b (master_key ++ salt) MASTER_KEY_SIZE.

Definition encrypt_block (data key : bytes) : M Rng (bytes * bytes) :=
  (let! nonce := nacl_random NONCE_SIZE in
   ret (secretbox_encrypt key nonce data, nonce))%py.

Definition decrypt_block (encrypted_data key nonce : bytes) : result bytes :=
  match secretbox_decrypt key nonce encrypted_data with
  | Some data => Ok data
  | None => Raise CryptoError
  end.

(** Metadata (filenames, comments): text sealed as its UTF-8 bytes. *)
Definition encrypt_metadata (data : string) (key : bytes) : M Rng (bytes * bytes) :=
  encrypt_block (encode_utf8 data) key.

Definition decrypt_metadata (encrypted_data key nonce : bytes) : result string :=
  match decrypt_block encrypted_data key nonce with
  | Ok decrypted => utf8.decode decrypted
  | Raise e => Raise e
  end.

End with_sodium.

(** The salt and then the nonce that [encrypt_master_key] draws from
    the random source [r]. *)
Definition salt_drawn (r : Rng) : bytes := draw r 0 16.
Definition nonce_drawn (r : Rng) : bytes := draw r 16 24.

End crypto.

(* ------------------------------------------------------------------ *)
(** ** pathlib *)

Module pathlib.

(** A path is the list of its components; an absolute path starts
    with the component "/". *)
Abbreviation Path := (list string).

Definition keep (cur : string) : list string :=
  if bool_decide (cur = "" \/ cur = ".") then [] else [cur].

(** Components of a path string: split at "/", leaving out empty and
    "." components as pathlib does. *)
Fixpoint parts_from (cur s : string) : list string :=
  match s with
  | EmptyString => keep cur
  | String c s' =>
      if Ascii.eqb c "/"%char then keep cur ++ parts_from "" s'
      else parts_from (cur +:+ String c "") s'
  end.

(** No "/" occurs in [s]. *)
Fixpoint no_slash (s : string) : bool :=
  match s with
  | EmptyString => true
  | String c s' => negb (Ascii.eqb c "/"%char) && no_slash s'
  end.

Definition is_absolute (s : string) : bool :=
  match s with String c _ => Ascii.eqb c "/"%char | EmptyString => false end.

Definition of_string (s : string) : Path :=
  if is_absolute s then "/" :: parts_from "" s else parts_from "" s.

(** [p / s]: an absolute right-hand side replaces [p]. *)
Definition joinpath (p : Path) (s : string) : Path :=
  if is_absolute s then of_string s else p ++ parts_from "" s.

(** [p.parent] *)
Definition parent (p : Path) : Path :=
  if bool_decide (p = ["/"]) then ["/"] else removelast p.

(** [p.parent], [p.parent.parent], ... and [p] itself, shortest first;
    the directories [p.mkdir(parents=True)] goes through. *)
Definition ancestors_and_self (p : Path) : list Path :=
  map (fun n => take n p) (seq 1 (length p)).

End pathlib.
Export pathlib.

(* ------------------------------------------------------------------ *)
(** ** src/core/hash_utils.py *)

Module hash_utils.

Definition READ_BLOCK_SIZE : Z := 1024 * 1024.

Definition compute_block_hash `{crypto.Sodium} (data : bytes) : string :=
  Hex.hex (crypto.blake2b data 32).

(** [f.read(n)] on the bytes still ahead of the file position: the
    chunk read and what stays ahead.  A negative [n] reads to the end. *)
Definition f_read (n : Z) (ahead : bytes) : bytes * bytes :=
  if (n <? 0)%Z then (ahead, [])
  else (take (Z.to_nat n) ahead, drop (Z.to_nat n) ahead).

Definition inspect {A : Type} (a : A) : {b : A | a = b} := exist _ a eq_refl.

(** [while chunk := f.read(block_size): yield chunk] *)
Equations? read_chunks (block_size : Z) (ahead : bytes) : list bytes
  by wf (length ahead) lt :=
  read_chunks block_size ahead with inspect (f_read block_size ahead) := {
    | exist _ ([], _) _ := [];
    | exist _ (b :: chunk, rest) _ := (b :: chunk) :: read_chunks block_size rest }.
Proof.
  match goal with E : f_read _ _ = _ |- _ => rename E into Hread end.
  unfold f_read in Hread. destruct (block_size <? 0)%Z.
  - injection Hread as -> <-. simpl. lia.
  - injection Hread as Htake <-. rewrite length_drop.
    apply (f_equal length) in Htake.
    rewrite length_take in Htake. simpl in Htake. lia.
Qed.

(** The generator, run to exhaustion.  [block_size = None] is a call
    that leaves the default [READ_BLOCK_SIZE] in place. *)
Definition iter_file_blocks (files : gmap Path bytes) (file_path : Path)
    (block_size : option Z) : result (list bytes) :=
  match files !! file_path with
  | None => Raise FileNotFoundError
  | Some content => Ok (read_chunks (default READ_BLOCK_SIZE block_size) content)
  end.

Definition count_file_blocks (files : gmap Path bytes) (file_path : Path)
    (block_size : option Z) : result Z :=
  match files !! file_path with
  | None => Raise FileNotFoundError
  | Some content =>
      let file_size := Z.of_nat (length content) in
      let block_size := default READ_BLOCK_SIZE block_size in
      Ok ((file_size + block_size - 1) `div` block_size)
  end.

(** The incremental BLAKE2b of nacl.bindings; [update] changes the
    state in place, here it returns the new one. *)
Class GenericHash : Type := {
  hash_state : Type;
  crypto_generichash_blake2b_init : Z -> hash_state;
  crypto_generichash_blake2b_update : hash_state -> bytes -> hash_state;
  crypto_generichash_blake2b_final : hash_state -> bytes
}.

(** The file is read in chunks of [READ_BLOCK_SIZE] by the same loop
    as in [iter_file_blocks], each chunk going into the hash state. *)
Definition compute_file_hash `{GenericHash} (files : gmap Path bytes)
    (file_path : Path) : result string :=
  match files !! file_path with
  | None => Raise FileNotFoundError
  | Some content =>
      let state :=
        fold_left crypto_generichash_blake2b_update
          (read_chunks READ_BLOCK_SIZE content)
          (crypto_generichash_blake2b_init 32) in
      Ok (Hex.hex (crypto_generichash_blake2b_final state))
  end.

Definition get_file_size (files : gmap Path bytes) (file_path : Path) : result Z :=
  match files !! file_path with
  | None => Raise FileNotFoundError
  | Some content => Ok (Z.of_nat (length content))
  end.

End hash_utils.

(* ------------------------------------------------------------------ *)
(** ** sqlite3 connections *)

Module sqlite3.

Inductive event : Type := Commit | Rollback.

(** A connection: the statements made durable, the statements of the
    transaction in progress, and the commits and rollbacks so far. *)
Record Connection : Type := mkConnection {
  conn_id : nat;
  committed : list string;
  pending : list string;
  closed : bool;
  history : list event
}.

Definition execute (sql : string) (c : Connection) : result Connection :=
  if closed c then Raise ProgrammingError
  else Ok {| conn_id := conn_id c; committed := committed c;
             pending := pending c ++ [sql]; closed := false;
             history := history c |}.

Definition commit (c : Connection) : result Connection :=
  if closed c then Raise ProgrammingError
  else Ok {| conn_id := conn_id c; committed := committed c ++ pending c;
             pending := []; closed := false;
             history := history c ++ [Commit] |}.

Definition rollback (c : Connection) : result Connection :=
  if closed c then Raise ProgrammingError
  else Ok {| conn_id := conn_id c; committed := committed c;
             pending := []; closed := false;
             history := history c ++ [Rollback] |}.

Definition close (c : Connection) : Connection :=
  {| conn_id := conn_id c; committed := committed c; pending := [];
     closed := true; history := history c |}.

End sqlite3.

(* ------------------------------------------------------------------ *)
(** ** src/database/database.py *)

Module database.
Import sqlite3.

Record RepositoryDatabase : Type := mkRepositoryDatabase {
  _repo_path : string;
  _connection : option Connection;
  _transaction_depth : Z
}.

Definition with_connection (c : option Connection) (self : RepositoryDatabase)
  : RepositoryDatabase :=
  {| _repo_path := _repo_path self; _connection := c;
     _transaction_depth := _transaction_depth self |}.

Definition with_depth (d : Z) (self : RepositoryDatabase) : RepositoryDatabase :=
  {| _repo_path := _repo_path self; _connection := _connection self;
     _transaction_depth := d |}.

(** [RepositoryDatabase(repo_path)] *)
Definition __init__ (repo_path : string) : RepositoryDatabase :=
  {| _repo_path := repo_path; _connection := None; _transaction_depth := 0 |}.

(** What the host answers when [connect] reaches for the repository:
    the drive check, the mkdir of .vault, sqlite3.connect, and the
    schema script may each fail. *)
Inductive open_outcome : Type :=
| Opens (stored : list string)
| DriveMissing
| MkdirFails
| ConnectFails
| SchemaFails.

Record Host : Type := mkHost {
  (** [str(Path(p).resolve())], [None] where it raises *)
  resolve : string -> option string;
  try_open : string -> open_outcome
}.

Definition new_connection (id : nat) (stored : list string) : Connection :=
  {| conn_id := id; committed := stored; pending := []; closed := false;
     history := [] |}.

(** [self.connect()]; [fresh] is the identity of the connection object
    sqlite3.connect returns. *)
Definition connect (host : Host) (fresh : nat) : M RepositoryDatabase unit :=
  fun self =>
    match try_open host (_repo_path self) with
    | DriveMissing => (Raise FileNotFoundError, self)
    | MkdirFails => (Raise OSError, self)
    | ConnectFails => (Raise OperationalError, self)
    | SchemaFails =>
        (Raise OperationalError,
         with_connection (Some (new_connection fresh [])) self)
    | Opens stored =>
        (Ok tt, with_connection (Some (new_connection fresh stored)) self)
    end.

(** [self.execute(query)] *)
Definition execute (query : string) : M RepositoryDatabase unit :=
  fun self =>
    match _connection self with
    | None => (Raise AttributeError, self)
    | Some c =>
        match sqlite3.execute query c with
        | Ok c' => (Ok tt, with_connection (Some c') self)
        | Raise e => (Raise e, self)
        end
    end.

(** [self._connection and self._connection == conn]: the connection
    object is still the one captured on entry. *)
Definition same_connection (conn : Connection) (self : RepositoryDatabase)
  : option Connection :=
  match _connection self with
  | Some c => if Nat.eqb (conn_id c) (conn_id conn) then Some c else None
  | None => None
  end.

(** The [except Exception:] clause of [transaction], followed by the
    re-raise. *)
Definition on_exception (conn : Connection) (e : exn) (self : RepositoryDatabase)
  : RepositoryDatabase :=
  if is_Exception e then
    if (_transaction_depth self =? 1)%Z then
      match same_connection conn self with
      | Some c =>
          match sqlite3.rollback c with
          | Ok c' => with_connection (Some c') self
          | Raise _ => self           (* ProgrammingError: pass *)
          end
      | None => self
      end
    else self
  else self.

(** [with self.transaction(): body] *)
Definition transaction {A : Type} (body : M RepositoryDatabase A)
  : M RepositoryDatabase A :=
  fun self =>
    match _connection self with
    | None => body self
    | Some conn =>
        let self1 := with_depth (_transaction_depth self + 1) self in
        let '(r, self2) := body self1 in
        let '(r', self3) :=
          match r with
          | Ok a =>
              if (_transaction_depth self2 =? 1)%Z then
                match same_connection conn self2 with
                | Some c =>
                    match sqlite3.commit c with
                    | Ok c' => (Ok a, with_connection (Some c') self2)
                    | Raise e => (Raise e, on_exception conn e self2)
                    end
                | None => (Ok a, self2)
                end
              else (Ok a, self2)
          | Raise e => (Raise e, on_exception conn e self2)
          end in
        (r', with_depth (_transaction_depth self3 - 1) self3)
    end.

(** [n] transaction contexts around [body], entered one inside the
    other. *)
Definition nested {A : Type} (n : nat) (body : M RepositoryDatabase A)
  : M RepositoryDatabase A :=
  Nat.iter n transaction body.

(** Code run inside a transaction that leaves the depth counter as it
    found it. *)
Definition restores_depth {A : Type} (body : M RepositoryDatabase A) : Prop :=
  forall s, _transaction_depth (snd (body s)) = _transaction_depth s.

(** Code that leaves the open connection object in place and open. *)
Definition keeps_connection {A : Type} (body : M RepositoryDatabase A) : Prop :=
  forall s c,
    _connection s = Some c -> closed c = false ->
    exists c', _connection (snd (body s)) = Some c' /\
               conn_id c' = conn_id c /\ closed c' = false.

(** Code that, run inside a transaction, neither commits nor rolls
    back. *)
Definition quiet_inside {A : Type} (body : M RepositoryDatabase A) : Prop :=
  forall s c,
    _connection s = Some c -> (1 <= _transaction_depth s)%Z ->
    exists c', _connection (snd (body s)) = Some c' /\
               history c' = history c /\ committed c' = committed c.

(** The module-level variables [_repo_db] and [_current_repo_path]. *)
Record Globals : Type := mkGlobals {
  _repo_db : option RepositoryDatabase;
  _current_repo_path : option string
}.

(** The process: the module globals, and the host's account of the
    connection objects it has handed out and of those closed. *)
Record Process : Type := mkProcess {
  globals : Globals;
  next_conn_id : nat;
  closed_conns : list nat
}.

(** [self.close()], and the connection it closed, if any. *)
Definition close (self : RepositoryDatabase) : RepositoryDatabase * list nat :=
  match _connection self with
  | Some c => (with_connection None self, [conn_id c])
  | None => (self, [])
  end.

Definition get_repository_database (host : Host) (repo_path : option string)
  : M Process (option RepositoryDatabase) :=
  fun p =>
    let g := globals p in
    match repo_path with
    | None => (Ok (_repo_db g), p)
    | Some repo_path =>
        (* Normalize path for reliable comparison *)
        let norm_path := default repo_path (resolve host repo_path) in
        let already :=
          match _repo_db g with
          | Some db => if bool_decide (_current_repo_path g = Some norm_path)
                       then Some db else None
          | None => None
          end in
        match already with
        | Some db =>
            (* CASE 1: already have the correct database *)
            match _connection db with
            | Some _ => (Ok (Some db), p)
            | None =>
                (* Reconnect if died: the global object itself connects *)
                let '(r, db') := connect host (next_conn_id p) db in
                let p' := {| globals := {| _repo_db := Some db';
                                           _current_repo_path := _current_repo_path g |};
                             next_conn_id := S (next_conn_id p);
                             closed_conns := closed_conns p |} in
                match r with
                | Ok _ => (Ok (Some db'), p')
                | Raise e => (Raise e, p')
                end
            end
        | None =>
            (* CASE 2: switching to a different repository or first time *)
            let '(r, new_db) := connect host (next_conn_id p) (__init__ repo_path) in
            match r with
            | Raise e =>
                (Raise e,
                 {| globals := g; next_conn_id := S (next_conn_id p);
                    closed_conns := closed_conns p |})
            | Ok _ =>
                let closed_now :=
                  match _repo_db g with
                  | Some old => snd (close old)
                  | None => []
                  end in
                (Ok (Some new_db),
                 {| globals := {| _repo_db := Some new_db;
                                  _current_repo_path := Some norm_path |};
                    next_conn_id := S (next_conn_id p);
                    closed_conns := closed_conns p ++ closed_now |})
            end
        end
    end.

(** [close_repository_database()]; an exception from [close] is
    swallowed, and the globals are cleared either way. *)
Definition close_repository_database : M Process unit :=
  fun p =>
    match _repo_db (globals p) with
    | Some db =>
        (Ok tt,
         {| globals := {| _repo_db := None; _current_repo_path := None |};
            next_conn_id := next_conn_id p;
            closed_conns := closed_conns p ++ snd (close db) |})
    | None => (Ok tt, p)
    end.


End database.

(* ------------------------------------------------------------------ *)
(** ** The repository as the block manager sees it *)

Module models.

(** Modelled from the spec: the [Block] class of src/database/models.py,
    which is not among the sources; a row of table [blocks], with the
    columns the schema in database.py declares, and the object that
    carries it. *)
Record Block : Type := mkBlock {
  id : Z;
  hash : string;
  relative_path : string;
  size : Z;
  salt : bytes;
  nonce : bytes;
  reference_count : Z
}.

#[global] Instance Block_eq_dec : EqDecision Block.
Proof. solve_decision. Defined.

End models.

(** The side effects of the block manager, in the order they happen. *)
Inductive Event : Type :=
| EvMkdir (p : Path)
| EvWrite (p : Path) (written : nat)
| EvUnlink (p : Path)
| EvInsertRow (row_id : Z)
| EvUpdateRef (row_id : Z) (delta : Z)
| EvDeleteRow (row_id : Z).

#[global] Instance Event_eq_dec : EqDecision Event.
Proof. solve_decision. Defined.

(** The state behind one repository: table [blocks] with its
    AUTOINCREMENT sequence, the file system under the repository, the
    random source, and the trace of side effects. *)
Record World : Type := mkWorld {
  blocks : list models.Block;
  blocks_seq : Z;
  (** [false]: the database refuses writes (locked, read-only, disk error) *)
  db_writable : bool;
  dirs : gset Path;
  files : gmap Path bytes;
  (** bytes the file system can still take *)
  free_space : nat;
  rng : Rng;
  trace : list Event
}.

(** Whether [e1] first occurs in the trace before [e2] does. *)
Definition happens_before (e1 e2 : Event) (t : list Event) : bool :=
  match list_find (fun e => e = e1) t, list_find (fun e => e = e2) t with
  | Some (i, _), Some (j, _) => (i <? j)%nat
  | _, _ => false
  end.

Module world.

Definition set_blocks (bs : list models.Block) (seq : Z) (w : World) : World :=
  {| blocks := bs; blocks_seq := seq; db_writable := db_writable w;
     dirs := dirs w; files := files w; free_space := free_space w;
     rng := rng w; trace := trace w |}.

Definition set_dirs (d : gset Path) (w : World) : World :=
  {| blocks := blocks w; blocks_seq := blocks_seq w; db_writable := db_writable w;
     dirs := d; files := files w; free_space := free_space w;
     rng := rng w; trace := trace w |}.

Definition set_files (f : gmap Path bytes) (free : nat) (w : World) : World :=
  {| blocks := blocks w; blocks_seq := blocks_seq w; db_writable := db_writable w;
     dirs := dirs w; files := f; free_space := free;
     rng := rng w; trace := trace w |}.

Definition set_rng (r : Rng) (w : World) : World :=
  {| blocks := blocks w; blocks_seq := blocks_seq w; db_writable := db_writable w;
     dirs := dirs w; files := files w; free_space := free_space w;
     rng := r; trace := trace w |}.

Definition log (e : Event) (w : World) : World :=
  {| blocks := blocks w; blocks_seq := blocks_seq w; db_writable := db_writable w;
     dirs := dirs w; files := files w; free_space := free_space w;
     rng := rng w; trace := trace w ++ [e] |}.

(** Run a computation on the random source inside the world. *)
Definition with_rng {A : Type} (m : M Rng A) : M World A :=
  fun w => let '(r, g) := m (rng w) in (r, set_rng g w).

Definition is_file (p : Path) (w : World) : bool :=
  bool_decide (is_Some (files w !! p)).

(** The working directory and the root are always there. *)
Definition is_dir (p : Path) (w : World) : bool :=
  bool_decide (p = [] \/ p = ["/"] \/ p ∈ dirs w).

(** [p.exists()] *)
Definition path_exists (p : Path) (w : World) : bool :=
  is_file p w || is_dir p w.

(** [p.mkdir(parents=True, exist_ok=True)] *)
Definition mkdir_parents (p : Path) : M World unit :=
  fun w =>
    if existsb (fun q => is_file q w) (ancestors_and_self p)
    then (Raise OSError, w)      (* FileExistsError / NotADirectoryError *)
    else (Ok tt, log (EvMkdir p)
                   (set_dirs (dirs w ∪ list_to_set (ancestors_and_self p)) w)).

(** [with open(p, "wb") as f: f.write(data)].  Opening creates or
    truncates the file; a write that does not fit leaves what fitted
    and raises. *)
Definition write_file (p : Path) (data : bytes) : M World unit :=
  fun w =>
    if is_dir p w then (Raise OSError, w)                  (* IsADirectoryError *)
    else if negb (is_dir (parent p) w) then (Raise FileNotFoundError, w)
    else
      let room := (free_space w + length (default [] (files w !! p)))%nat in
      if (length data <=? room)%nat then
        (Ok tt, log (EvWrite p (length data))
                  (set_files (<[p := data]> (files w)) (room - length data) w))
      else
        (Raise OSError,
         log (EvWrite p room) (set_files (<[p := take room data]> (files w)) 0 w)).

(** [with open(p, "rb") as f: f.read()] *)
Definition read_file (p : Path) : M World bytes :=
  fun w =>
    match files w !! p with
    | Some data => (Ok data, w)
    | None => (Raise (if is_dir p w then OSError else FileNotFoundError), w)
    end.

(** [p.unlink()] *)
Definition unlink (p : Path) : M World unit :=
  fun w =>
    match files w !! p with
    | Some data =>
        (Ok tt, log (EvUnlink p)
                  (set_files (delete p (files w)) (free_space w + length data) w))
    | None => (Raise (if is_dir p w then OSError else FileNotFoundError), w)
    end.

End world.

(* ------------------------------------------------------------------ *)
(** ** The [Block] model of src/database/models.py *)

Module Block.
Import models.

(** [WHERE id = ?] *)
Definition has_id (i : Z) (b : Block) : bool := (id b =? i)%Z.

(** [SET reference_count = reference_count + delta] on one row, and on
    the rows of the table that carry the id. *)
Definition add_reference (delta : Z) (b : Block) : Block :=
  {| id := id b; hash := hash b; relative_path := relative_path b;
     size := size b; salt := salt b; nonce := nonce b;
     reference_count := reference_count b + delta |}.

Definition update_reference (i : Z) (delta : Z) (rows : list Block) : list Block :=
  map (fun b => if has_id i b then add_reference delta b else b) rows.

(** Modelled from the spec: [Block.get_by_hash] of src/database/models.py,
    which is not among the sources; "Look up blocks by hash" over the
    table [blocks] declared in database.py, whose [hash] column is UNIQUE. *)
Definition get_by_hash (block_hash : string) : M World (option Block) :=
  fun w => (Ok (find (fun b => String.eqb (hash b) block_hash) (blocks w)), w).

(** Modelled from the spec: [Block.increment_reference] of
    src/database/models.py, which is not among the sources; "increment its
    refcount by 1", an UPDATE of the row with this block's id. *)
Definition increment_reference (self : Block) : M World unit :=
  fun w =>
    if db_writable w then
      (Ok tt, world.log (EvUpdateRef (id self) 1)
                (world.set_blocks (update_reference (id self) 1 (blocks w))
                                  (blocks_seq w) w))
    else (Raise OperationalError, w).

(** Modelled from the spec: [Block.create] of src/database/models.py, which
    is not among the sources; "insert a new blocks row with refcount=1",
    the id taken from the AUTOINCREMENT sequence and [reference_count]
    from the column default of the schema in database.py. *)
Definition create (block_hash relative_path : string) (size : Z)
    (salt nonce : bytes) : M World Block :=
  fun w =>
    if negb (db_writable w) then (Raise OperationalError, w)
    else if existsb (fun b => String.eqb (hash b) block_hash) (blocks w)
    then (Raise IntegrityError, w)
    else
      let row := {| id := blocks_seq w + 1; hash := block_hash;
                    relative_path := relative_path; size := size;
                    salt := salt; nonce := nonce; reference_count := 1 |} in
      (Ok row, world.log (EvInsertRow (id row))
                 (world.set_blocks (blocks w ++ [row]) (id row) w)).

(** Modelled from the spec: [Block.decrement_reference] of
    src/database/models.py, which is not among the sources; "Atomically
    decrement refcount; if it reaches zero ...": the row loses one
    reference and the answer tells whether its count has reached zero. *)
Definition decrement_reference (self : Block) : M World bool :=
  fun w =>
    if db_writable w then
      let rows := update_reference (id self) (-1) (blocks w) in
      let should_delete :=
        match find (has_id (id self)) rows with
        | Some row => (reference_count row =? 0)%Z
        | None => false
        end in
      (Ok should_delete,
       world.log (EvUpdateRef (id self) (-1))
         (world.set_blocks rows (blocks_seq w) w))
    else (Raise OperationalError, w).

(** Modelled from the spec: [Block.delete] of src/database/models.py, which
    is not among the sources; "delete the row". *)
Definition delete (self : Block) : M World unit :=
  fun w =>
    if db_writable w then
      (Ok tt, world.log (EvDeleteRow (id self))
                (world.set_blocks
                   (filter (fun b => has_id (id self) b = false) (blocks w))
                   (blocks_seq w) w))
    else (Raise OperationalError, w).

End Block.

(* ------------------------------------------------------------------ *)
(** ** src/operations/block_manager.py *)

Module prepared.

(** The dictionary [prepare_block] returns. *)
Record t : Type := mk {
  hash : string;
  relative_path : string;
  size : Z;
  salt : bytes;
  nonce : bytes;
  encrypted_data : bytes;
  original_size : Z
}.

End prepared.

Module block_manager.
Import world.

Record BlockManager : Type := mkBlockManager {
  repository_path : string;
  master_key : bytes;
  blocks_dir : Path
}.

(** [repo_db.blocks_path]: <repo>/.vault/blocks *)
Definition blocks_path (repository_path : string) : Path :=
  joinpath (joinpath (of_string repository_path) ".vault") "blocks".

Definition __init__ (repository_path : string) (master_key : bytes)
  : M World BlockManager :=
  (let self := {| repository_path := repository_path; master_key := master_key;
                  blocks_dir := blocks_path repository_path |} in
   do! mkdir_parents (blocks_dir self) in
   ret self)%py.

Definition byte_of_N (n : N) : byte := default x00 (Byte.of_N (n mod 256)).

(** The version (4) and variant bits [uuid.uuid4()] sets in its
    sixteen random bytes. *)
Definition uuid4_bits (raw : bytes) : bytes :=
  imap (fun i b =>
          if Nat.eqb i 6 then byte_of_N (N.lor (N.land (Byte.to_N b) 15) 64)
          else if Nat.eqb i 8 then byte_of_N (N.lor (N.land (Byte.to_N b) 63) 128)
          else b) raw.

(** [uuid.uuid4()] *)
Definition uuid4 : M Rng bytes :=
  (let! raw := crypto.nacl_random 16 in
   ret (uuid4_bits raw))%py.

(** [f"{block_id[:2]}/{block_id[2:4]}/{block_id}"] *)
Definition shard (block_id : string) : string :=
  substring 0 2 block_id +:+ "/" +:+ substring 2 2 block_id +:+ "/" +:+ block_id.

Definition _generate_block_path : M World string :=
  (let! u := with_rng uuid4 in
   let block_id := Hex.hex u in
   ret (shard block_id))%py.

Section with_sodium.
Context `{crypto.Sodium}.

Definition prepare_block (self : BlockManager) (data : bytes) : M World prepared.t :=
  ((* Hashing *)
   let block_hash := hash_utils.compute_block_hash data in
   (* Salt and key derivation *)
   let! salt := with_rng crypto.generate_salt in
   let file_key := crypto.derive_file_key (master_key self) salt in
   (* Encryption *)
   let! enc := with_rng (crypto.encrypt_block data file_key) in
   let '(encrypted_data, nonce) := enc in
   (* Path generation *)
   let! relative_path := _generate_block_path in
   ret {| prepared.hash := block_hash;
          prepared.relative_path := relative_path;
          prepared.size := Z.of_nat (length encrypted_data);
          prepared.salt := salt;
          prepared.nonce := nonce;
          prepared.encrypted_data := encrypted_data;
          prepared.original_size := Z.of_nat (length data) |})%py.

Definition store_prepared_block (self : BlockManager) (prepared : prepared.t)
  : M World (models.Block * bool) :=
  ((* Check for existing block with same hash (Deduplication) *)
   let! existing_block := Block.get_by_hash (prepared.hash prepared) in
   match existing_block with
   | Some existing_block =>
       do! Block.increment_reference existing_block in
       ret (existing_block, false)
   | None =>
       let target_dir := blocks_dir self in
       (* Write encrypted block to disk *)
       let full_path := joinpath target_dir (prepared.relative_path prepared) in
       do! mkdir_parents (parent full_path) in
       do! write_file full_path (prepared.encrypted_data prepared) in
       (* Create block record in database *)
       let! block := Block.create (prepared.hash prepared)
                       (prepared.relative_path prepared)
                       (prepared.size prepared)
                       (prepared.salt prepared)
                       (prepared.nonce prepared) in
       ret (block, true)
   end)%py.

(** Legacy synchronous storage. *)
Definition store_block (self : BlockManager) (data : bytes)
  : M World (models.Block * bool) :=
  (let! prepared := prepare_block self data in
   store_prepared_block self prepared)%py.

Definition retrieve_block_data (self : BlockManager) (block : models.Block)
  : M World bytes :=
  fun w =>
    let full_path := joinpath (blocks_dir self) (models.relative_path block) in
    if negb (path_exists full_path w) then (Raise FileNotFoundError, w)
    else
      match read_file full_path w with
      | (Ok encrypted_data, w') =>
          (* Derive key and decrypt *)
          let file_key := crypto.derive_file_key (master_key self) (models.salt block) in
          (crypto.decrypt_block encrypted_data file_key (models.nonce block), w')
      | (Raise e, w') => (Raise e, w')
      end.

End with_sodium.

(** Only remove the block file from disk. *)
Definition delete_block_file (self : BlockManager) (block : models.Block)
  : M World bool :=
  fun w =>
    let full_path := joinpath (blocks_dir self) (models.relative_path block) in
    if path_exists full_path w then
      (do! unlink full_path in ret true)%py w
    else (Ok false, w).

Definition delete_block (self : BlockManager) (block : models.Block) : M World bool :=
  (let! should_delete := Block.decrement_reference block in
   if should_delete : bool then
     do! delete_block_file self block in
     (* Remove from database *)
     do! Block.delete block in
     ret true
   else ret false)%py.

Definition block_exists (self : BlockManager) (block : models.Block) : M World bool :=
  fun w => (Ok (path_exists (joinpath (blocks_dir self) (models.relative_path block)) w), w).

(** [full_path.stat().st_size] where the path exists, else 0;
    [dir_size] is what the host reports for a directory. *)
Definition get_block_size (dir_size : Path -> Z) (self : BlockManager)
    (block : models.Block) : M World Z :=
  fun w =>
    let full_path := joinpath (blocks_dir self) (models.relative_path block) in
    if path_exists full_path w then
      (Ok (match files w !! full_path with
           | Some data => Z.of_nat (length data)
           | None => dir_size full_path
           end), w)
    else (Ok 0, w).

(** Legacy placeholder for rollback: [pass]. *)
Definition rollback_temp_blocks (self : BlockManager) : M World unit := ret tt.

End block_manager.

(* ------------------------------------------------------------------ *)
(** ** main.py *)

Module main.

(** The controller: the configuration, the master key it holds once
    unlocked, and the random source. *)
Record SecureVaultApp : Type := mkApp {
  config_ : config.Config;
  master_key : option bytes;
  rng_ : Rng
}.

Definition set_config (c : config.Config) (a : SecureVaultApp) : SecureVaultApp :=
  {| config_ := c; master_key := master_key a; rng_ := rng_ a |}.
Definition set_master_key (k : option bytes) (a : SecureVaultApp) : SecureVaultApp :=
  {| config_ := config_ a; master_key := k; rng_ := rng_ a |}.

Definition with_rng {A : Type} (m : M Rng A) : M SecureVaultApp A :=
  fun a => let '(r, g) := m (rng_ a) in
           (r, {| config_ := config_ a; master_key := master_key a; rng_ := g |}).

(** A later start of the application: [Config()] reads config.json
    back, no master key is held yet. *)
Definition start (a : SecureVaultApp) (r : Rng) : SecureVaultApp :=
  {| config_ := config._load_config (config_ a); master_key := None; rng_ := r |}.

(** What the PIN dialog is told after one attempt. *)
Inductive pin_reply : Type :=
| Accept
| ShowErrorDecrypt      (* the except CryptoError branch *)
| ShowErrorHash.        (* the hash of the decrypted key does not match *)

Section with_sodium.
Context `{crypto.Sodium}.

(** [_first_time_setup]; the two arguments are what the PIN dialog
    and the key dialog hand over ([None]: the dialog was dismissed). *)
Definition _first_time_setup (pin : option string) (key : option bytes)
  : M SecureVaultApp bool :=
  match pin with
  | None => ret false
  | Some pin =>
      if String.eqb pin "" then ret false else
      match key with
      | None => ret false
      | Some master_key =>
          if bool_decide (master_key = []) then ret false else
          ((* Encrypt and save master key *)
           let! enc := with_rng (crypto.encrypt_master_key master_key pin) in
           let '(encrypted_key, salt, nonce) := enc in
           let key_hash := crypto.compute_key_hash master_key in
           do! modify (fun a =>
                 set_config
                   (config.set_master_key_hash key_hash
                      (config.set_master_key_nonce nonce
                         (config.set_master_key_salt salt
                            (config.set_encrypted_master_key encrypted_key
                               (config_ a))))) a) in
           do! modify (set_master_key (Some master_key)) in
           ret true)%py
      end
  end.

(** The three stored fields as [on_pin_verified] passes them on; a
    getter that raises does so before [decrypt_master_key] is entered. *)
Definition stored_key (c : config.Config)
  : result (option bytes * option bytes * option bytes) :=
  match config.encrypted_master_key c with
  | Raise e => Raise e
  | Ok ek =>
      match config.master_key_salt c with
      | Raise e => Raise e
      | Ok s =>
          match config.master_key_nonce c with
          | Raise e => Raise e
          | Ok n => Ok (ek, s, n)
          end
      end
  end.

(** [on_pin_verified(pin)] inside [_verify_pin]: one attempt. *)
Definition on_pin_verified (pin : string) : M SecureVaultApp pin_reply :=
  fun a =>
    match stored_key (config_ a) with
    | Raise e => (Raise e, a)
    | Ok (Some encrypted_key, Some salt, Some nonce) =>
        match crypto.decrypt_master_key encrypted_key pin salt nonce with
        | Ok decrypted_key =>
            (* Verify hash *)
            if crypto.verify_key_hash decrypted_key
                 (config.master_key_hash (config_ a))
            then (Ok Accept, set_master_key (Some decrypted_key) a)
            else (Ok ShowErrorHash, a)
        | Raise CryptoError => (Ok ShowErrorDecrypt, a)
        | Raise e => (Raise e, a)
        end
    | Ok _ =>
        (* a missing field arrives as None and fails inside the try
           of decrypt_master_key *)
        (Ok ShowErrorDecrypt, a)
    end.

End with_sodium.

End main.

(* ------------------------------------------------------------------ *)
(** ** src/ui/setup/pin_change.py *)

Module pin_change.

(** The texts the error label can be given. *)
Inductive message : Type :=
| error_current_pin_required
| error_new_pin_min_length
| error_new_pin_mismatch
| error_new_pin_same_as_current
| error_pin_invalid.

(** What one click on the change button ends in: an error shown, or
    the success message followed by [accept()]. *)
Inductive reply : Type :=
| ShowError (m : message)
| Changed.

(** The dialog, with the global configuration and the random source
    it works on. *)
Record PinChangeDialog : Type := mkPinChangeDialog {
  config_ : config.Config;
  _master_key : option bytes;
  rng_ : Rng
}.

Section with_sodium.
Context `{crypto.Sodium}.

Definition _on_change (current_pin new_pin confirm_pin : string)
  : M PinChangeDialog reply :=
  fun self =>
    (* Validate inputs *)
    if String.eqb current_pin "" then
      (Ok (ShowError error_current_pin_required), self)
    else if (utf8.str_len new_pin <? 4)%nat then
      (Ok (ShowError error_new_pin_min_length), self)
    else if negb (String.eqb new_pin confirm_pin) then
      (Ok (ShowError error_new_pin_mismatch), self)
    else if String.eqb current_pin new_pin then
      (Ok (ShowError error_new_pin_same_as_current), self)
    else
      (* Verify current PIN *)
      let config := config_ self in
      match main.stored_key config with
      | Raise e => (Raise e, self)
      | Ok (Some encrypted_key, Some salt, Some nonce) =>
          match crypto.decrypt_master_key encrypted_key current_pin salt nonce with
          | Ok decrypted_key =>
              if negb (crypto.verify_key_hash decrypted_key
                         (config.master_key_hash config))
              then (Ok (ShowError error_pin_invalid), self)
              else
                (* Encrypt master key with new PIN *)
                match crypto.encrypt_master_key decrypted_key new_pin (rng_ self) with
                | (Ok (encrypted_key, salt, nonce), g) =>
                    (* Save new encrypted key *)
                    (Ok Changed,
                     {| config_ :=
                          config.set_master_key_nonce nonce
                            (config.set_master_key_salt salt
                               (config.set_encrypted_master_key encrypted_key config));
                        _master_key := Some decrypted_key;
                        rng_ := g |})
                | (Raise e, g) =>
                    (Raise e, {| config_ := config;
                                 _master_key := Some decrypted_key; rng_ := g |})
                end
          | Raise CryptoError => (Ok (ShowError error_pin_invalid), self)
          | Raise e => (Raise e, self)
          end
      | Ok _ =>
          (* a missing field arrives as None and fails inside the try
             of decrypt_master_key *)
          (Ok (ShowError error_pin_invalid), self)
      end.

End with_sodium.

End pin_change.

(* ------------------------------------------------------------------ *)
(** ** src/utils/file_utils.py *)

Module file_utils.

Section with_pathlib.
(** [Path(name).stem] and [Path(name).suffix] *)
Variables stem suffix : string -> string.

(** [f"{stem} ({counter}){suffix}"] *)
Definition new_name (name : string) (counter : nat) : string :=
  stem name +:+ " (" +:+ pretty counter +:+ ")" +:+ suffix name.

(** The [while True] loop, for at most [fuel] rounds. *)
Fixpoint first_free (name : string) (existing_names : gset string)
    (fuel counter : nat) : option string :=
  match fuel with
  | O => None
  | S fuel' =>
      if bool_decide (new_name name counter ∈ existing_names)
      then first_free name existing_names fuel' (S counter)
      else Some (new_name name counter)
  end.

(** One round more than there are names in the way; [None] would be a
    loop still running after that. *)
Definition get_unique_filename (name : string) (existing_names : gset string)
  : option string :=
  if bool_decide (name ∈ existing_names)
  then first_free name existing_names (S (size existing_names)) 1
  else Some name.

End with_pathlib.

End file_utils.

(* ------------------------------------------------------------------ *)
(** ** The repository's consistency conditions *)

Module repository.
Import models block_manager.

(** What the schema of database.py asks of table [blocks] (PRIMARY KEY
    on id, UNIQUE on hash, ids handed out by AUTOINCREMENT), with no row
    left at a reference count below one. *)
Definition table_ok (w : World) : Prop :=
  NoDup (map id (blocks w)) /\
  NoDup (map hash (blocks w)) /\
  Forall (fun b => 1 <= reference_count b) (blocks w) /\
  Forall (fun b => id b <= blocks_seq w) (blocks w).

(** Every row has its blob file under the blocks directory. *)
Definition blobs_on_disk (self : BlockManager) (w : World) : Prop :=
  Forall (fun b => world.is_file (joinpath (blocks_dir self) (relative_path b)) w = true)
         (blocks w).


End repository.

(* ------------------------------------------------------------------ *)
(** ** A reference implementation of the libsodium interface

    A transparent stand-in in which every law assumed of the primitives
    below can be checked by computation: the sealed box is the plaintext
    behind a self-delimiting copy of the key, the hash and the key
    derivation keep their whole input. *)

Module reference_sodium.

(** A prefix-free code of the key. *)
Fixpoint key_code (k : bytes) : bytes :=
  match k with
  | [] => [x00]
  | b :: k' => x01 :: b :: key_code k'
  end.

Fixpoint strip (p c : bytes) : option bytes :=
  match p, c with
  | [], _ => Some c
  | x :: p', y :: c' => if decide (x = y) then strip p' c' else None
  | _ :: _, [] => None
  end.

#[export] Instance sodium : crypto.Sodium := {|
  crypto.blake2b data _ := data;
  crypto.argon2id_kdf _ password salt := password ++ salt;
  crypto.secretbox_encrypt key _ plaintext := key_code key ++ plaintext;
  crypto.secretbox_decrypt key _ ciphertext := strip (key_code key) ciphertext
|}.

(** The incremental hash that goes with it: the state is what was
    absorbed so far. *)
#[export] Instance generic_hash : hash_utils.GenericHash := {|
  hash_utils.hash_state := bytes;
  hash_utils.crypto_generichash_blake2b_init _ := [];
  hash_utils.crypto_generichash_blake2b_update state chunk := state ++ chunk;
  hash_utils.crypto_generichash_blake2b_final state := state
|}.

End reference_sodium.

(* ------------------------------------------------------------------ *)
(** ** Sample repositories *)

Module examples.
Import block_manager.

Definition bm : BlockManager :=
  {| repository_path := "/repo"; master_key := [x4b; x45; x59];
     blocks_dir := blocks_path "/repo" |}.

Definition rng0 : Rng := {| entropy := fun _ => x00; drawn := 0 |}.

(** A prepared block and the path its blob goes to. *)
Definition pb : prepared.t :=
  {| prepared.hash := "c0ffee";
     prepared.relative_path := "3f/a9/3fa9c0de";
     prepared.size := 3;
     prepared.salt := [x01];
     prepared.nonce := [x02];
     prepared.encrypted_data := [x0a; x0b; x0c];
     prepared.original_size := 3 |}.

Definition blob : Path := joinpath (blocks_dir bm) "3f/a9/3fa9c0de".

(** A repository just created: no rows, no blobs. *)
Definition empty_repo : World :=
  {| blocks := []; blocks_seq := 0; db_writable := true;
     dirs := list_to_set (ancestors_and_self (blocks_dir bm));
     files := ∅; free_space := 1000; rng := rng0; trace := [] |}.

(** The same repository with a database that refuses writes. *)
Definition read_only_repo : World :=
  {| blocks := []; blocks_seq := 0; db_writable := false;
     dirs := list_to_set (ancestors_and_self (blocks_dir bm));
     files := ∅; free_space := 1000; rng := rng0; trace := [] |}.

Definition row : models.Block :=
  {| models.id := 1; models.hash := "c0ffee";
     models.relative_path := "3f/a9/3fa9c0de"; models.size := 3;
     models.salt := [x01]; models.nonce := [x02];
     models.reference_count := 1 |}.

(** A repository holding that one block, referenced once. *)
Definition one_block_repo : World :=
  {| blocks := [row]; blocks_seq := 1; db_writable := true;
     dirs := list_to_set (ancestors_and_self (parent blob));
     files := {[ blob := [x0a; x0b; x0c] ]};
     free_space := 997; rng := rng0; trace := [] |}.



End examples.

(* ------------------------------------------------------------------ *)
(** * Theorems *)

Section hex_facts.

Lemma hex_pair_digits (b : byte) :
  Hex.is_space (Hex.hi_digit b) = false /\
  Hex.hex_pair (Hex.hi_digit b) (Hex.lo_digit b) = Some b.
Proof. destruct b; vm_compute; split; reflexivity. Qed.

(** Decoding undoes encoding. *)
Lemma fromhex_hex (bs : bytes) : Hex.fromhex (Hex.hex bs) = Some bs.
Proof.
  induction bs as [|b bs IH]; [reflexivity|].
  destruct (hex_pair_digits b) as [Hsp Hp].
  cbn [Hex.hex Hex.fromhex]. rewrite Hsp, Hp, IH. reflexivity.
Qed.

End hex_facts.

(* ------------------------------------------------------------------ *)
(** ** The configuration store *)

Section config_facts.
Import config.

Lemma get_hex_set_ne (key key' : string) (v : json) (c : Config) :
  key <> key' -> get_hex key' (set key v c) = get_hex key' c.
Proof.
  intros Hne. unfold get_hex, get, set, _save_config. simpl.
  rewrite lookup_insert_ne by exact Hne. reflexivity.
Qed.

Lemma get_hex_set_hex (key : string) (b : bytes) (c : Config) :
  get_hex key (set key (JStr (Hex.hex b)) c) =
  Ok (if bool_decide (b = []) then None else Some b).
Proof.
  unfold get_hex, get, set, _save_config. simpl.
  rewrite lookup_insert_eq. destruct b as [|x b].
  - reflexivity.
  - change (truthy (JStr (Hex.hex (x :: b)))) with true. cbv iota.
    rewrite fromhex_hex. reflexivity.
Qed.

Lemma get_hex_absent (key : string) (c : Config) :
  _config_data c !! key = None -> get_hex key c = Ok None.
Proof. intros Hk. unfold get_hex, get. rewrite Hk. reflexivity. Qed.

Lemma load_after_set (key : string) (v : json) (c : Config) :
  _load_config (set key v c) = set key v c.
Proof. reflexivity. Qed.

(** C10. For a non-empty byte string [b], each of the three master-key
    fields read back after being set to [b] is exactly [b]; a field
    whose key is absent from the document reads as None; and a field
    set to the empty byte string reads as None as well. *)
Theorem C10_master_key_fields (c : Config) (b : bytes) :
  (b <> [] ->
     encrypted_master_key (set_encrypted_master_key b c) = Ok (Some b) /\
     master_key_salt (set_master_key_salt b c) = Ok (Some b) /\
     master_key_nonce (set_master_key_nonce b c) = Ok (Some b)) /\
  ((_config_data c !! "encrypted_master_key" = None ->
      encrypted_master_key c = Ok None) /\
   (_config_data c !! "master_key_salt" = None ->
      master_key_salt c = Ok None) /\
   (_config_data c !! "master_key_nonce" = None ->
      master_key_nonce c = Ok None)) /\
  (encrypted_master_key (set_encrypted_master_key [] c) = Ok None /\
   master_key_salt (set_master_key_salt [] c) = Ok None /\
   master_key_nonce (set_master_key_nonce [] c) = Ok None).
Proof.
  split; [|split].
  - intros Hb.
    unfold encrypted_master_key, set_encrypted_master_key, master_key_salt,
      set_master_key_salt, master_key_nonce, set_master_key_nonce.
    rewrite !get_hex_set_hex.
    rewrite bool_decide_eq_false_2 by exact Hb. auto.
  - repeat split; apply get_hex_absent.
  - unfold encrypted_master_key, set_encrypted_master_key, master_key_salt,
      set_master_key_salt, master_key_nonce, set_master_key_nonce.
    rewrite !get_hex_set_hex. auto.
Qed.

Lemma C10_master_key_fields_witness :
  config.encrypted_master_key
    (config.set_encrypted_master_key [x0a; xff] config.fresh) = Ok (Some [x0a; xff]) /\
  config.master_key_salt config.fresh = Ok None /\
  config.master_key_nonce (config.set_master_key_nonce [] config.fresh) = Ok None.
Proof.
  destruct (C10_master_key_fields config.fresh [x0a; xff])
    as (Hset & (_ & Habsent & _) & (_ & _ & Hempty)).
  split; [|split].
  - apply Hset. discriminate.
  - apply Habsent. reflexivity.
  - exact Hempty.
Defined.

End config_facts.

(* ------------------------------------------------------------------ *)
(** ** The reference primitives satisfy the laws assumed below *)

Section reference_sodium_facts.
Import reference_sodium.

Lemma strip_app (p m : bytes) : strip p (p ++ m) = Some m.
Proof.
  induction p as [|x p IH]; simpl; [reflexivity|].
  destruct (decide (x = x)); [exact IH | congruence].
Qed.

Lemma strip_key_code_ne (k' k m : bytes) :
  k' <> k -> strip (key_code k') (key_code k ++ m) = None.
Proof.
  revert k. induction k' as [|b' k' IH]; intros [|b k] Hne; simpl;
    try congruence; try reflexivity.
  destruct (decide (b' = b)) as [->|]; [|reflexivity].
  apply IH. congruence.
Qed.

Lemma reference_decrypt_encrypt (k n m : bytes) :
  crypto.secretbox_decrypt k n (crypto.secretbox_encrypt k n m) = Some m.
Proof. apply strip_app. Qed.

Lemma reference_decrypt_wrong_key (k k' n m : bytes) :
  k' <> k -> crypto.secretbox_decrypt k' n (crypto.secretbox_encrypt k n m) = None.
Proof. apply strip_key_code_ne. Qed.

Lemma reference_encrypt_nonempty (k n m : bytes) :
  crypto.secretbox_encrypt k n m <> [].
Proof. destruct k; discriminate. Qed.

End reference_sodium_facts.

(* ------------------------------------------------------------------ *)
(** ** PIN setup and PIN verification *)

Section pin_facts.
Context `{crypto.Sodium}.
Import crypto main.

(** Opening a box with the key and nonce that sealed it gives the
    plaintext back. *)
Hypothesis decrypt_encrypt : forall k n m,
  secretbox_decrypt k n (secretbox_encrypt k n m) = Some m.

(** A box does not open under any other key. *)
Hypothesis decrypt_wrong_key : forall k k' n m,
  k' <> k -> secretbox_decrypt k' n (secretbox_encrypt k n m) = None.

(** A sealed box carries its authenticator: it is never empty. *)
Hypothesis encrypt_nonempty : forall k n m, secretbox_encrypt k n m <> [].

Lemma encrypt_master_key_run (master_key : bytes) (pin : string) (r : Rng) :
  encrypt_master_key master_key pin r =
  (Ok (secretbox_encrypt (derive_key_from_pin pin (salt_drawn r)) (nonce_drawn r)
         master_key, salt_drawn r, nonce_drawn r),
   advance 40 r).
Proof. reflexivity. Qed.

Lemma salt_drawn_nonempty (r : Rng) : salt_drawn r <> [].
Proof. discriminate. Qed.

Lemma nonce_drawn_nonempty (r : Rng) : nonce_drawn r <> [].
Proof. discriminate. Qed.

Lemma stored_key_after_setup (ek s n : bytes) (h : string) (c : config.Config) :
  ek <> [] -> s <> [] -> n <> [] ->
  let c' := config._load_config
              (config.set_master_key_hash h
                 (config.set_master_key_nonce n
                    (config.set_master_key_salt s
                       (config.set_encrypted_master_key ek c)))) in
  stored_key c' = Ok (Some ek, Some s, Some n) /\
  config.master_key_hash c' = Some (config.JStr h) /\
  config.is_first_run c' = false.
Proof.
  intros Hek Hs Hn c'. subst c'.
  unfold stored_key, config.encrypted_master_key, config.master_key_salt,
    config.master_key_nonce, config.set_master_key_hash,
    config.set_master_key_nonce, config.set_master_key_salt,
    config.set_encrypted_master_key.
  rewrite load_after_set.
  rewrite !get_hex_set_ne by discriminate. rewrite get_hex_set_hex.
  rewrite bool_decide_eq_false_2 by exact Hek.
  rewrite !get_hex_set_ne by discriminate. rewrite get_hex_set_hex.
  rewrite bool_decide_eq_false_2 by exact Hs.
  rewrite !get_hex_set_ne by discriminate. rewrite get_hex_set_hex.
  rewrite bool_decide_eq_false_2 by exact Hn.
  split; [reflexivity|].
  unfold config.master_key_hash, config.is_first_run, config.get, config.set,
    config._save_config.
  cbn [config._config_data]. split; [apply lookup_insert_eq|].
  apply bool_decide_eq_false_2.
  rewrite !lookup_insert_ne by discriminate. rewrite lookup_insert_eq. discriminate.
Qed.

Lemma first_time_setup_run (a : SecureVaultApp) (P : string) (mk : bytes) :
  P <> "" -> mk <> [] ->
  let salt := salt_drawn (rng_ a) in
  let nonce := nonce_drawn (rng_ a) in
  let ek := secretbox_encrypt (derive_key_from_pin P salt) nonce mk in
  _first_time_setup (Some P) (Some mk) a =
  (Ok true,
   {| config_ := config.set_master_key_hash (compute_key_hash mk)
                   (config.set_master_key_nonce nonce
                      (config.set_master_key_salt salt
                         (config.set_encrypted_master_key ek (config_ a))));
      master_key := Some mk;
      rng_ := advance 40 (rng_ a) |}).
Proof.
  intros HP Hmk salt nonce ek. unfold _first_time_setup.
  destruct (String.eqb_spec P "") as [->|_]; [congruence|].
  rewrite bool_decide_eq_false_2 by exact Hmk.
  unfold bind, with_rng. rewrite encrypt_master_key_run. reflexivity.
Qed.

(** C4. After the first-time setup has persisted the key wrapped under
    PIN [P], a later start of the application is no first run; it accepts
    [P] and then holds exactly the master key that was set up.  For a PIN
    [P'] other than [P], whose derived key differs from that of [P],
    decrypt_master_key raises CryptoError, the attempt is answered with
    the error, and no master key is held. *)
Theorem C4_setup_then_unlock (a : SecureVaultApp) (P : string) (mk : bytes) (r : Rng) :
  P <> "" -> mk <> [] ->
  exists a1 ek salt nonce,
    _first_time_setup (Some P) (Some mk) a = (Ok true, a1) /\
    config.is_first_run (config_ (start a1 r)) = false /\
    stored_key (config_ (start a1 r)) = Ok (Some ek, Some salt, Some nonce) /\
    on_pin_verified P (start a1 r)
      = (Ok Accept, set_master_key (Some mk) (start a1 r)) /\
    forall P', P' <> P ->
      derive_key_from_pin P' salt <> derive_key_from_pin P salt ->
      decrypt_master_key ek P' salt nonce = Raise CryptoError /\
      on_pin_verified P' (start a1 r) = (Ok ShowErrorDecrypt, start a1 r) /\
      master_key (start a1 r) = None.
Proof.
  intros HP Hmk.
  pose proof (first_time_setup_run a P mk HP Hmk) as Hrun. cbv zeta in Hrun.
  eexists _, _, (salt_drawn (rng_ a)), (nonce_drawn (rng_ a)).
  split; [exact Hrun|].
  destruct (stored_key_after_setup
              (secretbox_encrypt (derive_key_from_pin P (salt_drawn (rng_ a)))
                 (nonce_drawn (rng_ a)) mk)
              (salt_drawn (rng_ a)) (nonce_drawn (rng_ a))
              (compute_key_hash mk) (config_ a)
              (encrypt_nonempty _ _ _) (salt_drawn_nonempty _)
              (nonce_drawn_nonempty _)) as (Hstored & Hhash & Hrun').
  split; [exact Hrun'|]. split; [exact Hstored|]. split.
  - unfold on_pin_verified. cbn [start config_]. rewrite Hstored.
    unfold decrypt_master_key. rewrite decrypt_encrypt.
    rewrite Hhash. unfold verify_key_hash.
    rewrite bool_decide_eq_true_2 by reflexivity. reflexivity.
  - intros P' HP' Hkdf.
    assert (Hdec : decrypt_master_key
               (secretbox_encrypt (derive_key_from_pin P (salt_drawn (rng_ a)))
                  (nonce_drawn (rng_ a)) mk) P' (salt_drawn (rng_ a))
               (nonce_drawn (rng_ a)) = Raise CryptoError).
    { unfold decrypt_master_key.
      rewrite decrypt_wrong_key by exact Hkdf. reflexivity. }
    split; [exact Hdec|]. split; [|reflexivity].
    unfold on_pin_verified. cbn [start config_]. rewrite Hstored, Hdec.
    reflexivity.
Qed.

End pin_facts.

(* ------------------------------------------------------------------ *)
(** ** Chunking a host file *)

Section chunk_facts.
Import hash_utils.

Lemma read_chunks_eq (bs : Z) (ahead : bytes) :
  read_chunks bs ahead =
  match f_read bs ahead with
  | ([], _) => []
  | (chunk, rest) => chunk :: read_chunks bs rest
  end.
Proof.
  funelim (read_chunks bs ahead);
    match goal with E : f_read _ _ = _ |- _ => rewrite E end; reflexivity.
Qed.

Lemma read_chunks_nil (bs : Z) : read_chunks bs [] = [].
Proof.
  rewrite read_chunks_eq. unfold f_read.
  destruct (bs <? 0)%Z; [reflexivity|]. rewrite take_nil. reflexivity.
Qed.

Lemma read_chunks_cons (bs : Z) (b : byte) (ahead : bytes) :
  (0 < bs)%Z ->
  read_chunks bs (b :: ahead) =
  take (Z.to_nat bs) (b :: ahead) :: read_chunks bs (drop (Z.to_nat bs) (b :: ahead)).
Proof.
  intros Hbs. rewrite read_chunks_eq at 1. unfold f_read.
  destruct (Z.ltb_spec bs 0) as [?|_]; [lia|].
  destruct (Z.to_nat bs) as [|n] eqn:En; [lia|]. reflexivity.
Qed.

(** Rounding up advances by one for every whole block. *)
Lemma ceil_div_step (bs len : Z) :
  (0 < bs)%Z ->
  ((len + bs + bs - 1) `div` bs = (len + bs - 1) `div` bs + 1)%Z.
Proof.
  intros Hbs.
  replace (len + bs + bs - 1)%Z with ((len + bs - 1) + 1 * bs)%Z by lia.
  rewrite Z.div_add by lia. reflexivity.
Qed.

Lemma ceil_div_small (bs len : Z) :
  (0 < len <= bs)%Z -> ((len + bs - 1) `div` bs = 1)%Z.
Proof.
  intros Hlen. symmetry. apply (Z.div_unique _ _ 1 (len - 1)); lia.
Qed.

(** What the loop yields for a positive block size. *)
Lemma read_chunks_spec (bs : Z) (content : bytes) :
  (0 < bs)%Z ->
  concat (read_chunks bs content) = content /\
  (forall (i : nat) (c : bytes),
      read_chunks bs content !! i = Some c ->
      (0 < Z.of_nat (length c) <= bs)%Z /\
      (S i < length (read_chunks bs content) -> Z.of_nat (length c) = bs)%nat) /\
  Z.of_nat (length (read_chunks bs content)) =
    ((Z.of_nat (length content) + bs - 1) `div` bs)%Z.
Proof.
  intros Hbs.
  remember (length content) as len eqn:Hlen. revert content Hlen.
  induction len as [len IH] using (well_founded_induction lt_wf).
  intros [|b content] Hlen.
  - rewrite read_chunks_nil. simpl in Hlen. subst len. simpl.
    split; [reflexivity|]. split.
    + intros i c Hi. rewrite lookup_nil in Hi. discriminate.
    + symmetry. apply Z.div_small. lia.
  - rewrite read_chunks_cons by exact Hbs.
    set (n := Z.to_nat bs) in *.
    assert (Hn : (0 < n)%nat) by (subst n; lia).
    set (rest := drop n (b :: content)) in *.
    assert (Hrest : (length rest = length (b :: content) - n)%nat)
      by (subst rest; apply length_drop).
    assert (Htake : (length (take n (b :: content)) = n `min` length (b :: content))%nat)
      by apply length_take.
    destruct (IH (length rest)) with (content := rest) as (Hcat & Hsz & Hcnt);
      [simpl in *; lia | reflexivity |].
    split; [|split].
    + simpl concat. rewrite Hcat. subst rest. apply take_drop.
    + intros [|i] c Hi.
      * simpl in Hi. injection Hi as <-. split.
        -- simpl in *. lia.
        -- intros Hmore. simpl in Hmore.
           destruct (read_chunks bs rest) as [|c' cs] eqn:Ecs; [simpl in Hmore; lia|].
           assert (Hpos : (0 < length rest)%nat).
           { destruct rest; [rewrite read_chunks_nil in Ecs; discriminate|simpl; lia]. }
           simpl in *. lia.
      * simpl in Hi. destruct (Hsz i c Hi) as [Hc Hfull]. split; [exact Hc|].
        intros Hmore. apply Hfull. simpl in Hmore. lia.
    + simpl length at 1. rewrite Nat2Z.inj_succ, Hcnt, Hrest.
      destruct (Nat.le_gt_cases (length (b :: content)) n) as [Hle|Hgt].
      * replace (length (b :: content) - n)%nat with 0%nat by lia.
        change (Z.of_nat 0) with 0%Z.
        rewrite (Z.div_small (0 + bs - 1)) by lia.
        rewrite ceil_div_small; [reflexivity|]. subst len n. simpl in *. lia.
      * replace (Z.of_nat len + bs - 1)%Z
          with (Z.of_nat (length (b :: content) - n) + bs + bs - 1)%Z
          by (subst len n; lia).
        rewrite ceil_div_step by exact Hbs. lia.
Qed.

(** C6. Read with the 4 MiB block size of the import pipeline, a host
    file comes out as consecutive chunks whose concatenation is the
    file: every chunk is non-empty, none is longer than 4,194,304
    bytes, every chunk but the last is exactly that long, and their
    number is the size divided by 4 MiB, rounded up. *)
Theorem C6_chunks_of_4MiB (files : gmap Path bytes) (file_path : Path)
    (content : bytes) :
  files !! file_path = Some content ->
  crypto.BLOCK_SIZE = 4194304%Z /\
  exists chunks : list bytes,
    iter_file_blocks files file_path (Some crypto.BLOCK_SIZE) = Ok chunks /\
    concat chunks = content /\
    (forall (i : nat) (c : bytes),
        chunks !! i = Some c ->
        (0 < Z.of_nat (length c) <= 4194304)%Z /\
        (S i < length chunks -> Z.of_nat (length c) = 4194304%Z)%nat) /\
    Z.of_nat (length chunks) =
      ((Z.of_nat (length content) + 4194304 - 1) `div` 4194304)%Z /\
    count_file_blocks files file_path (Some crypto.BLOCK_SIZE) =
      Ok (Z.of_nat (length chunks)).
Proof.
  intros Hfile. split; [reflexivity|].
  destruct (read_chunks_spec 4194304 content) as (Hcat & Hsz & Hcnt); [lia|].
  exists (read_chunks 4194304 content).
  split; [|split; [exact Hcat|split; [exact Hsz|split; [exact Hcnt|]]]].
  - unfold iter_file_blocks. rewrite Hfile. reflexivity.
  - unfold count_file_blocks. rewrite Hfile, Hcnt. reflexivity.
Qed.

Lemma C6_chunks_of_4MiB_witness :
  exists chunks : list bytes,
    iter_file_blocks {[ ["host"; "a.bin"] := [x01; x02; x03] ]} ["host"; "a.bin"]
      (Some crypto.BLOCK_SIZE) = Ok chunks /\
    concat chunks = [x01; x02; x03].
Proof.
  destruct (C6_chunks_of_4MiB {[ ["host"; "a.bin"] := [x01; x02; x03] ]}
              ["host"; "a.bin"] [x01; x02; x03])
    as (_ & chunks & Hrun & Hcat & _).
  - apply lookup_singleton_eq.
  - exists chunks. split; [exact Hrun | exact Hcat].
Defined.

(** The loop with a small block size, run. *)
Example read_chunks_by_4 :
  read_chunks 4 [x01; x02; x03; x04; x05; x06; x07; x08; x09; x0a]
  = [[x01; x02; x03; x04]; [x05; x06; x07; x08]; [x09; x0a]].
Proof. vm_compute. reflexivity. Qed.

(** Left at its default, the iterator reads 1 MiB at a time. *)
Example default_block_size :
  default READ_BLOCK_SIZE None = 1048576%Z.
Proof. reflexivity. Qed.

End chunk_facts.

(* ------------------------------------------------------------------ *)
(** ** PIN verification on the reference primitives *)

Section pin_reference.
Import reference_sodium crypto main.

Lemma C4_setup_then_unlock_witness :
  let a := {| config_ := config.fresh; master_key := None;
              rng_ := {| entropy := fun _ => x2a; drawn := 0 |} |} in
  let r := {| entropy := fun _ => x07; drawn := 5 |} in
  exists a1,
    _first_time_setup (Some "1234") (Some [x01; x02; x03]) a = (Ok true, a1) /\
    on_pin_verified "1234" (start a1 r)
      = (Ok Accept, set_master_key (Some [x01; x02; x03]) (start a1 r)) /\
    on_pin_verified "9999" (start a1 r) = (Ok ShowErrorDecrypt, start a1 r).
Proof.
  intros a r.
  destruct (C4_setup_then_unlock
              reference_decrypt_encrypt reference_decrypt_wrong_key
              reference_encrypt_nonempty
              a "1234" [x01; x02; x03] r)
    as (a1 & ek & salt & nonce & Hsetup & _ & _ & Hgood & Hbad);
    [discriminate | discriminate |].
  exists a1. split; [exact Hsetup|]. split; [exact Hgood|].
  apply (Hbad "9999"); [discriminate|].
  cbn. intros Heq. discriminate Heq.
Defined.

End pin_reference.

(* ------------------------------------------------------------------ *)
(** ** Paths *)

Section path_facts.

Lemma string_app_cons (c : ascii) (s t : string) :
  String c s +:+ t = String c (s +:+ t).
Proof. reflexivity. Qed.

Lemma string_app_nil_r (s : string) : s +:+ "" = s.
Proof.
  induction s as [|c s IH]; [reflexivity|].
  rewrite string_app_cons, IH. reflexivity.
Qed.

Lemma string_app_assoc (s t u : string) : (s +:+ t) +:+ u = s +:+ (t +:+ u).
Proof.
  induction s as [|c s IH]; [reflexivity|].
  rewrite !string_app_cons, IH. reflexivity.
Qed.

Lemma parts_from_no_slash (s cur t : string) :
  no_slash s = true ->
  parts_from cur (s +:+ t) = parts_from (cur +:+ s) t.
Proof.
  revert cur. induction s as [|c s IH]; intros cur Hs.
  - rewrite string_app_nil_r. reflexivity.
  - simpl in Hs. apply andb_prop in Hs as [Hc Hs].
    rewrite string_app_cons. cbn [parts_from].
    destruct (Ascii.eqb c "/"); [discriminate|].
    rewrite IH by exact Hs. f_equal.
    rewrite string_app_assoc. reflexivity.
Qed.

Lemma parts_from_slash (cur t : string) :
  parts_from cur ("/" +:+ t) = keep cur ++ parts_from "" t.
Proof. reflexivity. Qed.

Lemma keep_long (s : string) : (2 <= String.length s)%nat -> keep s = [s].
Proof.
  intros Hlen. unfold keep. rewrite bool_decide_eq_false_2; [reflexivity|].
  intros [-> | ->]; simpl in Hlen; lia.
Qed.

(** The components of aa/bb/id. *)
Lemma parts_from_shard (aa bb i : string) :
  no_slash aa = true -> no_slash bb = true -> no_slash i = true ->
  (2 <= String.length aa)%nat -> (2 <= String.length bb)%nat ->
  (2 <= String.length i)%nat ->
  parts_from "" (aa +:+ "/" +:+ bb +:+ "/" +:+ i) = [aa; bb; i].
Proof.
  intros Haa Hbb Hi Laa Lbb Li.
  rewrite parts_from_no_slash, parts_from_slash by exact Haa.
  rewrite keep_long by exact Laa.
  rewrite parts_from_no_slash, parts_from_slash by exact Hbb.
  rewrite keep_long by exact Lbb.
  rewrite <- (string_app_nil_r i) at 1.
  rewrite parts_from_no_slash by exact Hi.
  change (parts_from ("" +:+ i) "") with (keep i).
  rewrite keep_long by exact Li. reflexivity.
Qed.

Lemma hex_digits_no_slash (b : byte) :
  Ascii.eqb (Hex.hi_digit b) "/" = false /\ Ascii.eqb (Hex.lo_digit b) "/" = false.
Proof. destruct b; vm_compute; split; reflexivity. Qed.

Lemma hex_no_slash (bs : bytes) : no_slash (Hex.hex bs) = true.
Proof.
  induction bs as [|b bs IH]; [reflexivity|].
  destruct (hex_digits_no_slash b) as [Hh Hl].
  simpl. rewrite Hh, Hl, IH. reflexivity.
Qed.

Lemma hex_length (bs : bytes) : String.length (Hex.hex bs) = (2 * length bs)%nat.
Proof. induction bs as [|b bs IH]; simpl; [reflexivity|]. rewrite IH. lia. Qed.

Lemma substring_no_slash (n m : nat) (s : string) :
  no_slash s = true -> no_slash (substring n m s) = true.
Proof.
  revert n m. induction s as [|c s IH]; intros n m Hs.
  - destruct n, m; reflexivity.
  - simpl in Hs. apply andb_prop in Hs as [Hc Hs].
    destruct n as [|n]; destruct m as [|m]; simpl; try reflexivity.
    + rewrite Hc. simpl. apply IH, Hs.
    + apply IH, Hs.
    + apply IH, Hs.
Qed.

Lemma substring_length (n m : nat) (s : string) :
  (n + m <= String.length s)%nat -> String.length (substring n m s) = m.
Proof.
  revert n m. induction s as [|c s IH]; intros n m Hlen; simpl in Hlen.
  - assert (n = 0%nat) by lia. assert (m = 0%nat) by lia. subst. reflexivity.
  - destruct n as [|n]; destruct m as [|m]; simpl; try reflexivity.
    + f_equal. apply IH. lia.
    + apply IH. lia.
    + apply IH. simpl. lia.
Qed.

(** Where the blob of a generated identifier goes. *)
Lemma joinpath_shard (base : Path) (u : bytes) :
  (2 <= length u)%nat ->
  let block_id := Hex.hex u in
  joinpath base (block_manager.shard block_id) =
  base ++ [substring 0 2 block_id; substring 2 2 block_id; block_id].
Proof.
  intros Hu block_id.
  assert (Hlen : String.length block_id = (2 * length u)%nat) by apply hex_length.
  assert (Hns : no_slash block_id = true) by apply hex_no_slash.
  unfold joinpath, block_manager.shard.
  replace (is_absolute _) with false.
  - rewrite parts_from_shard; [reflexivity | | | | | | ];
      try (apply substring_no_slash; exact Hns); try exact Hns;
      try (rewrite substring_length; lia); lia.
  - destruct u as [|b u]; [simpl in Hu; lia|].
    subst block_id. simpl. symmetry. apply hex_digits_no_slash.
Qed.

End path_facts.

(* ------------------------------------------------------------------ *)
(** ** Preparing a block *)

Section prepare_facts.
Context `{crypto.Sodium}.
Import block_manager.

(** C5. For every plaintext chunk, prepare_block hashes the plaintext,
    takes a fresh 16-byte salt, derives the block key as
    blake2b(master_key || salt, 32), seals the plaintext under that key
    with a fresh 24-byte nonce, and names the blob by a fresh identifier
    sharded as aa/bb/id under the blocks directory; the table, the file
    system and the effect trace are left as they were: only the random
    source has advanced. *)
Theorem C5_prepare_block (self : BlockManager) (data : bytes) (w : World) :
  let salt := draw (rng w) 0 16 in
  let nonce := draw (rng w) 16 24 in
  let block_id := Hex.hex (uuid4_bits (draw (rng w) 40 16)) in
  let block_key := crypto.blake2b (master_key self ++ salt) 32 in
  exists w',
    prepare_block self data w =
      (Ok {| prepared.hash := Hex.hex (crypto.blake2b data 32);
             prepared.relative_path :=
               substring 0 2 block_id +:+ "/" +:+ substring 2 2 block_id
                 +:+ "/" +:+ block_id;
             prepared.size :=
               Z.of_nat (length (crypto.secretbox_encrypt block_key nonce data));
             prepared.salt := salt;
             prepared.nonce := nonce;
             prepared.encrypted_data :=
               crypto.secretbox_encrypt block_key nonce data;
             prepared.original_size := Z.of_nat (length data) |}, w') /\
    block_key = crypto.derive_file_key (master_key self) salt /\
    length salt = 16%nat /\ length nonce = 24%nat /\ String.length block_id = 32%nat /\
    joinpath (blocks_dir self) (shard block_id) =
      blocks_dir self ++ [substring 0 2 block_id; substring 2 2 block_id; block_id] /\
    rng w' = advance 56 (rng w) /\
    blocks w' = blocks w /\ blocks_seq w' = blocks_seq w /\
    db_writable w' = db_writable w /\
    dirs w' = dirs w /\ files w' = files w /\ free_space w' = free_space w /\
    trace w' = trace w.
Proof.
  intros salt nonce block_id block_key.
  exists (snd (prepare_block self data w)).
  split; [reflexivity|].
  repeat split.
  apply joinpath_shard. simpl. lia.
Qed.

End prepare_facts.

(* ------------------------------------------------------------------ *)
(** ** Table [blocks] *)

Section table_facts.
Import models Block.

Lemma find_none_existsb {A : Type} (f : A -> bool) (l : list A) :
  find f l = None -> existsb f l = false.
Proof.
  induction l as [|x l IH]; simpl; [reflexivity|].
  destruct (f x); [discriminate|]. exact IH.
Qed.

Lemma find_some_elem {A : Type} (f : A -> bool) (l : list A) (x : A) :
  find f l = Some x -> x ∈ l /\ f x = true.
Proof.
  induction l as [|y l IH]; simpl; [discriminate|].
  destruct (f y) eqn:Hy.
  - intros [= ->]. split; [left | exact Hy].
  - intros Hf. destruct (IH Hf) as [Hin Hfx]. split; [right; exact Hin | exact Hfx].
Qed.

Lemma has_id_add_reference (i d : Z) (b : Block) :
  has_id i (add_reference d b) = has_id i b.
Proof. reflexivity. Qed.

(** With the primary key respected, the row of a block is found by its
    id, shifted by the update. *)
Lemma find_update_reference (rows : list Block) (b : Block) (d : Z) :
  NoDup (map id rows) -> b ∈ rows ->
  find (has_id (id b)) (update_reference (id b) d rows) = Some (add_reference d b).
Proof.
  induction rows as [|r rows IH]; intros Hnd Hin.
  - inversion Hin.
  - simpl in Hnd. apply NoDup_cons in Hnd as [Hr Hnd].
    apply elem_of_cons in Hin as [<- | Hin].
    + simpl. unfold has_id at 2. rewrite Z.eqb_refl.
      rewrite has_id_add_reference. unfold has_id. rewrite Z.eqb_refl. reflexivity.
    + assert (Hne : id r <> id b).
      { intros Heq. apply Hr. rewrite Heq. apply list_elem_of_fmap_2. exact Hin. }
      simpl. unfold has_id at 2.
      destruct (Z.eqb_spec (id r) (id b)) as [?|_]; [contradiction|].
      unfold has_id at 1. destruct (Z.eqb_spec (id r) (id b)) as [?|_]; [contradiction|].
      apply IH; assumption.
Qed.

Lemma update_reference_other (rows : list Block) (i d : Z) (b : Block) :
  id b <> i -> (b ∈ update_reference i d rows <-> b ∈ rows).
Proof.
  intros Hne. unfold update_reference. rewrite list_elem_of_fmap. split.
  - intros (r & -> & Hin). unfold has_id in *.
    destruct (Z.eqb_spec (id r) i) as [Heq|_]; [|exact Hin].
    exfalso. apply Hne. simpl. exact Heq.
  - intros Hin. exists b. split; [|exact Hin].
    unfold has_id. destruct (Z.eqb_spec (id b) i); [contradiction|reflexivity].
Qed.

Lemma update_reference_length (rows : list Block) (i d : Z) :
  length (update_reference i d rows) = length rows.
Proof. apply length_map. Qed.

End table_facts.

(* ------------------------------------------------------------------ *)
(** ** The file system *)

Section fs_facts.
Import world.

Lemma existsb_is_file_false (ps : list Path) (w : World) :
  Forall (fun q => files w !! q = None) ps ->
  existsb (fun q => is_file q w) ps = false.
Proof.
  induction 1 as [|q ps Hq _ IH]; simpl; [reflexivity|].
  unfold is_file at 1. rewrite Hq.
  rewrite bool_decide_eq_false_2 by (intros [x Hx]; discriminate Hx).
  exact IH.
Qed.

Lemma mkdir_parents_ok (p : Path) (w : World) :
  Forall (fun q => files w !! q = None) (ancestors_and_self p) ->
  mkdir_parents p w =
  (Ok tt, log (EvMkdir p)
            (set_dirs (dirs w ∪ list_to_set (ancestors_and_self p)) w)).
Proof.
  intros Hp. unfold mkdir_parents.
  rewrite existsb_is_file_false by exact Hp. reflexivity.
Qed.

Lemma elem_of_ancestors (q p : Path) :
  q ∈ ancestors_and_self p <->
  exists n, (1 <= n <= length p)%nat /\ q = take n p.
Proof.
  unfold ancestors_and_self. rewrite list_elem_of_fmap. split.
  - intros (n & -> & Hn). apply elem_of_seq in Hn. exists n. split; [lia|reflexivity].
  - intros (n & Hn & ->). exists n. split; [reflexivity|]. apply elem_of_seq. lia.
Qed.

Lemma self_in_ancestors (p : Path) : p <> [] -> p ∈ ancestors_and_self p.
Proof.
  intros Hp. apply elem_of_ancestors. exists (length p). split.
  - destruct p; [congruence|simpl; lia].
  - symmetry. apply firstn_all.
Qed.

Lemma parent_length (p : Path) :
  p <> [] -> p <> ["/"] -> (length (parent p) < length p)%nat.
Proof.
  intros Hp Hroot. unfold parent.
  rewrite bool_decide_eq_false_2 by exact Hroot.
  rewrite removelast_firstn_len, length_take.
  destruct p; [congruence|simpl; lia].
Qed.

Lemma self_not_in_parent_ancestors (p : Path) :
  p <> [] -> p <> ["/"] -> p ∉ ancestors_and_self (parent p).
Proof.
  intros Hp Hroot Hin. apply elem_of_ancestors in Hin as (n & Hn & Heq).
  pose proof (parent_length p Hp Hroot) as Hlen.
  apply (f_equal length) in Heq. rewrite length_take in Heq. lia.
Qed.

(** After [mkdir_parents], the directory is there. *)
Lemma is_dir_after_mkdir (p : Path) (w : World) :
  is_dir p (log (EvMkdir p)
              (set_dirs (dirs w ∪ list_to_set (ancestors_and_self p)) w)) = true.
Proof.
  unfold is_dir. apply bool_decide_eq_true_2.
  destruct (decide (p = [])) as [->|Hp]; [left; reflexivity|]. right. right.
  cbn [dirs log set_dirs].
  apply elem_of_union_r, elem_of_list_to_set, self_in_ancestors. exact Hp.
Qed.

(** The blob goes to disk once its directory is there. *)
Lemma write_after_mkdir_run (q : Path) (data : bytes) (w : World) :
  let room := (free_space w + length (default [] (files w !! q)))%nat in
  let w1 := log (EvMkdir (parent q))
              (set_dirs (dirs w ∪ list_to_set (ancestors_and_self (parent q))) w) in
  is_dir q w = false ->
  (length data <= room)%nat ->
  write_file q data w1 =
  (Ok tt, log (EvWrite q (length data))
            (set_files (<[q := data]> (files w)) (room - length data) w1)).
Proof.
  intros room w1 Hnodir Hroom.
  assert (Hdir1 : is_dir q w1 = false).
  { unfold is_dir in *. apply bool_decide_eq_false in Hnodir.
    apply bool_decide_eq_false_2. intros [Hnil | [Hroot | Hin]].
    - apply Hnodir. left. exact Hnil.
    - apply Hnodir. right. left. exact Hroot.
    - subst w1. cbn [dirs log set_dirs] in Hin.
      apply elem_of_union in Hin as [Hin | Hin].
      + apply Hnodir. right. right. exact Hin.
      + apply elem_of_list_to_set in Hin.
        apply self_not_in_parent_ancestors in Hin; [exact Hin | |].
        * intros Hnil. apply Hnodir. left. exact Hnil.
        * intros Hroot. apply Hnodir. right. left. exact Hroot. }
  unfold write_file. rewrite Hdir1.
  subst w1. rewrite is_dir_after_mkdir. cbn [negb].
  cbn [files free_space log set_dirs]. fold room.
  apply Nat.leb_le in Hroom. rewrite Hroom. reflexivity.
Qed.

End fs_facts.

(* ------------------------------------------------------------------ *)
(** ** Committing a prepared block *)

Section store_facts.
Import world models Block block_manager.

Lemma get_by_hash_run (h : string) (w : World) :
  get_by_hash h w = (Ok (find (fun b => String.eqb (hash b) h) (blocks w)), w).
Proof. reflexivity. Qed.

(** The miss path when nothing stands in its way. *)
Lemma store_new_block_run (self : BlockManager) (p : prepared.t) (w : World) :
  let full_path := joinpath (blocks_dir self) (prepared.relative_path p) in
  let ct := prepared.encrypted_data p in
  let room := (free_space w + length (default [] (files w !! full_path)))%nat in
  let new := {| id := blocks_seq w + 1; hash := prepared.hash p;
                relative_path := prepared.relative_path p;
                size := prepared.size p; salt := prepared.salt p;
                nonce := prepared.nonce p; reference_count := 1 |} in
  find (fun b => String.eqb (hash b) (prepared.hash p)) (blocks w) = None ->
  db_writable w = true ->
  Forall (fun q => files w !! q = None) (ancestors_and_self (parent full_path)) ->
  is_dir full_path w = false ->
  (length ct <= room)%nat ->
  store_prepared_block self p w =
  (Ok (new, true),
   {| blocks := blocks w ++ [new]; blocks_seq := blocks_seq w + 1;
      db_writable := true;
      dirs := dirs w ∪ list_to_set (ancestors_and_self (parent full_path));
      files := <[full_path := ct]> (files w);
      free_space := room - length ct;
      rng := rng w;
      trace := trace w ++ [EvMkdir (parent full_path)]
                 ++ [EvWrite full_path (length ct)] ++ [EvInsertRow (blocks_seq w + 1)] |}).
Proof.
  intros full_path ct room new Hfind Hdb Hanc Hnodir Hroom.
  unfold store_prepared_block, bind. rewrite get_by_hash_run, Hfind.
  fold full_path. rewrite mkdir_parents_ok by exact Hanc.
  rewrite write_after_mkdir_run by assumption. fold ct. fold room.
  unfold create. cbn [db_writable blocks blocks_seq log set_files set_dirs].
  rewrite Hdb. cbn [negb]. rewrite (find_none_existsb _ _ Hfind).
  unfold log, set_blocks, set_files, set_dirs. cbn. rewrite Hdb.
  rewrite <- !app_assoc. reflexivity.
Qed.

(** C1. store_prepared_block deduplicates by content hash.  When a row
    with the hash of the prepared block exists, the row gains one
    reference, the call returns that block with false, and the disk is
    untouched.  When none exists, the parent directories of the shard
    path are created, the ciphertext is written there, a row with
    reference_count = 1 is inserted, and the call returns the new block
    with true. *)
Theorem C1_store_prepared_block (self : BlockManager) (p : prepared.t) (w : World) :
  let full_path := joinpath (blocks_dir self) (prepared.relative_path p) in
  let ct := prepared.encrypted_data p in
  db_writable w = true ->
  NoDup (map id (blocks w)) ->
  (forall existing,
      get_by_hash (prepared.hash p) w = (Ok (Some existing), w) ->
      exists w',
        store_prepared_block self p w = (Ok (existing, false), w') /\
        find (has_id (id existing)) (blocks w')
          = Some (add_reference 1 existing) /\
        reference_count (add_reference 1 existing) = reference_count existing + 1 /\
        (forall b, id b <> id existing -> (b ∈ blocks w' <-> b ∈ blocks w)) /\
        length (blocks w') = length (blocks w) /\
        files w' = files w /\ dirs w' = dirs w /\ free_space w' = free_space w /\
        trace w' = trace w ++ [EvUpdateRef (id existing) 1]) /\
  (get_by_hash (prepared.hash p) w = (Ok None, w) ->
   Forall (fun q => files w !! q = None) (ancestors_and_self (parent full_path)) ->
   is_dir full_path w = false ->
   (length ct <= free_space w + length (default [] (files w !! full_path)))%nat ->
   exists new w',
     store_prepared_block self p w = (Ok (new, true), w') /\
     new = {| id := blocks_seq w + 1; hash := prepared.hash p;
              relative_path := prepared.relative_path p;
              size := prepared.size p; salt := prepared.salt p;
              nonce := prepared.nonce p; reference_count := 1 |} /\
     blocks w' = blocks w ++ [new] /\
     files w' = <[full_path := ct]> (files w) /\
     is_dir (parent full_path) w' = true /\
     (forall q, q ∈ ancestors_and_self (parent full_path) -> q ∈ dirs w') /\
     trace w' = trace w ++ [EvMkdir (parent full_path); EvWrite full_path (length ct);
                            EvInsertRow (id new)]).
Proof.
  intros full_path ct Hdb Hnd. split.
  - intros existing Hget. rewrite get_by_hash_run in Hget.
    injection Hget as Hfind.
    destruct (find_some_elem _ _ _ Hfind) as [Hin _].
    eexists. split.
    + unfold store_prepared_block, bind. rewrite get_by_hash_run, Hfind.
      unfold increment_reference. rewrite Hdb. reflexivity.
    + cbn [blocks log set_blocks files dirs free_space trace].
      split; [apply find_update_reference; assumption|].
      split; [reflexivity|].
      split; [intros b Hb; apply update_reference_other; exact Hb|].
      split; [apply update_reference_length|].
      repeat split.
  - intros Hget Hanc Hnodir Hroom. rewrite get_by_hash_run in Hget.
    injection Hget as Hfind.
    eexists _, _. split.
    + apply store_new_block_run; assumption.
    + cbn [blocks files dirs trace id].
      split; [reflexivity|]. split; [reflexivity|]. split; [reflexivity|].
      split; [|split; [|reflexivity]].
      * unfold is_dir. apply bool_decide_eq_true_2. cbn [dirs].
        destruct (decide (parent full_path = [])) as [->|Hp]; [left; reflexivity|].
        right. right.
        apply elem_of_union_r, elem_of_list_to_set, self_in_ancestors. exact Hp.
      * intros q Hq. apply elem_of_union_r, elem_of_list_to_set. exact Hq.
Qed.

End store_facts.

Section failed_store_facts.
Import world models Block block_manager.

(** The row insert refused after the blob went to disk. *)
Lemma store_insert_refused_run (self : BlockManager) (p : prepared.t) (w : World) :
  let full_path := joinpath (blocks_dir self) (prepared.relative_path p) in
  let ct := prepared.encrypted_data p in
  let room := (free_space w + length (default [] (files w !! full_path)))%nat in
  find (fun b => String.eqb (hash b) (prepared.hash p)) (blocks w) = None ->
  db_writable w = false ->
  Forall (fun q => files w !! q = None) (ancestors_and_self (parent full_path)) ->
  is_dir full_path w = false ->
  (length ct <= room)%nat ->
  store_prepared_block self p w =
  (Raise OperationalError,
   {| blocks := blocks w; blocks_seq := blocks_seq w;
      db_writable := false;
      dirs := dirs w ∪ list_to_set (ancestors_and_self (parent full_path));
      files := <[full_path := ct]> (files w);
      free_space := room - length ct;
      rng := rng w;
      trace := trace w ++ [EvMkdir (parent full_path)]
                 ++ [EvWrite full_path (length ct)] |}).
Proof.
  intros full_path ct room Hfind Hdb Hanc Hnodir Hroom.
  unfold store_prepared_block, bind. rewrite get_by_hash_run, Hfind.
  fold full_path. rewrite mkdir_parents_ok by exact Hanc.
  rewrite write_after_mkdir_run by assumption. fold ct. fold room.
  unfold create. cbn [db_writable blocks blocks_seq log set_files set_dirs].
  rewrite Hdb. cbn [negb].
  unfold log, set_blocks, set_files, set_dirs. cbn. rewrite Hdb.
  rewrite <- !app_assoc. reflexivity.
Qed.

(** A failed [write_file] leaves every other file alone and, at its
    own path, what was there or what fitted. *)
Lemma write_file_raises (q : Path) (data : bytes) (w w' : World) (e : exn) :
  write_file q data w = (Raise e, w') ->
  blocks w' = blocks w /\ blocks_seq w' = blocks_seq w /\
  (forall q', q' <> q -> files w' !! q' = files w !! q') /\
  (files w' !! q = files w !! q \/ exists n, files w' !! q = Some (take n data)).
Proof.
  unfold write_file.
  destruct (is_dir q w); [intros [= _ <-]; auto|].
  destruct (negb (is_dir (parent q) w)); [intros [= _ <-]; auto|].
  destruct (_ <=? _)%nat; [discriminate|].
  intros [= _ <-]. cbn [blocks blocks_seq files log set_files].
  split; [reflexivity|]. split; [reflexivity|]. split.
  - intros q' Hq'. apply lookup_insert_ne. congruence.
  - right. eexists. apply lookup_insert_eq.
Qed.

Lemma mkdir_parents_files (q : Path) (w w' : World) (r : result unit) :
  mkdir_parents q w = (r, w') ->
  blocks w' = blocks w /\ blocks_seq w' = blocks_seq w /\ files w' = files w /\
  db_writable w' = db_writable w.
Proof.
  unfold mkdir_parents. destruct (existsb _ _); intros [= _ <-]; auto.
Qed.

Lemma write_file_ok (q : Path) (data : bytes) (w w' : World) :
  write_file q data w = (Ok tt, w') ->
  blocks w' = blocks w /\ blocks_seq w' = blocks_seq w /\
  files w' = <[q := data]> (files w) /\ db_writable w' = db_writable w.
Proof.
  unfold write_file.
  destruct (is_dir q w); [discriminate|].
  destruct (negb (is_dir (parent q) w)); [discriminate|].
  destruct (_ <=? _)%nat; [|discriminate].
  intros [= <-]. auto.
Qed.

Lemma create_raises (h rp : string) (sz : Z) (s n : bytes) (w w' : World) (e : exn) :
  create h rp sz s n w = (Raise e, w') -> w' = w.
Proof.
  unfold create. destruct (negb (db_writable w)); [intros [= _ <-]; reflexivity|].
  destruct (existsb _ _); [intros [= _ <-]; reflexivity|discriminate].
Qed.

(** C2, as the code has it.  A failed store_prepared_block has added or
    changed no row of [blocks], and it removes nothing from disk: every
    other file is as before, and the blob path holds what was there or
    the part of the ciphertext written before the failure;
    rollback_temp_blocks changes nothing.  In particular, when the row
    insert is refused after the blob was written in full, the error
    comes out with the whole ciphertext left at the blob path and no row
    for it. *)
Theorem C2_failed_store_keeps_blob (self : BlockManager) (p : prepared.t) (w : World) :
  let full_path := joinpath (blocks_dir self) (prepared.relative_path p) in
  let ct := prepared.encrypted_data p in
  (forall e w',
      store_prepared_block self p w = (Raise e, w') ->
      blocks w' = blocks w /\ blocks_seq w' = blocks_seq w /\
      (forall q, q <> full_path -> files w' !! q = files w !! q) /\
      (files w' !! full_path = files w !! full_path \/
       exists n, files w' !! full_path = Some (take n ct)) /\
      rollback_temp_blocks self w' = (Ok tt, w')) /\
  (get_by_hash (prepared.hash p) w = (Ok None, w) ->
   db_writable w = false ->
   Forall (fun q => files w !! q = None) (ancestors_and_self (parent full_path)) ->
   is_dir full_path w = false ->
   (length ct <= free_space w + length (default [] (files w !! full_path)))%nat ->
   exists w',
     store_prepared_block self p w = (Raise OperationalError, w') /\
     files w' !! full_path = Some ct /\
     blocks w' = blocks w /\
     rollback_temp_blocks self w' = (Ok tt, w')).
Proof.
  intros full_path ct. split.
  - intros e w'. unfold store_prepared_block, bind.
    rewrite get_by_hash_run.
    destruct (find _ (blocks w)) as [existing|] eqn:Hfind.
    + unfold increment_reference. destruct (db_writable w); [discriminate|].
      intros [= _ <-]. repeat split; auto.
    + fold full_path. fold ct.
      destruct (mkdir_parents (parent full_path) w) as [[[]|e1] w1] eqn:Hmk;
        apply mkdir_parents_files in Hmk as (Hb1 & Hs1 & Hf1 & Hd1).
      * destruct (write_file full_path ct w1) as [[[]|e2] w2] eqn:Hwr.
        -- apply write_file_ok in Hwr as (Hb2 & Hs2 & Hf2 & Hd2).
           destruct (create _ _ _ _ _ w2) as [[blk|e3] w3] eqn:Hcr; [discriminate|].
           apply create_raises in Hcr as ->. intros [= _ <-].
           rewrite Hb2, Hb1, Hs2, Hs1, Hf2, Hf1.
           split; [reflexivity|]. split; [reflexivity|]. split.
           ++ intros q Hq. apply lookup_insert_ne. congruence.
           ++ split; [|reflexivity]. right. exists (length ct).
              rewrite lookup_insert_eq, firstn_all. reflexivity.
        -- apply write_file_raises in Hwr as (Hb2 & Hs2 & Hf2 & Hp2).
           intros [= _ <-]. rewrite Hb2, Hb1, Hs2, Hs1.
           split; [reflexivity|]. split; [reflexivity|]. split.
           ++ intros q Hq. rewrite Hf2 by exact Hq. rewrite Hf1. reflexivity.
           ++ split; [|reflexivity]. rewrite <- Hf1. exact Hp2.
      * intros [= _ <-]. rewrite Hb1, Hs1, Hf1. repeat split; auto.
  - intros Hget Hdb Hanc Hnodir Hroom. rewrite get_by_hash_run in Hget.
    injection Hget as Hfind.
    eexists. split; [apply store_insert_refused_run; assumption|].
    cbn [files blocks]. split; [apply lookup_insert_eq|]. split; reflexivity.
Qed.

End failed_store_facts.

Section store_examples.
Import world models Block block_manager examples.

Lemma empty_repo_ready (w : World) :
  files w = ∅ -> dirs w = dirs empty_repo -> free_space w = 1000%nat ->
  Forall (fun q => files w !! q = None) (ancestors_and_self (parent blob)) /\
  is_dir blob w = false /\
  (length (prepared.encrypted_data pb)
     <= free_space w + length (default [] (files w !! blob)))%nat.
Proof.
  intros Hf Hd Hs. rewrite Hf, Hs. split; [|split].
  - apply Forall_forall. intros q _. apply lookup_empty.
  - unfold is_dir. rewrite Hd. apply bool_decide_eq_false_2.
    intros [Hq | [Hq | Hq]]; [discriminate Hq | discriminate Hq |].
    revert Hq. vm_compute. intros Hq. discriminate Hq.
  - rewrite lookup_empty. simpl. lia.
Qed.

Lemma C1_store_prepared_block_witness :
  (exists w',
     store_prepared_block bm pb one_block_repo = (Ok (row, false), w') /\
     find (has_id 1) (blocks w') = Some (add_reference 1 row) /\
     files w' = files one_block_repo) /\
  (exists new w',
     store_prepared_block bm pb empty_repo = (Ok (new, true), w') /\
     reference_count new = 1 /\
     files w' = <[blob := [x0a; x0b; x0c]]> ∅).
Proof.
  split.
  - destruct (C1_store_prepared_block bm pb one_block_repo) as [Hhit _].
    + reflexivity.
    + simpl. apply NoDup_cons. split; [apply not_elem_of_nil | apply NoDup_nil; exact I].
    + destruct (Hhit row) as (w' & Hrun & Hfind & _ & _ & _ & Hfiles & _);
        [reflexivity|].
      exists w'. split; [exact Hrun|]. split; [exact Hfind | exact Hfiles].
  - destruct (C1_store_prepared_block bm pb empty_repo) as [_ Hmiss].
    + reflexivity.
    + simpl. apply NoDup_nil. exact I.
    + destruct (empty_repo_ready empty_repo) as (Ha & Hd & Hr); try reflexivity.
      destruct (Hmiss eq_refl Ha Hd Hr) as (new & w' & Hrun & Hnew & _ & Hfiles & _).
      exists new, w'. split; [exact Hrun|]. split; [|exact Hfiles].
      rewrite Hnew. reflexivity.
Defined.

Lemma C2_orphan_blob_counterexample :
  ~ (forall e w',
       store_prepared_block bm pb read_only_repo = (Raise e, w') ->
       blocks w' = blocks read_only_repo /\
       files w' !! blob = files read_only_repo !! blob).
Proof.
  intros Hclaim.
  destruct (empty_repo_ready read_only_repo) as (Ha & Hd & Hr); try reflexivity.
  pose proof (store_insert_refused_run bm pb read_only_repo eq_refl eq_refl Ha Hd Hr)
    as Hrun.
  apply Hclaim in Hrun as [_ Hblob]. cbn [files] in Hblob.
  change (joinpath (blocks_dir bm) (prepared.relative_path pb)) with blob in Hblob.
  rewrite lookup_insert_eq in Hblob.
  change (files read_only_repo) with (∅ : gmap Path bytes) in Hblob.
  rewrite lookup_empty in Hblob. discriminate Hblob.
Qed.

Lemma C2_failed_store_keeps_blob_witness :
  exists w',
    store_prepared_block bm pb read_only_repo = (Raise OperationalError, w') /\
    files w' !! blob = Some [x0a; x0b; x0c] /\
    blocks w' = [] /\
    rollback_temp_blocks bm w' = (Ok tt, w').
Proof.
  destruct (C2_failed_store_keeps_blob bm pb read_only_repo) as [_ Hrefused].
  destruct (empty_repo_ready read_only_repo) as (Ha & Hd & Hr); try reflexivity.
  destruct (Hrefused eq_refl eq_refl Ha Hd Hr) as (w' & Hrun & Hblob & Hrows & Hrb).
  exists w'. split; [exact Hrun|]. split; [exact Hblob|]. split; [exact Hrows | exact Hrb].
Defined.

End store_examples.

(* ------------------------------------------------------------------ *)
(** ** Releasing a block *)

Section delete_facts.
Import world models Block block_manager.

Lemma decrement_reference_run (b : Block) (w : World) :
  db_writable w = true -> NoDup (map id (blocks w)) -> b ∈ blocks w ->
  decrement_reference b w =
  (Ok (reference_count b - 1 =? 0)%Z,
   log (EvUpdateRef (id b) (-1))
     (set_blocks (update_reference (id b) (-1) (blocks w)) (blocks_seq w) w)).
Proof.
  intros Hdb Hnd Hin. unfold decrement_reference. rewrite Hdb.
  rewrite find_update_reference by assumption. reflexivity.
Qed.

Lemma filter_update_reference (rows : list Block) (i d : Z) :
  filter (fun b => has_id i b = false) (update_reference i d rows)
  = filter (fun b => has_id i b = false) rows.
Proof.
  induction rows as [|r rows IH]; [reflexivity|].
  cbn [update_reference map]. fold (update_reference i d rows).
  destruct (has_id i r) eqn:Hr.
  - rewrite !filter_cons_False; [exact IH | | ].
    + rewrite Hr. discriminate.
    + rewrite has_id_add_reference, Hr. discriminate.
  - rewrite !filter_cons_True by exact Hr. rewrite IH. reflexivity.
Qed.

(** The last reference released. *)
Lemma delete_last_reference_run (self : BlockManager) (block : Block) (w : World) :
  let full_path := joinpath (blocks_dir self) (relative_path block) in
  let w1 := log (EvUpdateRef (id block) (-1))
              (set_blocks (update_reference (id block) (-1) (blocks w))
                 (blocks_seq w) w) in
  let w2 := match files w !! full_path with
            | Some data =>
                log (EvUnlink full_path)
                  (set_files (base.delete full_path (files w))
                     (free_space w + length data) w1)
            | None => w1
            end in
  db_writable w = true ->
  NoDup (map id (blocks w)) ->
  block ∈ blocks w ->
  is_dir full_path w = false ->
  reference_count block = 1 ->
  delete_block self block w =
  (Ok true,
   log (EvDeleteRow (id block))
     (set_blocks (filter (fun b => has_id (id block) b = false) (blocks w2))
        (blocks_seq w2) w2)).
Proof.
  intros full_path w1 w2 Hdb Hnd Hin Hnodir Hone.
  unfold delete_block, bind.
  rewrite decrement_reference_run by assumption.
  rewrite Hone. change (1 - 1 =? 0)%Z with true. cbv beta iota.
  unfold delete_block_file. cbv beta zeta. fold full_path. fold w1.
  assert (Hex : path_exists full_path w1 = is_file full_path w).
  { unfold path_exists. change (is_dir full_path w1) with (is_dir full_path w).
    rewrite Hnodir, orb_false_r. reflexivity. }
  rewrite Hex. unfold is_file. subst w2.
  destruct (files w !! full_path) as [data|] eqn:Hblob.
  - rewrite bool_decide_eq_true_2 by eauto.
    unfold bind, unlink. change (files w1) with (files w). rewrite Hblob.
    unfold Block.delete, ret. subst w1. cbv beta iota.
    cbn [db_writable log set_files set_blocks]. rewrite Hdb. reflexivity.
  - rewrite bool_decide_eq_false_2 by (intros [x Hx]; discriminate Hx).
    unfold Block.delete, ret. subst w1. cbv beta iota.
    cbn [db_writable log set_blocks]. rewrite Hdb. reflexivity.
Qed.

(** C3, as the code has it.  delete_block takes one reference off the
    row of the block.  When the count reaches zero it removes the blob
    file, if there is one, and after that deletes the row, and returns
    true; when the count stays above zero it does nothing further and
    returns false. *)
Theorem C3_delete_block (self : BlockManager) (block : Block) (w : World) :
  let full_path := joinpath (blocks_dir self) (relative_path block) in
  db_writable w = true ->
  NoDup (map id (blocks w)) ->
  block ∈ blocks w ->
  is_dir full_path w = false ->
  (reference_count block = 1 ->
   exists w',
     delete_block self block w = (Ok true, w') /\
     (forall b, b ∈ blocks w' <-> b ∈ blocks w /\ id b <> id block) /\
     files w' = base.delete full_path (files w) /\
     trace w' = trace w ++ [EvUpdateRef (id block) (-1)]
                  ++ (if is_file full_path w then [EvUnlink full_path] else [])
                  ++ [EvDeleteRow (id block)]) /\
  (reference_count block <> 1 ->
   exists w',
     delete_block self block w = (Ok false, w') /\
     find (has_id (id block)) (blocks w') = Some (add_reference (-1) block) /\
     (forall b, id b <> id block -> (b ∈ blocks w' <-> b ∈ blocks w)) /\
     length (blocks w') = length (blocks w) /\
     files w' = files w /\ dirs w' = dirs w /\
     trace w' = trace w ++ [EvUpdateRef (id block) (-1)]).
Proof.
  intros full_path Hdb Hnd Hin Hnodir. split.
  - intros Hone. eexists. split;
      [apply delete_last_reference_run; assumption|].
    fold full_path. unfold is_file.
    destruct (files w !! full_path) as [data|] eqn:Hblob;
      cbn [blocks files trace blocks_seq log set_blocks set_files].
    + split; [|split].
      * intros b. rewrite filter_update_reference, list_elem_of_filter.
        unfold has_id. destruct (Z.eqb_spec (id b) (id block)); split;
          intros [? ?]; split; congruence.
      * reflexivity.
      * rewrite bool_decide_eq_true_2 by eauto. rewrite <- !app_assoc. reflexivity.
    + split; [|split].
      * intros b. rewrite filter_update_reference, list_elem_of_filter.
        unfold has_id. destruct (Z.eqb_spec (id b) (id block)); split;
          intros [? ?]; split; congruence.
      * symmetry. apply delete_id. exact Hblob.
      * rewrite bool_decide_eq_false_2 by (intros [x Hx]; discriminate Hx).
        rewrite <- !app_assoc. reflexivity.
  - intros Hmore. eexists. split.
    + unfold delete_block, bind.
      rewrite decrement_reference_run by assumption.
      destruct (Z.eqb_spec (reference_count block - 1) 0) as [Hz|_]; [lia|].
      reflexivity.
    + cbn [blocks files dirs trace log set_blocks].
      split; [apply find_update_reference; assumption|].
      split; [intros b Hb; apply update_reference_other; exact Hb|].
      split; [apply update_reference_length|]. repeat split.
Qed.

End delete_facts.

Section delete_examples.
Import world models Block block_manager examples.

Lemma one_block_repo_ready :
  db_writable one_block_repo = true /\
  NoDup (map id (blocks one_block_repo)) /\
  row ∈ blocks one_block_repo /\
  is_dir blob one_block_repo = false.
Proof.
  split; [reflexivity|]. split; [|split].
  - simpl. apply NoDup_cons. split; [apply not_elem_of_nil | apply NoDup_nil; exact I].
  - left.
  - unfold is_dir. apply bool_decide_eq_false_2.
    intros [Hq | [Hq | Hq]]; [discriminate Hq | discriminate Hq |].
    revert Hq. vm_compute. intros Hq. discriminate Hq.
Qed.

(** The claim has the row deleted before the blob; on the sample
    repository the blob goes first. *)
Lemma C3_row_before_blob_counterexample :
  ~ (exists w',
       delete_block bm row one_block_repo = (Ok true, w') /\
       happens_before (EvDeleteRow 1) (EvUnlink blob) (trace w') = true).
Proof.
  intros (w' & Hrun & Horder).
  destruct one_block_repo_ready as (Hdb & Hnd & Hin & Hnodir).
  rewrite (delete_last_reference_run bm row one_block_repo Hdb Hnd Hin Hnodir eq_refl)
    in Hrun.
  injection Hrun as <-. revert Horder. vm_compute. discriminate.
Qed.

Lemma C3_delete_block_witness :
  exists w',
    delete_block bm row one_block_repo = (Ok true, w') /\
    files w' = base.delete blob (files one_block_repo) /\
    trace w' = [EvUpdateRef 1 (-1); EvUnlink blob; EvDeleteRow 1].
Proof.
  destruct one_block_repo_ready as (Hdb & Hnd & Hin & Hnodir).
  destruct (C3_delete_block bm row one_block_repo Hdb Hnd Hin Hnodir) as [Hlast _].
  destruct (Hlast eq_refl) as (w' & Hrun & _ & Hfiles & Htrace).
  exists w'. split; [exact Hrun|]. split; [exact Hfiles|].
  rewrite Htrace. reflexivity.
Defined.

End delete_examples.

(* ------------------------------------------------------------------ *)
(** ** Reading a block *)

Section retrieve_facts.
Context `{crypto.Sodium}.
Import world models Block block_manager.

(** Opening a box with the key and nonce that sealed it gives the
    plaintext back. *)
Hypothesis decrypt_encrypt : forall k n m,
  crypto.secretbox_decrypt k n (crypto.secretbox_encrypt k n m) = Some m.

(** What a successful commit of a new block leaves behind. *)
Lemma store_new_block_inv (self : BlockManager) (p : prepared.t)
    (w w' : World) (blk : Block) :
  store_prepared_block self p w = (Ok (blk, true), w') ->
  relative_path blk = prepared.relative_path p /\
  salt blk = prepared.salt p /\ nonce blk = prepared.nonce p /\
  reference_count blk = 1 /\
  files w' !! joinpath (blocks_dir self) (prepared.relative_path p)
    = Some (prepared.encrypted_data p).
Proof.
  unfold store_prepared_block, bind. rewrite get_by_hash_run.
  destruct (find _ (blocks w)) as [existing|].
  - destruct (increment_reference existing w) as [[[]|e] w1]; discriminate.
  - destruct (mkdir_parents _ w) as [[[]|e1] w1]; [|discriminate].
    destruct (write_file _ _ w1) as [[[]|e2] w2] eqn:Hwr; [|discriminate].
    apply write_file_ok in Hwr as (_ & _ & Hf2 & _).
    unfold create.
    destruct (negb (db_writable w2)); [discriminate|].
    destruct (existsb _ (blocks w2)); [discriminate|].
    intros [= <- <-]. cbn [relative_path salt nonce reference_count files log set_blocks].
    rewrite Hf2, lookup_insert_eq. auto.
Qed.

(** C7. retrieve_block_data fails with FileNotFoundError when nothing
    exists at the blob path, giving no data at all; with the blob on
    disk it fails with CryptoError exactly when the box does not open
    under the derived key and the nonce of the row, and otherwise
    returns what the box holds, which for a block committed by
    store_block is the plaintext chunk that was stored. *)
Theorem C7_retrieve_block_data (self : BlockManager) (block : Block) (w : World) :
  let full_path := joinpath (blocks_dir self) (relative_path block) in
  let file_key := crypto.derive_file_key (master_key self) (salt block) in
  (path_exists full_path w = false ->
   retrieve_block_data self block w = (Raise FileNotFoundError, w)) /\
  (forall ct,
      files w !! full_path = Some ct ->
      (retrieve_block_data self block w = (Raise CryptoError, w) <->
       crypto.secretbox_decrypt file_key (nonce block) ct = None) /\
      (forall data,
          crypto.secretbox_decrypt file_key (nonce block) ct = Some data ->
          retrieve_block_data self block w = (Ok data, w))) /\
  (forall data w0,
      store_block self data w0 = (Ok (block, true), w) ->
      retrieve_block_data self block w = (Ok data, w)).
Proof.
  intros full_path file_key.
  assert (Hread : forall ct, files w !! full_path = Some ct ->
            retrieve_block_data self block w =
            (crypto.decrypt_block ct file_key (nonce block), w)).
  { intros ct Hct. unfold retrieve_block_data. fold full_path.
    unfold path_exists, is_file. rewrite Hct.
    rewrite bool_decide_eq_true_2 by eauto. cbn [orb negb].
    unfold read_file. rewrite Hct. reflexivity. }
  split; [|split].
  - intros Habsent. unfold retrieve_block_data. fold full_path.
    rewrite Habsent. reflexivity.
  - intros ct Hct. rewrite (Hread ct Hct). unfold crypto.decrypt_block.
    destruct (crypto.secretbox_decrypt file_key (nonce block) ct) as [data|].
    + split; [split; intros Hx; discriminate Hx|].
      intros data' [= ->]. reflexivity.
    + split; [split; reflexivity|]. intros data' Hx. discriminate Hx.
  - intros data w0 Hstore. unfold store_block, bind in Hstore.
    destruct (prepare_block self data w0) as [[p|e] w1] eqn:Hprep;
      [|discriminate].
    assert (Hp : prepared.salt p = draw (rng w0) 0 16 /\
                 prepared.nonce p = draw (rng w0) 16 24 /\
                 prepared.encrypted_data p =
                   crypto.secretbox_encrypt
                     (crypto.derive_file_key (master_key self) (draw (rng w0) 0 16))
                     (draw (rng w0) 16 24) data).
    { injection Hprep as <- _. repeat split. }
    destruct Hp as (Hsalt & Hnonce & Hct).
    apply store_new_block_inv in Hstore as (Hrp & Hs & Hn & _ & Hfile).
    rewrite <- Hrp in Hfile. fold full_path in Hfile.
    rewrite (Hread _ Hfile). unfold crypto.decrypt_block.
    subst file_key. rewrite Hs, Hn, Hsalt, Hnonce, Hct, decrypt_encrypt.
    reflexivity.
Qed.

End retrieve_facts.

Section retrieve_examples.
Import reference_sodium world models Block block_manager examples.

Lemma C7_retrieve_block_data_witness :
  retrieve_block_data bm row empty_repo = (Raise FileNotFoundError, empty_repo) /\
  exists block w,
    store_block bm [x68; x69] empty_repo = (Ok (block, true), w) /\
    retrieve_block_data bm block w = (Ok [x68; x69], w).
Proof.
  split.
  - destruct (C7_retrieve_block_data reference_decrypt_encrypt bm row empty_repo)
      as (Habsent & _ & _).
    apply Habsent. vm_compute. reflexivity.
  - remember (store_block bm [x68; x69] empty_repo) as res eqn:Hstore.
    assert (Hnew : match res with (Ok (_, true), _) => True | _ => False end)
      by (rewrite Hstore; vm_compute; exact I).
    destruct res as [[[block [|]]|e] w]; try contradiction.
    exists block, w. split; [reflexivity|].
    destruct (C7_retrieve_block_data reference_decrypt_encrypt bm block w)
      as (_ & _ & Hround).
    apply (Hround _ empty_repo). symmetry. exact Hstore.
Defined.

End retrieve_examples.

(* ------------------------------------------------------------------ *)
(** ** Nested transactions *)

Section transaction_facts.
Import sqlite3 database.

Lemma on_exception_depth (conn : Connection) (e : exn) (s : RepositoryDatabase) :
  _transaction_depth (on_exception conn e s) = _transaction_depth s.
Proof.
  unfold on_exception. destruct (is_Exception e); [|reflexivity].
  destruct (_ =? 1)%Z; [|reflexivity].
  destruct (same_connection conn s) as [c|]; [|reflexivity].
  destruct (rollback c); reflexivity.
Qed.

Lemma on_exception_inner (conn : Connection) (e : exn) (s : RepositoryDatabase) :
  _transaction_depth s <> 1%Z -> on_exception conn e s = s.
Proof.
  intros Hd. unfold on_exception. destruct (is_Exception e); [|reflexivity].
  destruct (Z.eqb_spec (_transaction_depth s) 1); [contradiction|reflexivity].
Qed.

(** The exit of a context that is not the outermost one only counts
    the depth down. *)
Lemma transaction_inner {A : Type} (body : M RepositoryDatabase A)
    (self : RepositoryDatabase) (conn : Connection) :
  restores_depth body ->
  _connection self = Some conn ->
  _transaction_depth self <> 0%Z ->
  transaction body self =
  (fst (body (with_depth (_transaction_depth self + 1) self)),
   with_depth (_transaction_depth self)
     (snd (body (with_depth (_transaction_depth self + 1) self)))).
Proof.
  intros Hbody Hconn Hd. unfold transaction. rewrite Hconn.
  pose proof (Hbody (with_depth (_transaction_depth self + 1) self)) as Hd2.
  destruct (body (with_depth (_transaction_depth self + 1) self)) as [r s2].
  cbn [fst snd _transaction_depth with_depth] in *.
  destruct r as [a|e].
  - destruct (Z.eqb_spec (_transaction_depth s2) 1) as [Heq|_]; [lia|].
    rewrite Hd2. f_equal. f_equal. lia.
  - rewrite on_exception_inner by lia.
    rewrite Hd2. f_equal. f_equal. lia.
Qed.

(** The exit of the outermost context commits, or rolls back on an
    exception. *)
Lemma transaction_outermost {A : Type} (body : M RepositoryDatabase A)
    (self : RepositoryDatabase) (conn : Connection) :
  restores_depth body -> keeps_connection body ->
  _connection self = Some conn -> closed conn = false ->
  _transaction_depth self = 0%Z ->
  exists c2,
    _connection (snd (body (with_depth 1 self))) = Some c2 /\
    conn_id c2 = conn_id conn /\ closed c2 = false /\
    transaction body self =
    (fst (body (with_depth 1 self)),
     with_depth 0
       (with_connection
          (Some (match fst (body (with_depth 1 self)) with
                 | Ok _ =>
                     {| conn_id := conn_id c2;
                        committed := committed c2 ++ pending c2;
                        pending := []; closed := false;
                        history := history c2 ++ [Commit] |}
                 | Raise e =>
                     if is_Exception e then
                       {| conn_id := conn_id c2; committed := committed c2;
                          pending := []; closed := false;
                          history := history c2 ++ [Rollback] |}
                     else c2
                 end))
          (snd (body (with_depth 1 self))))).
Proof.
  intros Hbody Hkeep Hconn Hopen Hd.
  destruct (Hkeep (with_depth 1 self) conn Hconn Hopen) as (c2 & Hc2 & Hid & Hopen2).
  exists c2. split; [exact Hc2|]. split; [exact Hid|]. split; [exact Hopen2|].
  unfold transaction. rewrite Hconn, Hd. change (0 + 1)%Z with 1%Z.
  pose proof (Hbody (with_depth 1 self)) as Hd2.
  destruct (body (with_depth 1 self)) as [r s2].
  cbn [fst snd _transaction_depth with_depth] in *.
  assert (Hsame : same_connection conn s2 = Some c2).
  { unfold same_connection. rewrite Hc2, Hid, Nat.eqb_refl. reflexivity. }
  destruct r as [a|e].
  - rewrite Hd2. cbn [Z.eqb Pos.eqb]. rewrite Hsame.
    unfold commit. rewrite Hopen2.
    cbn [_transaction_depth with_connection]. rewrite Hd2. reflexivity.
  - unfold on_exception. rewrite Hd2. cbn [Z.eqb Pos.eqb]. rewrite Hsame.
    destruct (is_Exception e).
    + unfold rollback. rewrite Hopen2.
      cbn [_transaction_depth with_connection]. rewrite Hd2. reflexivity.
    + rewrite Hd2. destruct s2; simpl in *. subst. reflexivity.
Qed.

Lemma transaction_restores_depth {A : Type} (body : M RepositoryDatabase A) :
  restores_depth body -> restores_depth (transaction body).
Proof.
  intros Hbody s. unfold transaction.
  destruct (_connection s) as [conn|]; [|apply Hbody].
  pose proof (Hbody (with_depth (_transaction_depth s + 1) s)) as Hd2.
  destruct (body (with_depth (_transaction_depth s + 1) s)) as [r s2].
  cbn [snd _transaction_depth with_depth] in Hd2.
  destruct r as [a|e].
  - destruct (_ =? 1)%Z; [|cbn; lia].
    destruct (same_connection conn s2) as [c|]; [|cbn; lia].
    destruct (commit c) as [c'|e]; cbn; [lia|].
    rewrite on_exception_depth. lia.
  - cbn. rewrite on_exception_depth. lia.
Qed.

Lemma same_connection_some (conn c : Connection) (s : RepositoryDatabase) :
  same_connection conn s = Some c -> _connection s = Some c.
Proof.
  unfold same_connection. destruct (_connection s) as [c0|]; [|discriminate].
  destruct (Nat.eqb _ _); [|discriminate]. intros [= ->]. reflexivity.
Qed.

Lemma on_exception_keeps (conn : Connection) (e : exn) (s : RepositoryDatabase)
    (c : Connection) :
  _connection s = Some c -> closed c = false ->
  exists c', _connection (on_exception conn e s) = Some c' /\
             conn_id c' = conn_id c /\ closed c' = false.
Proof.
  intros Hc Hopen. unfold on_exception.
  destruct (is_Exception e); [|eauto].
  destruct (_ =? 1)%Z; [|eauto].
  destruct (same_connection conn s) as [c0|] eqn:Hsame; [|eauto].
  apply same_connection_some in Hsame. rewrite Hc in Hsame. injection Hsame as <-.
  unfold rollback. rewrite Hopen. cbn. eauto.
Qed.

Lemma transaction_keeps_connection {A : Type} (body : M RepositoryDatabase A) :
  keeps_connection body -> keeps_connection (transaction body).
Proof.
  intros Hkeep s c Hc Hopen. unfold transaction. rewrite Hc.
  destruct (Hkeep (with_depth (_transaction_depth s + 1) s) c Hc Hopen)
    as (c2 & Hc2 & Hid & Hopen2).
  destruct (body (with_depth (_transaction_depth s + 1) s)) as [r s2].
  cbn [snd] in Hc2.
  assert (Hexc : forall e, exists c',
             _connection (on_exception c e s2) = Some c' /\
             conn_id c' = conn_id c /\ closed c' = false).
  { intros e. destruct (on_exception_keeps c e s2 c2 Hc2 Hopen2) as (c' & ? & ? & ?).
    exists c'. repeat split; congruence. }
  destruct r as [a|e]; [|cbn; apply Hexc].
  destruct (_ =? 1)%Z; [|cbn; eauto].
  destruct (same_connection c s2) as [c0|] eqn:Hsame; [|cbn; eauto].
  apply same_connection_some in Hsame. rewrite Hc2 in Hsame. injection Hsame as <-.
  unfold commit. rewrite Hopen2. cbn. eauto.
Qed.

Lemma transaction_quiet_inside {A : Type} (body : M RepositoryDatabase A) :
  restores_depth body -> quiet_inside body -> quiet_inside (transaction body).
Proof.
  intros Hbody Hquiet s c Hc Hd.
  rewrite (transaction_inner body s c Hbody Hc) by lia. cbn [snd _connection with_depth].
  apply (Hquiet (with_depth (_transaction_depth s + 1) s) c Hc).
  cbn. lia.
Qed.

Lemma nested_well_behaved {A : Type} (body : M RepositoryDatabase A) (n : nat) :
  restores_depth body -> keeps_connection body -> quiet_inside body ->
  restores_depth (nested n body) /\ keeps_connection (nested n body) /\
  quiet_inside (nested n body).
Proof.
  intros Hd Hk Hq. induction n as [|n (IHd & IHk & IHq)]; [auto|].
  change (nested (S n) body) with (transaction (nested n body)).
  split; [apply transaction_restores_depth, IHd|].
  split; [apply transaction_keeps_connection, IHk|].
  apply transaction_quiet_inside; assumption.
Qed.

(** C9. For code that leaves the depth counter and the connection as it
    found them and does not commit on its own, wrapped in any number of
    transaction contexts on one repository database: every exit brings
    the depth counter back to its value before the entry, whether the
    body returned or raised; an exit that is not the outermost one
    changes nothing but the counter, so it neither commits nor rolls
    back; and the outermost exit commits once when the body returned,
    and rolls back once when it raised an exception. *)
Theorem C9_nested_transactions {A : Type} (body : M RepositoryDatabase A) :
  restores_depth body -> keeps_connection body -> quiet_inside body ->
  (forall n, restores_depth (nested n body)) /\
  (forall n self conn,
      _connection self = Some conn -> _transaction_depth self <> 0%Z ->
      let inner := nested n body (with_depth (_transaction_depth self + 1) self) in
      nested (S n) body self
        = (fst inner, with_depth (_transaction_depth self) (snd inner))) /\
  (forall n self conn,
      _connection self = Some conn -> (1 <= _transaction_depth self)%Z ->
      exists c', _connection (snd (nested (S n) body self)) = Some c' /\
                 history c' = history conn /\ committed c' = committed conn) /\
  (forall n self conn,
      _connection self = Some conn -> closed conn = false ->
      _transaction_depth self = 0%Z ->
      exists c',
        _connection (snd (nested (S n) body self)) = Some c' /\
        conn_id c' = conn_id conn /\
        _transaction_depth (snd (nested (S n) body self)) = 0%Z /\
        match fst (nested (S n) body self) with
        | Ok _ =>
            history c' = history conn ++ [Commit] /\ pending c' = []
        | Raise e =>
            if is_Exception e
            then history c' = history conn ++ [Rollback] /\
                 pending c' = [] /\ committed c' = committed conn
            else history c' = history conn /\ committed c' = committed conn
        end).
Proof.
  intros Hd Hk Hq.
  assert (Hwb := fun n => nested_well_behaved body n Hd Hk Hq).
  split; [intros n; apply Hwb|]. split; [|split].
  - intros n self conn Hc Hdepth inner.
    change (nested (S n) body) with (transaction (nested n body)).
    apply (transaction_inner _ self conn); [apply Hwb | exact Hc | exact Hdepth].
  - intros n self conn Hc Hdepth.
    destruct (Hwb (S n)) as (_ & _ & Hquiet). apply Hquiet; assumption.
  - intros n self conn Hc Hopen Hdepth.
    change (nested (S n) body) with (transaction (nested n body)).
    destruct (Hwb n) as (Hnd & Hnk & Hnq).
    destruct (transaction_outermost _ self conn Hnd Hnk Hc Hopen Hdepth)
      as (c2 & Hc2 & Hid & Hopen2 & Hrun).
    destruct (Hnq (with_depth 1 self) conn Hc) as (c2' & Hc2' & Hhist & Hcomm);
      [cbn; lia|].
    rewrite Hc2 in Hc2'. injection Hc2' as <-.
    rewrite Hrun. cbn [fst snd _connection _transaction_depth with_depth with_connection].
    eexists. split; [reflexivity|].
    destruct (fst (nested n body (with_depth 1 self))) as [a|e].
    + cbn. rewrite Hhist. auto.
    + destruct (is_Exception e); cbn; rewrite ?Hhist, ?Hcomm; auto.
Qed.

End transaction_facts.

Section transaction_examples.
Import sqlite3 database.

Lemma execute_restores_depth (q : string) : restores_depth (execute q).
Proof.
  intros s. unfold execute. destruct (_connection s) as [c|]; [|reflexivity].
  destruct (sqlite3.execute q c); reflexivity.
Qed.

Lemma execute_keeps_connection (q : string) : keeps_connection (execute q).
Proof.
  intros s c Hc Hopen. unfold execute, sqlite3.execute. rewrite Hc, Hopen.
  cbn. eauto.
Qed.

Lemma execute_quiet_inside (q : string) : quiet_inside (execute q).
Proof.
  intros s c Hc _. unfold execute, sqlite3.execute. rewrite Hc.
  destruct (closed c); cbn; eauto.
Qed.

Lemma C9_nested_transactions_witness :
  let conn := new_connection 7 ["CREATE TABLE blocks"] in
  let db := {| _repo_path := "/repo"; _connection := Some conn;
               _transaction_depth := 0 |} in
  exists c',
    _connection (snd (nested 3 (execute "INSERT INTO blocks") db)) = Some c' /\
    history c' = [Commit] /\ pending c' = [] /\
    _transaction_depth (snd (nested 3 (execute "INSERT INTO blocks") db)) = 0%Z.
Proof.
  intros conn db.
  destruct (C9_nested_transactions (execute "INSERT INTO blocks")
              (execute_restores_depth _) (execute_keeps_connection _)
              (execute_quiet_inside _)) as (_ & _ & _ & Houter).
  destruct (Houter 2%nat db conn eq_refl eq_refl eq_refl)
    as (c' & Hc & _ & Hdepth & Hhist).
  exists c'. split; [exact Hc|].
  change (fst (nested 3 (execute "INSERT INTO blocks") db)) with (Ok tt : result unit)
    in Hhist.
  destruct Hhist as [Hh Hp]. split; [exact Hh|]. split; [exact Hp | exact Hdepth].
Defined.

(** Three contexts around one statement: one commit, at the end. *)
Example nested_commits_once :
  nested 3 (execute "INSERT INTO blocks")
    {| _repo_path := "/repo";
       _connection := Some (new_connection 7 ["CREATE TABLE blocks"]);
       _transaction_depth := 0 |}
  = (Ok tt,
     {| _repo_path := "/repo";
        _connection :=
          Some {| conn_id := 7;
                  committed := ["CREATE TABLE blocks"; "INSERT INTO blocks"];
                  pending := []; closed := false; history := [Commit] |};
        _transaction_depth := 0 |}).
Proof. reflexivity. Qed.

(** A statement followed by an exception, inside two contexts: one
    rollback, at the end, and nothing made durable. *)
Example nested_rolls_back_once :
  nested 2 (do! execute "INSERT INTO blocks" in raise RuntimeError)%py
    {| _repo_path := "/repo";
       _connection := Some (new_connection 7 ["CREATE TABLE blocks"]);
       _transaction_depth := 0 |}
  = (Raise RuntimeError : result unit,
     {| _repo_path := "/repo";
        _connection :=
          Some {| conn_id := 7; committed := ["CREATE TABLE blocks"];
                  pending := []; closed := false; history := [Rollback] |};
        _transaction_depth := 0 |}).
Proof. reflexivity. Qed.

(** An exception caught between two contexts: the inner exit leaves
    the pending statement alone and the outer exit commits it. *)
Example inner_exit_does_not_roll_back :
  transaction
    (fun s => match transaction
                      (do! execute "INSERT INTO blocks" in
                       (raise RuntimeError : M RepositoryDatabase unit))%py s
              with
              | (_, s') => (Ok tt, s')
              end)
    {| _repo_path := "/repo";
       _connection := Some (new_connection 7 []);
       _transaction_depth := 0 |}
  = (Ok tt,
     {| _repo_path := "/repo";
        _connection :=
          Some {| conn_id := 7; committed := ["INSERT INTO blocks"];
                  pending := []; closed := false; history := [Commit] |};
        _transaction_depth := 0 |}).
Proof. reflexivity. Qed.

End transaction_examples.

(* ------------------------------------------------------------------ *)
(** ** Switching the repository database *)

Section switch_facts.
Import sqlite3 database.

(** C8. When get_repository_database is asked for a repository other
    than the current one and opening its database fails, the call
    raises and the module globals are as before: the same database
    object with its connection, the same current path, and no
    connection closed.  Only when the new connection is established is
    the previous one closed and the globals replaced by the new
    database and its normalised path. *)
Theorem C8_switch_repository (host : Host) (repo_path : string) (p : Process) :
  let norm_path := default repo_path (resolve host repo_path) in
  _current_repo_path (globals p) <> Some norm_path ->
  (forall e p',
      get_repository_database host (Some repo_path) p = (Raise e, p') ->
      globals p' = globals p /\ closed_conns p' = closed_conns p) /\
  ((forall stored, try_open host repo_path <> Opens stored) ->
   exists e p',
     get_repository_database host (Some repo_path) p = (Raise e, p') /\
     _repo_db (globals p') = _repo_db (globals p) /\
     _current_repo_path (globals p') = _current_repo_path (globals p) /\
     closed_conns p' = closed_conns p) /\
  (forall stored,
      try_open host repo_path = Opens stored ->
      exists new_db p',
        get_repository_database host (Some repo_path) p = (Ok (Some new_db), p') /\
        new_db = {| _repo_path := repo_path;
                    _connection := Some (new_connection (next_conn_id p) stored);
                    _transaction_depth := 0 |} /\
        globals p' = {| _repo_db := Some new_db;
                        _current_repo_path := Some norm_path |} /\
        closed_conns p' =
          closed_conns p ++
          match _repo_db (globals p) with
          | Some old => match _connection old with
                        | Some c => [conn_id c]
                        | None => []
                        end
          | None => []
          end).
Proof.
  intros norm_path Hswitch.
  assert (Hcase2 :
            match _repo_db (globals p) with
            | Some db => if bool_decide (_current_repo_path (globals p) = Some norm_path)
                         then Some db else None
            | None => None
            end = None).
  { destruct (_repo_db (globals p)); [|reflexivity].
    rewrite bool_decide_eq_false_2 by exact Hswitch. reflexivity. }
  split; [|split].
  - intros e p'. unfold get_repository_database. fold norm_path. rewrite Hcase2.
    unfold connect, __init__. cbn [_repo_path].
    destruct (try_open host repo_path); intros Hrun; try discriminate Hrun;
      injection Hrun as _ <-; split; reflexivity.
  - intros Hfail. unfold get_repository_database. fold norm_path. rewrite Hcase2.
    unfold connect, __init__. cbn [_repo_path].
    destruct (try_open host repo_path) as [stored| | | |] eqn:Hopen;
      [exfalso; apply (Hfail stored); reflexivity | | | |];
      eexists _, _; (split; [reflexivity|]); repeat split.
  - intros stored Hopen. unfold get_repository_database. fold norm_path.
    rewrite Hcase2. unfold connect, __init__. cbn [_repo_path]. rewrite Hopen.
    eexists _, _. split; [reflexivity|]. split; [reflexivity|].
    split; [reflexivity|]. cbn [closed_conns].
    destruct (_repo_db (globals p)) as [old|]; [|reflexivity].
    unfold close. destruct (_connection old); reflexivity.
Qed.

Lemma C8_switch_repository_witness :
  let host := {| resolve := fun s => Some s;
                 try_open := fun s => if String.eqb s "/mnt/usb/vault"
                                      then DriveMissing else Opens [] |} in
  let old := {| _repo_path := "/home/u/vault";
                _connection := Some (new_connection 0 []);
                _transaction_depth := 0 |} in
  let p := {| globals := {| _repo_db := Some old;
                            _current_repo_path := Some "/home/u/vault" |};
              next_conn_id := 1; closed_conns := [] |} in
  exists e p',
    get_repository_database host (Some "/mnt/usb/vault") p = (Raise e, p') /\
    _repo_db (globals p') = Some old /\
    _current_repo_path (globals p') = Some "/home/u/vault" /\
    closed_conns p' = [].
Proof.
  intros host old p.
  destruct (C8_switch_repository host "/mnt/usb/vault" p) as (_ & Hfail & _).
  - discriminate.
  - apply Hfail. intros stored. discriminate.
Defined.

End switch_facts.

(* ------------------------------------------------------------------ *)
(** ** Storing and releasing, together *)

Section release_facts.
Context `{crypto.Sodium}.
Import world models Block block_manager repository.

Lemma existsb_is_file_false_inv (ps : list Path) (w : World) :
  existsb (fun q => is_file q w) ps = false ->
  Forall (fun q => files w !! q = None) ps.
Proof.
  induction ps as [|q ps IH]; simpl; intros Hex; [constructor|].
  apply orb_false_iff in Hex as [Hq Hps]. constructor; [|apply IH; exact Hps].
  unfold is_file in Hq. apply bool_decide_eq_false in Hq.
  destruct (files w !! q); [exfalso; apply Hq; eauto | reflexivity].
Qed.

(** A commit that reports a new block went down the miss path with
    nothing in its way. *)
Lemma store_new_block_conditions (self : BlockManager) (p : prepared.t)
    (w w' : World) (blk : Block) :
  let full_path := joinpath (blocks_dir self) (prepared.relative_path p) in
  store_prepared_block self p w = (Ok (blk, true), w') ->
  find (fun b => String.eqb (hash b) (prepared.hash p)) (blocks w) = None /\
  db_writable w = true /\
  Forall (fun q => files w !! q = None) (ancestors_and_self (parent full_path)) /\
  is_dir full_path w = false /\
  (length (prepared.encrypted_data p)
   <= free_space w + length (default [] (files w !! full_path)))%nat.
Proof.
  intros full_path. unfold store_prepared_block, bind. rewrite get_by_hash_run.
  destruct (find _ (blocks w)) as [existing|].
  - destruct (increment_reference existing w) as [[[]|e] w1]; discriminate.
  - fold full_path. unfold mkdir_parents.
    destruct (existsb _ (ancestors_and_self (parent full_path))) eqn:Hanc;
      [discriminate|].
    apply existsb_is_file_false_inv in Hanc.
    set (w1 := log _ _).
    unfold write_file.
    destruct (is_dir full_path w1) eqn:Hd1; [discriminate|].
    destruct (negb (is_dir (parent full_path) w1)); [discriminate|].
    change (files w1) with (files w). change (free_space w1) with (free_space w).
    destruct (_ <=? _)%nat eqn:Hroom; [|discriminate].
    apply Nat.leb_le in Hroom.
    unfold create. cbn [db_writable log set_files set_dirs].
    change (db_writable w1) with (db_writable w).
    destruct (db_writable w) eqn:Hdb; cbn [negb]; [|discriminate].
    destruct (existsb _ _); [discriminate|].
    intros _. repeat split; try assumption.
    unfold is_dir in *. apply bool_decide_eq_false in Hd1.
    apply bool_decide_eq_false_2. intros [Hq | [Hq | Hq]].
    + apply Hd1. left. exact Hq.
    + apply Hd1. right. left. exact Hq.
    + apply Hd1. right. right. subst w1. cbn [dirs log set_dirs].
      apply elem_of_union_l. exact Hq.
Qed.

Lemma map_id_update_reference (rows : list Block) (i d : Z) :
  map id (update_reference i d rows) = map id rows.
Proof.
  unfold update_reference. rewrite map_map. apply map_ext.
  intros b. destruct (has_id i b); reflexivity.
Qed.

Lemma map_hash_update_reference (rows : list Block) (i d : Z) :
  map hash (update_reference i d rows) = map hash rows.
Proof.
  unfold update_reference. rewrite map_map. apply map_ext.
  intros b. destruct (has_id i b); reflexivity.
Qed.

Lemma update_reference_absent (rows : list Block) (i d : Z) :
  Forall (fun b => id b <> i) rows -> update_reference i d rows = rows.
Proof.
  induction 1 as [|b rows Hb _ IH]; [reflexivity|].
  cbn [update_reference map]. fold (update_reference i d rows). rewrite IH.
  unfold has_id. destruct (Z.eqb_spec (id b) i); [contradiction|reflexivity].
Qed.

Lemma update_reference_app (rows rows' : list Block) (i d : Z) :
  update_reference i d (rows ++ rows')
  = update_reference i d rows ++ update_reference i d rows'.
Proof. apply map_app. Qed.

Lemma filter_id_absent (rows : list Block) (i : Z) :
  Forall (fun b => id b <> i) rows ->
  filter (fun b => has_id i b = false) rows = rows.
Proof.
  induction 1 as [|b rows Hb _ IH]; [reflexivity|].
  rewrite filter_cons_True, IH; [reflexivity|].
  unfold has_id. destruct (Z.eqb_spec (id b) i); [contradiction|reflexivity].
Qed.

(** Ids handed out so far are not the next one. *)
Lemma ids_below_next (w : World) :
  table_ok w -> Forall (fun b => id b <> blocks_seq w + 1) (blocks w).
Proof.
  intros (_ & _ & _ & Hseq). eapply Forall_impl; [exact Hseq|].
  intros b Hb. cbv beta in *. lia.
Qed.

Lemma NoDup_ids_snoc (w : World) (new : Block) :
  table_ok w -> id new = blocks_seq w + 1 ->
  NoDup (map id (blocks w ++ [new])).
Proof.
  intros Hok Hid. pose proof (ids_below_next w Hok) as Hfresh.
  destruct Hok as (Hnd & _). rewrite map_app. apply NoDup_app.
  split; [exact Hnd|]. split.
  - intros i Hi Hin. apply list_elem_of_fmap in Hi as (b & -> & Hb).
    apply list_elem_of_singleton in Hin.
    rewrite Forall_forall in Hfresh. apply (Hfresh b Hb). simpl in Hin. congruence.
  - simpl. apply NoDup_singleton.
Qed.

Lemma find_snoc {A : Type} (f : A -> bool) (l : list A) (x : A) :
  find f l = None -> f x = true -> find f (l ++ [x]) = Some x.
Proof.
  intros Hl Hx. induction l as [|y l IH]; simpl in *; [rewrite Hx; reflexivity|].
  destruct (f y); [discriminate|]. apply IH, Hl.
Qed.

Lemma find_none_forall {A : Type} (f : A -> bool) (l : list A) :
  find f l = None -> Forall (fun x => f x = false) l.
Proof.
  induction l as [|y l IH]; simpl; [constructor|].
  destruct (f y) eqn:Hy; [discriminate|]. intros Hl. constructor; auto.
Qed.

(** X1. Storing a new block and releasing it again: the table and the
    files are as they were before the store, except that a file that
    stood at the blob path is gone; the free space is back; the shard
    directories stay, and the id of the block is not handed out
    again. *)
Theorem store_then_delete_restores (self : BlockManager) (p : prepared.t)
    (w w1 : World) (blk : Block) :
  let full_path := joinpath (blocks_dir self) (prepared.relative_path p) in
  table_ok w ->
  store_prepared_block self p w = (Ok (blk, true), w1) ->
  exists w2,
    delete_block self blk w1 = (Ok true, w2) /\
    blocks w2 = blocks w /\
    files w2 = base.delete full_path (files w) /\
    (files w !! full_path = None -> files w2 = files w) /\
    free_space w2
      = (free_space w + length (default [] (files w !! full_path)))%nat /\
    dirs w2 = dirs w ∪ list_to_set (ancestors_and_self (parent full_path)) /\
    blocks_seq w2 = blocks_seq w + 1.
Proof.
  intros full_path Hok Hstore.
  destruct (store_new_block_conditions self p w w1 blk Hstore)
    as (Hfind & Hdb & Hanc & Hnodir & Hroom).
  pose (new := {| id := blocks_seq w + 1; hash := prepared.hash p;
                  relative_path := prepared.relative_path p;
                  size := prepared.size p; salt := prepared.salt p;
                  nonce := prepared.nonce p; reference_count := 1 |}).
  pose (w' := {| blocks := blocks w ++ [new]; blocks_seq := blocks_seq w + 1;
                 db_writable := true;
                 dirs := dirs w ∪ list_to_set (ancestors_and_self (parent full_path));
                 files := <[full_path := prepared.encrypted_data p]> (files w);
                 free_space := (free_space w + length (default [] (files w !! full_path))
                                - length (prepared.encrypted_data p))%nat;
                 rng := rng w;
                 trace := trace w ++ [EvMkdir (parent full_path)]
                            ++ [EvWrite full_path (length (prepared.encrypted_data p))]
                            ++ [EvInsertRow (blocks_seq w + 1)] |}).
  assert (Hrun : store_prepared_block self p w = (Ok (new, true), w'))
    by (apply store_new_block_run; assumption).
  rewrite Hrun in Hstore. injection Hstore as Hblk Hw1.
  clear Hrun. subst blk w1. rename w' into w1.
  assert (Hnd1 : NoDup (map id (blocks w1))) by (apply NoDup_ids_snoc; auto).
  assert (Hin1 : new ∈ blocks w1).
  { apply elem_of_app. right. apply list_elem_of_singleton. reflexivity. }
  assert (Hnodir1 : is_dir (joinpath (blocks_dir self) (relative_path new)) w1 = false).
  { change (joinpath (blocks_dir self) (relative_path new)) with full_path.
    unfold is_dir in *. apply bool_decide_eq_false in Hnodir.
    apply bool_decide_eq_false_2. intros [Hq | [Hq | Hq]].
    - apply Hnodir. left. exact Hq.
    - apply Hnodir. right. left. exact Hq.
    - cbn [dirs w1] in Hq. apply elem_of_union in Hq as [Hq | Hq].
      + apply Hnodir. right. right. exact Hq.
      + apply elem_of_list_to_set in Hq.
        apply self_not_in_parent_ancestors in Hq; [exact Hq | |].
        * intros Hnil. apply Hnodir. left. exact Hnil.
        * intros Hroot. apply Hnodir. right. left. exact Hroot. }
  rewrite (delete_last_reference_run self new w1 eq_refl Hnd1 Hin1 Hnodir1 eq_refl).
  change (joinpath (blocks_dir self) (relative_path new)) with full_path.
  change (files w1) with (<[full_path := prepared.encrypted_data p]> (files w)).
  rewrite lookup_insert_eq.
  eexists. split; [reflexivity|].
  cbn [blocks files free_space dirs blocks_seq log set_blocks set_files w1].
  split.
  { rewrite filter_update_reference, filter_app.
    rewrite filter_id_absent by (apply ids_below_next; exact Hok).
    rewrite filter_cons_False, filter_nil, app_nil_r; [reflexivity|].
    unfold has_id, new. cbn [id]. rewrite Z.eqb_refl. discriminate. }
  split; [apply delete_insert_eq|].
  split; [intros Hfresh; rewrite delete_insert_eq; apply delete_id; exact Hfresh|].
  split; [fold full_path in Hroom; lia|]. split; reflexivity.
Qed.

(** Preparing a block touches nothing but the random source. *)
Lemma prepare_block_frame (self : BlockManager) (data : bytes) (w : World) :
  exists p r,
    prepare_block self data w = (Ok p, set_rng r w) /\
    prepared.hash p = hash_utils.compute_block_hash data /\
    prepared.size p = Z.of_nat (length (prepared.encrypted_data p)).
Proof.
  pose (salt := draw (rng w) 0 16).
  pose (nonce := draw (rng w) 16 24).
  pose (block_id := Hex.hex (uuid4_bits (draw (rng w) 40 16))).
  pose (ct := crypto.secretbox_encrypt
                (crypto.derive_file_key (master_key self) salt) nonce data).
  exists {| prepared.hash := hash_utils.compute_block_hash data;
            prepared.relative_path := shard block_id;
            prepared.size := Z.of_nat (length ct);
            prepared.salt := salt; prepared.nonce := nonce;
            prepared.encrypted_data := ct;
            prepared.original_size := Z.of_nat (length data) |},
         (rng (snd (prepare_block self data w))).
  split; [reflexivity|]. split; reflexivity.
Qed.

(** X2. Deduplication, end to end: the same data stored a second time finds
    the row of the first store, whatever salt, nonce and path the
    second preparation drew; it returns that block with false, the row
    then counts two references, and no file, directory or byte of disk
    space is added. *)
Theorem store_block_twice (self : BlockManager) (data : bytes)
    (w w1 : World) (blk : Block) :
  table_ok w ->
  store_block self data w = (Ok (blk, true), w1) ->
  exists w2,
    store_block self data w1 = (Ok (blk, false), w2) /\
    blocks w2 = blocks w ++ [add_reference 1 blk] /\
    reference_count (add_reference 1 blk) = 2 /\
    files w2 = files w1 /\ dirs w2 = dirs w1 /\ free_space w2 = free_space w1.
Proof.
  intros Hok Hstore. unfold store_block, bind in Hstore.
  destruct (prepare_block_frame self data w) as (p & r & Hprep & Hhash & _).
  rewrite Hprep in Hstore.
  assert (Hok0 : table_ok (set_rng r w)) by exact Hok.
  destruct (store_new_block_conditions self p _ w1 blk Hstore)
    as (Hfind & Hdb & Hanc & Hnodir & Hroom).
  rewrite (store_new_block_run self p _ Hfind Hdb Hanc Hnodir Hroom) in Hstore.
  injection Hstore as <- <-.
  cbn [blocks blocks_seq set_rng] in *.
  set (new := {| id := blocks_seq w + 1; hash := prepared.hash p;
                 relative_path := prepared.relative_path p;
                 size := prepared.size p; salt := prepared.salt p;
                 nonce := prepared.nonce p; reference_count := 1 |}).
  unfold store_block, bind.
  match goal with |- context [prepare_block self data ?w1] =>
    destruct (prepare_block_frame self data w1) as (p' & r' & Hprep' & Hhash' & _);
    rewrite Hprep'
  end.
  unfold store_prepared_block, bind. rewrite get_by_hash_run.
  cbn [blocks set_rng]. rewrite Hhash', <- Hhash.
  rewrite (find_snoc _ _ new Hfind) by apply String.eqb_refl.
  unfold increment_reference. cbn [db_writable set_rng].
  eexists. split; [reflexivity|].
  cbn [blocks files dirs free_space log set_blocks set_rng].
  split; [|repeat split].
  rewrite update_reference_app.
  rewrite update_reference_absent by (apply ids_below_next; exact Hok).
  cbn [update_reference map]. unfold has_id. cbn [id new]. rewrite Z.eqb_refl.
  reflexivity.
Qed.

(** One release of a block whose row counts more than one reference. *)
Lemma delete_shared_run (self : BlockManager) (block row : Block) (w : World) :
  db_writable w = true -> NoDup (map id (blocks w)) ->
  row ∈ blocks w -> id row = id block -> reference_count row <> 1 ->
  delete_block self block w =
  (Ok false,
   log (EvUpdateRef (id block) (-1))
     (set_blocks (update_reference (id block) (-1) (blocks w)) (blocks_seq w) w)).
Proof.
  intros Hdb Hnd Hin Hid Hmore. unfold delete_block, bind.
  unfold decrement_reference. rewrite Hdb.
  rewrite <- Hid, find_update_reference by assumption.
  cbn [reference_count add_reference].
  destruct (Z.eqb_spec (reference_count row + -1) 0) as [Hz|_]; [lia|].
  reflexivity.
Qed.




(** Committing a prepared block removes no file, whatever comes of it. *)
Lemma store_keeps_files (self : BlockManager) (p : prepared.t) (w w' : World)
    (r : result (Block * bool)) (q : Path) :
  store_prepared_block self p w = (r, w') ->
  is_file q w = true -> is_file q w' = true.
Proof.
  unfold store_prepared_block, bind. rewrite get_by_hash_run.
  destruct (find _ (blocks w)) as [existing|].
  - unfold increment_reference. destruct (db_writable w); intros [= _ <-]; auto.
  - destruct (mkdir_parents _ w) as [[[]|e1] w1] eqn:Hmk.
    2:{ apply mkdir_parents_files in Hmk as (_ & _ & Hf & _).
        intros [= _ <-]. unfold is_file. rewrite Hf. auto. }
    apply mkdir_parents_files in Hmk as (_ & _ & Hf1 & _).
    assert (Hwrite : forall w2 r2,
               write_file (joinpath (blocks_dir self) (prepared.relative_path p))
                 (prepared.encrypted_data p) w1 = (r2, w2) ->
               is_file q w = true -> is_file q w2 = true).
    { intros w2 r2. unfold write_file, is_file. rewrite <- Hf1.
      destruct (is_dir _ w1); [intros [= _ <-]; auto|].
      destruct (negb _); [intros [= _ <-]; auto|].
      destruct (_ <=? _)%nat; intros [= _ <-] Hq;
        cbn [files log set_files]; apply bool_decide_eq_true in Hq;
        apply bool_decide_eq_true_2; apply lookup_insert_is_Some';
        right; exact Hq. }
    destruct (write_file _ _ w1) as [[[]|e2] w2] eqn:Hwr.
    2:{ intros [= _ <-]. apply (Hwrite _ _ eq_refl). }
    specialize (Hwrite _ _ eq_refl).
    unfold create. destruct (negb (db_writable w2)); [intros [= _ <-]; exact Hwrite|].
    destruct (existsb _ _); intros [= _ <-]; exact Hwrite.
Qed.

(** X4. The table invariant, and the presence of every row's blob, hold
    after store_prepared_block whenever they held before, whether the
    call returned or raised. *)
Theorem store_keeps_invariants (self : BlockManager) (p : prepared.t)
    (w w' : World) (r : result (Block * bool)) :
  store_prepared_block self p w = (r, w') ->
  table_ok w -> blobs_on_disk self w ->
  table_ok w' /\ blobs_on_disk self w'.
Proof.
  intros Hrun Hok Hblobs.
  assert (Hfiles := fun q => store_keeps_files self p w w' r q Hrun).
  assert (Hsame : blocks w' = blocks w -> blocks_seq w' = blocks_seq w ->
                  table_ok w' /\ blobs_on_disk self w').
  { intros Hb Hs. split.
    - unfold table_ok. rewrite Hb, Hs. exact Hok.
    - unfold blobs_on_disk. rewrite Hb. eapply Forall_impl; [exact Hblobs|].
      intros b. apply Hfiles. }
  destruct r as [[blk is_new]|e].
  2:{ revert Hrun. unfold store_prepared_block, bind. rewrite get_by_hash_run.
      destruct (find _ (blocks w)) as [existing|].
      - unfold increment_reference. destruct (db_writable w); [discriminate|].
        intros [= _ <-]. apply Hsame; reflexivity.
      - destruct (mkdir_parents _ w) as [[[]|e1] w1] eqn:Hmk;
          apply mkdir_parents_files in Hmk as (Hb1 & Hs1 & _ & _).
        2:{ intros [= _ <-]. apply Hsame; assumption. }
        destruct (write_file _ _ w1) as [[[]|e2] w2] eqn:Hwr.
        2:{ apply write_file_raises in Hwr as (Hb2 & Hs2 & _).
            intros [= _ <-]. apply Hsame; congruence. }
        apply write_file_ok in Hwr as (Hb2 & Hs2 & _ & _).
        destruct (create _ _ _ _ _ w2) as [[blk|e3] w3] eqn:Hcr; [discriminate|].
        apply create_raises in Hcr as ->.
        intros [= _ <-]. apply Hsame; congruence. }
  destruct is_new.
  - (* a new row *)
    destruct (store_new_block_conditions self p w w' blk Hrun)
      as (Hfind & Hdb & Hanc & Hnodir & Hroom).
    rewrite (store_new_block_run self p w Hfind Hdb Hanc Hnodir Hroom) in Hrun.
    injection Hrun as <- <-.
    pose proof (ids_below_next w Hok) as Hfresh.
    split.
    + unfold table_ok. cbn [blocks blocks_seq].
      split; [apply NoDup_ids_snoc; auto|].
      destruct Hok as (_ & Hhash & Hcount & Hseq).
      split; [|split].
      * rewrite map_app. apply NoDup_app. split; [exact Hhash|]. split.
        -- intros h Hh Hin. apply list_elem_of_singleton in Hin. cbn [hash] in Hin.
           apply list_elem_of_fmap in Hh as (b & -> & Hb).
           apply find_none_forall in Hfind. rewrite Forall_forall in Hfind.
           specialize (Hfind b Hb). cbv beta in Hfind.
           rewrite Hin, String.eqb_refl in Hfind. discriminate Hfind.
        -- simpl. apply NoDup_singleton.
      * apply Forall_app. split; [exact Hcount|]. repeat constructor. simpl. lia.
      * apply Forall_app. split.
        -- eapply Forall_impl; [exact Hseq|]. intros b Hb. cbv beta in *. lia.
        -- repeat constructor. simpl. lia.
    + unfold blobs_on_disk. cbn [blocks]. apply Forall_app. split.
      * eapply Forall_impl; [exact Hblobs|]. intros b Hb. cbv beta in *.
        unfold is_file in *. cbn [files]. apply bool_decide_eq_true in Hb.
        apply bool_decide_eq_true_2, lookup_insert_is_Some'. right. exact Hb.
      * repeat constructor. cbn [relative_path]. unfold is_file. cbn [files].
        apply bool_decide_eq_true_2. rewrite lookup_insert_eq. eauto.
  - (* one more reference to an existing row *)
    revert Hrun. unfold store_prepared_block, bind. rewrite get_by_hash_run.
    destruct (find _ (blocks w)) as [existing|].
    2:{ destruct (mkdir_parents _ w) as [[[]|e1] w1]; [|discriminate].
        destruct (write_file _ _ w1) as [[[]|e2] w2]; [|discriminate].
        destruct (create _ _ _ _ _ w2) as [[b|e3] w3]; discriminate. }
    unfold increment_reference. destruct (db_writable w); [|discriminate].
    intros [= _ <-]. destruct Hok as (Hid & Hhash & Hcount & Hseq). split.
    + unfold table_ok. cbn [blocks blocks_seq log set_blocks].
      rewrite map_id_update_reference, map_hash_update_reference.
      split; [exact Hid|]. split; [exact Hhash|]. split.
      * unfold update_reference. apply Forall_fmap.
        eapply Forall_impl; [exact Hcount|]. intros b Hb. cbv beta in *.
        unfold compose. destruct (has_id _ b); cbn [reference_count add_reference]; lia.
      * unfold update_reference. apply Forall_fmap.
        eapply Forall_impl; [exact Hseq|]. intros b Hb. cbv beta in *.
        unfold compose. destruct (has_id _ b); cbn [id add_reference]; lia.
    + unfold blobs_on_disk. cbn [blocks log set_blocks].
      unfold update_reference. apply Forall_fmap.
      eapply Forall_impl; [exact Hblobs|]. intros b Hb. cbv beta in *.
      unfold compose. destruct (has_id _ b); exact Hb.
Qed.

(** Rows of a table with a unique column are told apart by it. *)
Lemma NoDup_fmap_eq {A B : Type} (f : A -> B) (l : list A) (x y : A) :
  NoDup (map f l) -> x ∈ l -> y ∈ l -> f x = f y -> x = y.
Proof.
  intros Hnd Hx Hy Heq.
  apply list_elem_of_lookup in Hx as [i Hi]. apply list_elem_of_lookup in Hy as [j Hj].
  assert (i = j).
  { apply (NoDup_lookup (map f l) i j (f x)); [exact Hnd| |].
    - change (map f l) with (f <$> l). rewrite list_lookup_fmap, Hi. reflexivity.
    - change (map f l) with (f <$> l). rewrite list_lookup_fmap, Hj. simpl.
      congruence. }
  subst j. congruence.
Qed.

Lemma find_has_id_elem (rows : list Block) (i : Z) (row : Block) :
  find (has_id i) rows = Some row -> row ∈ rows /\ id row = i.
Proof.
  intros Hf. apply find_some_elem in Hf as [Hin Hid]. split; [exact Hin|].
  unfold has_id in Hid. apply Z.eqb_eq in Hid. exact Hid.
Qed.

Lemma find_has_id_none (rows : list Block) (i : Z) :
  find (has_id i) rows = None -> Forall (fun b => id b <> i) rows.
Proof.
  intros Hf. apply find_none_forall in Hf.
  eapply Forall_impl; [exact Hf|]. intros b Hb. cbv beta in Hb.
  unfold has_id in Hb. apply Z.eqb_neq in Hb. exact Hb.
Qed.

(** Rows that pass the filter of a row deletion. *)
Lemma table_ok_filter (w w' : World) (i : Z) :
  table_ok w ->
  blocks w' = filter (fun b => has_id i b = false) (blocks w) ->
  blocks_seq w' = blocks_seq w ->
  table_ok w'.
Proof.
  intros (Hid & Hhash & Hcount & Hseq) Hb Hs. unfold table_ok. rewrite Hb, Hs.
  assert (Hsub : filter (fun b => has_id i b = false) (blocks w) `sublist_of` blocks w)
    by apply sublist_filter.
  split; [|split; [|split]].
  - apply (sublist_NoDup _ _ Hid (fmap_sublist id _ _ Hsub)).
  - apply (sublist_NoDup _ _ Hhash (fmap_sublist hash _ _ Hsub)).
  - rewrite Forall_forall in *. intros b Hin.
    apply list_elem_of_filter in Hin as [_ Hin]. apply Hcount, Hin.
  - rewrite Forall_forall in *. intros b Hin.
    apply list_elem_of_filter in Hin as [_ Hin]. apply Hseq, Hin.
Qed.

(** X5. delete_block, when it returns, leaves the table invariant in
    place: a row is either deleted or keeps at least one reference. *)
Theorem delete_keeps_table_ok (self : BlockManager) (block : Block)
    (w w' : World) (removed : bool) :
  table_ok w ->
  delete_block self block w = (Ok removed, w') ->
  table_ok w'.
Proof.
  intros Hok. unfold delete_block, bind, decrement_reference.
  destruct (db_writable w) eqn:Hdb; [|discriminate].
  set (rows := update_reference (id block) (-1) (blocks w)).
  set (w1 := log _ _).
  destruct (find (has_id (id block)) rows) as [row|] eqn:Hrow.
  - destruct (Z.eqb_spec (reference_count row) 0) as [Hzero|Hpos].
    + (* the last reference: the row goes *)
      unfold delete_block_file. cbv beta zeta.
      destruct (path_exists _ w1).
      * unfold bind, unlink. change (files w1) with (files w).
        destruct (files w !! _) as [data|]; [|discriminate].
        unfold ret, Block.delete. cbv beta iota.
        cbn [db_writable log set_files w1 set_blocks]. rewrite Hdb.
        intros [= _ <-].
        apply (table_ok_filter w _ (id block) Hok); [|reflexivity].
        cbn [blocks log set_files set_blocks]. apply filter_update_reference.
      * unfold Block.delete. cbv beta iota.
        cbn [db_writable log w1 set_blocks]. rewrite Hdb.
        intros [= _ <-].
        apply (table_ok_filter w _ (id block) Hok); [|reflexivity].
        cbn [blocks log set_blocks]. apply filter_update_reference.
    + (* references remain *)
      intros [= _ <-]. destruct Hok as (Hid & Hhash & Hcount & Hseq).
      unfold table_ok. cbn [blocks blocks_seq w1 log set_blocks]. fold rows.
      subst rows. rewrite map_id_update_reference, map_hash_update_reference.
      split; [exact Hid|]. split; [exact Hhash|]. split.
      * rewrite Forall_forall in *. intros b Hb.
        destruct (Z.eq_dec (id b) (id block)) as [Heq|Hne].
        -- apply find_has_id_elem in Hrow as [Hrin Hrid].
           assert (b = row).
           { apply (NoDup_fmap_eq id (update_reference (id block) (-1) (blocks w)));
               [|exact Hb|exact Hrin|congruence].
             rewrite map_id_update_reference. exact Hid. }
           subst b.
           unfold update_reference in Hrin.
           apply list_elem_of_fmap in Hrin as (r0 & Hr0 & Hin0).
           specialize (Hcount r0 Hin0). cbv beta in Hcount.
           destruct (has_id (id block) r0); subst row;
             cbn [reference_count add_reference] in *; lia.
        -- apply update_reference_other in Hb; [|exact Hne]. apply Hcount, Hb.
      * unfold update_reference. rewrite Forall_forall in *. intros b Hb.
        apply list_elem_of_fmap in Hb as (r0 & -> & Hin0).
        specialize (Hseq r0 Hin0). cbv beta in Hseq.
        destruct (has_id _ r0); exact Hseq.
  - (* no row carries the id *)
    intros [= _ <-]. apply find_has_id_none in Hrow. subst rows.
    assert (Hsame : update_reference (id block) (-1) (blocks w) = blocks w).
    { apply update_reference_absent. rewrite Forall_forall in *.
      intros b Hb Heq.
      apply (Hrow (add_reference (-1) b)); [|exact Heq].
      unfold update_reference. apply list_elem_of_fmap. exists b.
      split; [|exact Hb]. unfold has_id. rewrite Heq, Z.eqb_refl. reflexivity. }
    unfold table_ok. cbn [blocks blocks_seq w1 log set_blocks].
    rewrite Hsame. exact Hok.
Qed.

(** X6. delete_block_file does not touch the table; it answers whether a
    file stood at the blob path and leaves none there, so that a second
    call finds nothing to do. *)
Theorem delete_block_file_twice (self : BlockManager) (block : Block)
    (w w1 : World) (removed : bool) :
  let full_path := joinpath (blocks_dir self) (relative_path block) in
  delete_block_file self block w = (Ok removed, w1) ->
  removed = is_file full_path w /\
  blocks w1 = blocks w /\ blocks_seq w1 = blocks_seq w /\
  files w1 = base.delete full_path (files w) /\
  (forall q, q <> full_path -> files w1 !! q = files w !! q) /\
  dirs w1 = dirs w /\
  (is_dir full_path w = false ->
   delete_block_file self block w1 = (Ok false, w1)).
Proof.
  intros full_path. unfold delete_block_file. cbv beta zeta. fold full_path.
  unfold path_exists, is_file, bind, unlink.
  destruct (files w !! full_path) as [data|] eqn:Hblob.
  - rewrite bool_decide_eq_true_2 by eauto. cbn [orb].
    intros [= <- <-]. cbn [blocks blocks_seq files dirs log set_files].
    split; [reflexivity|]. split; [reflexivity|]. split; [reflexivity|].
    split; [reflexivity|].
    split; [intros q Hq; apply lookup_delete_ne; congruence|].
    split; [reflexivity|].
    intros Hnodir. rewrite lookup_delete_eq.
    rewrite bool_decide_eq_false_2 by (intros [x Hx]; discriminate Hx).
    change (is_dir full_path (log _ _)) with (is_dir full_path w).
    rewrite Hnodir. reflexivity.
  - rewrite bool_decide_eq_false_2 by (intros [x Hx]; discriminate Hx).
    cbn [orb]. destruct (is_dir full_path w) eqn:Hdir; [discriminate|].
    intros [= <- <-]. rewrite Hblob.
    rewrite bool_decide_eq_false_2 by (intros [x Hx]; discriminate Hx).
    rewrite Hdir. cbn [orb].
    split; [reflexivity|]. split; [reflexivity|]. split; [reflexivity|].
    split; [symmetry; apply delete_id; exact Hblob|]. auto.
Qed.

(** X7. The size recorded in the row of a block stored by store_block is
    the size of its blob on disk, which get_block_size reports. *)
Theorem get_block_size_after_store (dir_size : Path -> Z) (self : BlockManager)
    (data : bytes) (w w1 : World) (blk : Block) :
  store_block self data w = (Ok (blk, true), w1) ->
  get_block_size dir_size self blk w1 = (Ok (size blk), w1) /\
  block_exists self blk w1 = (Ok true, w1).
Proof.
  intros Hstore. unfold store_block, bind in Hstore.
  destruct (prepare_block_frame self data w) as (p & r & Hprep & _ & Hsize).
  rewrite Hprep in Hstore.
  destruct (store_new_block_conditions self p _ w1 blk Hstore)
    as (Hfind & Hdb & Hanc & Hnodir & Hroom).
  rewrite (store_new_block_run self p _ Hfind Hdb Hanc Hnodir Hroom) in Hstore.
  injection Hstore as <- <-.
  unfold get_block_size, block_exists, path_exists, is_file.
  cbn [relative_path files size]. rewrite lookup_insert_eq.
  rewrite bool_decide_eq_true_2 by eauto. cbn [orb]. rewrite Hsize. auto.
Qed.

(** X8. Blocks with different identifiers never share a blob path: the
    path under the blocks directory determines the sixteen bytes of the
    identifier. *)
Theorem block_path_injective (base : Path) (u u' : bytes) :
  length u = 16%nat -> length u' = 16%nat -> u <> u' ->
  joinpath base (shard (Hex.hex u)) <> joinpath base (shard (Hex.hex u')).
Proof.
  intros Hu Hu' Hne Hpath. apply Hne.
  rewrite !joinpath_shard in Hpath by lia.
  apply app_inv_head in Hpath. injection Hpath as _ _ Hhex.
  pose proof (fromhex_hex u) as Hback. rewrite Hhex, fromhex_hex in Hback.
  congruence.
Qed.

End release_facts.

Section release_examples.
Import reference_sodium world models Block block_manager repository examples.

Lemma table_ok_empty_repo : table_ok empty_repo.
Proof.
  unfold table_ok. cbn [blocks empty_repo].
  repeat split; try apply NoDup_nil_2; constructor.
Qed.

Lemma table_ok_one_block_repo : table_ok one_block_repo.
Proof.
  unfold table_ok. cbn [blocks blocks_seq one_block_repo].
  repeat split; try apply NoDup_singleton; repeat constructor; simpl; lia.
Qed.

Lemma store_on_empty_repo :
  exists blk w1, store_prepared_block bm pb empty_repo = (Ok (blk, true), w1).
Proof.
  destruct (empty_repo_ready empty_repo) as (Ha & Hd & Hr); try reflexivity.
  eexists _, _. apply (store_new_block_run bm pb empty_repo eq_refl eq_refl Ha Hd Hr).
Qed.

Lemma blob_not_dir (w : World) :
  dirs w = list_to_set (ancestors_and_self (parent blob)) -> is_dir blob w = false.
Proof.
  intros Hd. unfold is_dir. rewrite Hd. apply bool_decide_eq_false_2.
  intros [Hq | [Hq | Hq]]; [discriminate Hq | discriminate Hq |].
  revert Hq. vm_compute. intros Hq. discriminate Hq.
Qed.

Lemma store_then_delete_restores_witness :
  exists blk w1 w2,
    store_prepared_block bm pb empty_repo = (Ok (blk, true), w1) /\
    delete_block bm blk w1 = (Ok true, w2) /\
    blocks w2 = [] /\ files w2 = ∅ /\ free_space w2 = 1000%nat /\
    blocks_seq w2 = 1.
Proof.
  destruct store_on_empty_repo as (blk & w1 & Hrun).
  destruct (store_then_delete_restores bm pb empty_repo w1 blk
              table_ok_empty_repo Hrun)
    as (w2 & Hdel & Hrows & _ & Hfiles & Hfree & _ & Hseq).
  exists blk, w1, w2. split; [exact Hrun|]. split; [exact Hdel|].
  split; [exact Hrows|]. split; [apply Hfiles; reflexivity|].
  split; [exact Hfree | exact Hseq].
Defined.

Lemma store_block_twice_witness :
  exists blk w1 w2,
    store_block bm [x68; x69] empty_repo = (Ok (blk, true), w1) /\
    store_block bm [x68; x69] w1 = (Ok (blk, false), w2) /\
    blocks w2 = [add_reference 1 blk] /\
    files w2 = files w1.
Proof.
  remember (store_block bm [x68; x69] empty_repo) as res eqn:Hstore.
  assert (Hnew : match res with (Ok (_, true), _) => True | _ => False end)
    by (rewrite Hstore; vm_compute; exact I).
  destruct res as [[[blk [|]]|e] w1]; try contradiction.
  symmetry in Hstore.
  destruct (store_block_twice bm [x68; x69] empty_repo w1 blk
              table_ok_empty_repo Hstore)
    as (w2 & Hagain & Hrows & _ & Hfiles & _).
  exists blk, w1, w2. split; [reflexivity|]. split; [exact Hagain|].
  split; [exact Hrows | exact Hfiles].
Defined.


Lemma store_keeps_invariants_witness :
  exists r w',
    store_prepared_block bm pb one_block_repo = (r, w') /\
    table_ok w' /\ blobs_on_disk bm w'.
Proof.
  exists (fst (store_prepared_block bm pb one_block_repo)),
         (snd (store_prepared_block bm pb one_block_repo)).
  split; [apply surjective_pairing|].
  apply (store_keeps_invariants bm pb one_block_repo _ _ (surjective_pairing _)).
  - exact table_ok_one_block_repo.
  - unfold blobs_on_disk. cbn [blocks one_block_repo]. repeat constructor.
Defined.

Lemma delete_keeps_table_ok_witness :
  exists w', delete_block bm row one_block_repo = (Ok true, w') /\ table_ok w'.
Proof.
  destruct one_block_repo_ready as (Hdb & Hnd & Hin & Hnodir).
  pose proof (delete_last_reference_run bm row one_block_repo Hdb Hnd Hin Hnodir
                eq_refl) as Hrun.
  eexists. split; [exact Hrun|].
  apply (delete_keeps_table_ok bm row one_block_repo _ true
           table_ok_one_block_repo Hrun).
Defined.

Lemma delete_block_file_twice_witness :
  exists w1,
    delete_block_file bm row one_block_repo = (Ok true, w1) /\
    blocks w1 = [row] /\
    delete_block_file bm row w1 = (Ok false, w1).
Proof.
  assert (Hrun : delete_block_file bm row one_block_repo
                 = (Ok true, snd (delete_block_file bm row one_block_repo)))
    by reflexivity.
  destruct (delete_block_file_twice bm row one_block_repo _ true Hrun)
    as (_ & Hrows & _ & _ & _ & _ & Hagain).
  eexists. split; [exact Hrun|]. split; [exact Hrows|].
  apply Hagain. apply blob_not_dir. reflexivity.
Defined.

Lemma get_block_size_after_store_witness :
  exists blk w1,
    store_block bm [x68; x69] empty_repo = (Ok (blk, true), w1) /\
    get_block_size (fun _ => 4096) bm blk w1 = (Ok (size blk), w1).
Proof.
  remember (store_block bm [x68; x69] empty_repo) as res eqn:Hstore.
  assert (Hnew : match res with (Ok (_, true), _) => True | _ => False end)
    by (rewrite Hstore; vm_compute; exact I).
  destruct res as [[[blk [|]]|e] w1]; try contradiction.
  symmetry in Hstore.
  exists blk, w1. split; [reflexivity|].
  apply (get_block_size_after_store (fun _ => 4096) bm [x68; x69] empty_repo w1 blk
           Hstore).
Defined.

Lemma block_path_injective_witness :
  joinpath (blocks_dir bm) (shard (Hex.hex (replicate 16 x2a)))
  <> joinpath (blocks_dir bm) (shard (Hex.hex (replicate 16 x2b))).
Proof.
  apply (block_path_injective (blocks_dir bm) (replicate 16 x2a) (replicate 16 x2b));
    [reflexivity | reflexivity | discriminate].
Defined.

End release_examples.

(* ------------------------------------------------------------------ *)
(** ** The current repository database *)

Section current_database_facts.
Import sqlite3 database.

(** X9. A successful get_repository_database makes its database the current
    one: asking again for the same repository, under any spelling that
    normalises to the same path, or for no path at all, returns the
    same object, and neither opens nor closes a connection. *)
Theorem get_repository_database_again (host : Host) (repo_path again : string)
    (p p1 : Process) (db : RepositoryDatabase) :
  default again (resolve host again) = default repo_path (resolve host repo_path) ->
  get_repository_database host (Some repo_path) p = (Ok (Some db), p1) ->
  get_repository_database host (Some again) p1 = (Ok (Some db), p1) /\
  get_repository_database host None p1 = (Ok (Some db), p1) /\
  (exists c, _connection db = Some c).
Proof.
  intros Hnorm. unfold get_repository_database at 1.
  set (norm_path := default repo_path (resolve host repo_path)).
  assert (Hnext : forall p1,
             _repo_db (globals p1) = Some db ->
             _current_repo_path (globals p1) = Some norm_path ->
             (exists c, _connection db = Some c) ->
             get_repository_database host (Some again) p1 = (Ok (Some db), p1) /\
             get_repository_database host None p1 = (Ok (Some db), p1) /\
             (exists c, _connection db = Some c)).
  { intros q Hdb Hpath [c Hc]. unfold get_repository_database.
    rewrite Hnorm. fold norm_path. rewrite Hdb, Hpath.
    rewrite bool_decide_eq_true_2 by reflexivity. rewrite Hc. eauto. }
  destruct (_repo_db (globals p)) as [old|] eqn:Hold.
  - destruct (bool_decide (_current_repo_path (globals p) = Some norm_path)) eqn:Hcur.
    + apply bool_decide_eq_true in Hcur.
      destruct (_connection old) as [c|] eqn:Hc.
      * intros [= <- <-]. apply Hnext; eauto.
      * unfold connect. destruct (try_open host (_repo_path old));
          intros Hrun; try discriminate Hrun.
        injection Hrun as <- <-. apply Hnext; cbn; eauto.
    + unfold connect, __init__. cbn [_repo_path].
      destruct (try_open host repo_path); intros Hrun; try discriminate Hrun.
      injection Hrun as <- <-. apply Hnext; cbn; eauto.
  - unfold connect, __init__. cbn [_repo_path].
    destruct (try_open host repo_path); intros Hrun; try discriminate Hrun.
    injection Hrun as <- <-. apply Hnext; cbn; eauto.
Qed.

(** X10. Reconnecting the current database when the schema script fails:
    the call raises, but the database object keeps the connection it
    had just opened, so the next call for the same repository returns
    it as connected, without running the schema script again. *)
Theorem reconnect_schema_failure (host : Host) (repo_path : string)
    (p : Process) (db : RepositoryDatabase) :
  let norm_path := default repo_path (resolve host repo_path) in
  _repo_db (globals p) = Some db ->
  _current_repo_path (globals p) = Some norm_path ->
  _connection db = None ->
  try_open host (_repo_path db) = SchemaFails ->
  exists p1 db1,
    get_repository_database host (Some repo_path) p = (Raise OperationalError, p1) /\
    _connection db1 = Some (new_connection (next_conn_id p) []) /\
    get_repository_database host (Some repo_path) p1 = (Ok (Some db1), p1) /\
    closed_conns p1 = closed_conns p.
Proof.
  intros norm_path Hdb Hpath Hdead Hfail.
  pose (db1 := with_connection (Some (new_connection (next_conn_id p) [])) db).
  exists {| globals := {| _repo_db := Some db1;
                          _current_repo_path := Some norm_path |};
            next_conn_id := S (next_conn_id p);
            closed_conns := closed_conns p |}, db1.
  split; [|split; [reflexivity|split; [|reflexivity]]].
  - unfold get_repository_database. fold norm_path. rewrite Hdb, Hpath.
    rewrite bool_decide_eq_true_2 by reflexivity. rewrite Hdead.
    unfold connect. rewrite Hfail. reflexivity.
  - unfold get_repository_database. fold norm_path.
    cbn [globals _repo_db _current_repo_path].
    rewrite bool_decide_eq_true_2 by reflexivity. reflexivity.
Qed.

(** X11. close_repository_database clears both globals and closes the
    connection of the current database, once; after it no database is
    current, closing again does nothing, and the next
    get_repository_database for any repository opens a connection of
    its own. *)
Theorem close_repository_database_spec (host : Host) (p : Process) :
  exists p1,
    close_repository_database p = (Ok tt, p1) /\
    _repo_db (globals p1) = None /\
    (_repo_db (globals p) <> None -> _current_repo_path (globals p1) = None) /\
    closed_conns p1 =
      closed_conns p ++
      match _repo_db (globals p) with
      | Some db => match _connection db with
                   | Some c => [conn_id c]
                   | None => []
                   end
      | None => []
      end /\
    get_repository_database host None p1 = (Ok None, p1) /\
    close_repository_database p1 = (Ok tt, p1) /\
    (forall repo_path stored,
        try_open host repo_path = Opens stored ->
        exists db p2,
          get_repository_database host (Some repo_path) p1 = (Ok (Some db), p2) /\
          _connection db = Some (new_connection (next_conn_id p) stored) /\
          closed_conns p2 = closed_conns p1).
Proof.
  exists (snd (close_repository_database p)).
  split; [unfold close_repository_database; destruct (_repo_db (globals p));
          reflexivity|].
  assert (Hnone : _repo_db (globals (snd (close_repository_database p))) = None).
  { unfold close_repository_database.
    destruct (_repo_db (globals p)) eqn:Hdb; [reflexivity | exact Hdb]. }
  assert (Hnext : next_conn_id (snd (close_repository_database p)) = next_conn_id p).
  { unfold close_repository_database. destruct (_repo_db (globals p)); reflexivity. }
  split; [exact Hnone|]. split; [|split; [|split; [|split]]].
  - unfold close_repository_database.
    destruct (_repo_db (globals p)); [reflexivity | congruence].
  - unfold close_repository_database, close.
    destruct (_repo_db (globals p)) as [db|];
      [destruct (_connection db); reflexivity | symmetry; apply app_nil_r].
  - unfold get_repository_database. rewrite Hnone. reflexivity.
  - unfold close_repository_database at 1. rewrite Hnone. reflexivity.
  - intros repo_path stored Hopen.
    unfold get_repository_database, connect, __init__. rewrite Hnone, Hnext.
    cbn [_repo_path]. rewrite Hopen.
    eexists _, _. split; [reflexivity|]. cbn [_connection with_connection closed_conns].
    split; [reflexivity|]. apply app_nil_r.
Qed.

End current_database_facts.

(* ------------------------------------------------------------------ *)
(** ** Transactions at their edges *)

Section transaction_edge_facts.
Import sqlite3 database.

(** X12. A transaction context acts only on the connection it was entered
    with.  When the body has closed the database or connected it anew,
    the exit neither commits nor rolls back, whether the body returned
    or raised: the outcome of the body passes through, the database is
    as the body left it, and only the depth counter is taken down. *)
Theorem transaction_other_connection {A : Type} (body : M RepositoryDatabase A)
    (self : RepositoryDatabase) (conn : Connection) :
  _connection self = Some conn ->
  same_connection conn
    (snd (body (with_depth (_transaction_depth self + 1) self))) = None ->
  let after := body (with_depth (_transaction_depth self + 1) self) in
  transaction body self
  = (fst after, with_depth (_transaction_depth (snd after) - 1) (snd after)).
Proof.
  intros Hconn Hother after. unfold transaction. rewrite Hconn.
  subst after. destruct (body _) as [r s2]. cbn [fst snd] in *.
  destruct r as [a|e].
  - destruct (_ =? 1)%Z; [|reflexivity]. rewrite Hother. reflexivity.
  - unfold on_exception. destruct (is_Exception e); [|reflexivity].
    destruct (_ =? 1)%Z; [|reflexivity]. rewrite Hother. reflexivity.
Qed.

(** X13. The outermost context over a connection that has been closed
    underneath: a body that returns still ends in ProgrammingError,
    raised by the commit; a body that raises keeps its own exception,
    the ProgrammingError of the rollback being swallowed.  Either way
    the depth counter is back at zero and the connection object is
    untouched. *)
Theorem transaction_closed_connection {A : Type} (body : M RepositoryDatabase A)
    (self : RepositoryDatabase) (conn : Connection) :
  _connection self = Some conn ->
  _transaction_depth self = 0 ->
  let after := body (with_depth 1 self) in
  _transaction_depth (snd after) = 1 ->
  same_connection conn (snd after) = Some conn ->
  closed conn = true ->
  transaction body self
  = (match fst after with
     | Ok _ => Raise ProgrammingError
     | Raise e => Raise e
     end, with_depth 0 (snd after)).
Proof.
  intros Hconn Hzero after Hdepth Hsame Hclosed. unfold transaction.
  rewrite Hconn, Hzero. change (0 + 1) with 1. fold after.
  destruct after as [r s2]. cbn [fst snd] in *.
  assert (Hexc : forall e, on_exception conn e s2 = s2).
  { intros e. unfold on_exception. destruct (is_Exception e); [|reflexivity].
    rewrite Hdepth. cbn [Z.eqb Pos.eqb]. rewrite Hsame.
    unfold rollback. rewrite Hclosed. reflexivity. }
  destruct r as [a|e].
  - rewrite Hdepth. cbn [Z.eqb Pos.eqb]. rewrite Hsame.
    unfold commit. rewrite Hclosed. rewrite Hexc, Hdepth. reflexivity.
  - rewrite Hexc, Hdepth. reflexivity.
Qed.






End transaction_edge_facts.

Section current_database_examples.
Import sqlite3 database.

Lemma get_repository_database_again_witness :
  let host := {| resolve := fun s => Some "/home/u/vault";
                 try_open := fun _ => Opens [] |} in
  let p := {| globals := {| _repo_db := None; _current_repo_path := None |};
              next_conn_id := 0; closed_conns := [] |} in
  exists db p1,
    get_repository_database host (Some "vault") p = (Ok (Some db), p1) /\
    get_repository_database host (Some "./vault") p1 = (Ok (Some db), p1) /\
    get_repository_database host None p1 = (Ok (Some db), p1).
Proof.
  intros host p.
  assert (Hrun : get_repository_database host (Some "vault") p
                 = (Ok (Some {| _repo_path := "vault";
                                _connection := Some (new_connection 0 []);
                                _transaction_depth := 0 |}),
                    snd (get_repository_database host (Some "vault") p)))
    by reflexivity.
  destruct (get_repository_database_again host "vault" "./vault" p _ _ eq_refl Hrun)
    as (Hagain & Hnone & _).
  eexists _, _. split; [exact Hrun|]. split; [exact Hagain | exact Hnone].
Defined.

Lemma close_repository_database_spec_witness :
  let host := {| resolve := fun s => Some s; try_open := fun _ => Opens [] |} in
  let db := {| _repo_path := "/home/u/vault";
               _connection := Some (new_connection 0 []);
               _transaction_depth := 0 |} in
  let p := {| globals := {| _repo_db := Some db;
                            _current_repo_path := Some "/home/u/vault" |};
              next_conn_id := 1; closed_conns := [] |} in
  exists p1,
    close_repository_database p = (Ok tt, p1) /\
    closed_conns p1 = [0%nat] /\
    _current_repo_path (globals p1) = None /\
    exists db' p2,
      get_repository_database host (Some "/home/u/vault") p1 = (Ok (Some db'), p2) /\
      _connection db' = Some (new_connection 1 []).
Proof.
  intros host db p.
  destruct (close_repository_database_spec host p)
    as (p1 & Hrun & _ & Hpath & Hclosed & _ & _ & Hnext).
  exists p1. split; [exact Hrun|]. split; [exact Hclosed|].
  split; [apply Hpath; discriminate|].
  destruct (Hnext "/home/u/vault" [] eq_refl) as (db' & p2 & Hget & Hconn & _).
  exists db', p2. split; [exact Hget | exact Hconn].
Defined.

Lemma reconnect_schema_failure_witness :
  let host := {| resolve := fun s => Some s; try_open := fun _ => SchemaFails |} in
  let db := {| _repo_path := "/home/u/vault"; _connection := None;
               _transaction_depth := 0 |} in
  let p := {| globals := {| _repo_db := Some db;
                            _current_repo_path := Some "/home/u/vault" |};
              next_conn_id := 1; closed_conns := [0%nat] |} in
  exists p1 db1,
    get_repository_database host (Some "/home/u/vault") p
      = (Raise OperationalError, p1) /\
    get_repository_database host (Some "/home/u/vault") p1 = (Ok (Some db1), p1).
Proof.
  intros host db p.
  destruct (reconnect_schema_failure host "/home/u/vault" p db
              eq_refl eq_refl eq_refl eq_refl)
    as (p1 & db1 & Hfail & _ & Hnext & _).
  exists p1, db1. split; [exact Hfail | exact Hnext].
Defined.

Lemma transaction_other_connection_witness :
  let db := {| _repo_path := "/repo";
               _connection := Some (new_connection 7 []);
               _transaction_depth := 0 |} in
  let reconnect : M RepositoryDatabase unit :=
    (do! execute "INSERT INTO blocks" in
     fun s => (Ok tt, with_connection (Some (new_connection 8 ["INSERT INTO files"])) s))%py in
  transaction reconnect db
  = (Ok tt, {| _repo_path := "/repo";
               _connection := Some (new_connection 8 ["INSERT INTO files"]);
               _transaction_depth := 0 |}).
Proof.
  intros db reconnect.
  apply (transaction_other_connection reconnect db (new_connection 7 []));
    reflexivity.
Defined.

Lemma transaction_closed_connection_witness :
  let db := {| _repo_path := "/repo";
               _connection := Some (sqlite3.close (new_connection 7 []));
               _transaction_depth := 0 |} in
  transaction (ret tt) db = (Raise ProgrammingError, db).
Proof.
  intros db.
  apply (transaction_closed_connection (ret tt) db (sqlite3.close (new_connection 7 [])));
    reflexivity.
Defined.


End current_database_examples.

(* ------------------------------------------------------------------ *)
(** ** Settings *)

Section settings_facts.
Import config.

(** X15. The language setter accepts "zh" and "en" and nothing else: any
    other value leaves the configuration and its file as they were.
    So a language read from a configuration that only this setter
    wrote is one of the two, "zh" when it was never set. *)
Theorem set_language_guard (value : string) (c : Config) :
  (value = "zh" \/ value = "en" ->
   language (set_language value c) = JStr value /\
   _config_file (set_language value c) = Some (_config_data (set_language value c))) /\
  (value <> "zh" -> value <> "en" -> set_language value c = c) /\
  (language c = JStr "zh" \/ language c = JStr "en" ->
   language (set_language value c) = JStr "zh" \/
   language (set_language value c) = JStr "en") /\
  language fresh = JStr "zh".
Proof.
  assert (Hok : value = "zh" \/ value = "en" ->
                set_language value c = set "language" (JStr value) c).
  { intros Hv. unfold set_language. rewrite bool_decide_eq_true_2; [reflexivity|].
    destruct Hv as [-> | ->]; [left | right; left]. }
  assert (Hbad : value <> "zh" -> value <> "en" -> set_language value c = c).
  { intros Hzh Hen. unfold set_language. rewrite bool_decide_eq_false_2; [reflexivity|].
    intros Hin. apply elem_of_cons in Hin as [Hin | Hin]; [contradiction|].
    apply list_elem_of_singleton in Hin. contradiction. }
  assert (Hget : language (set "language" (JStr value) c) = JStr value).
  { unfold language, get, set, _save_config. cbn [_config_data].
    rewrite lookup_insert_eq. reflexivity. }
  split; [|split; [exact Hbad|split; [|reflexivity]]].
  - intros Hv. rewrite (Hok Hv). split; [exact Hget | reflexivity].
  - intros Hc.
    destruct (decide (value = "zh")) as [Hzh|Hzh];
      [rewrite Hok, Hget by auto; left; congruence|].
    destruct (decide (value = "en")) as [Hen|Hen];
      [rewrite Hok, Hget by auto; right; congruence|].
    rewrite Hbad by assumption. exact Hc.
Qed.

(** X16. Every setting is written through to config.json the moment it is
    set, so a configuration read back from the file has what was set:
    the value just written under its key, and every other key as it
    was in memory. *)
Theorem settings_survive_reload (key : string) (value : json) (c : Config) :
  let c' := _load_config (set key value c) in
  get key c' = Some value /\
  (forall other, other <> key -> get other c' = get other c) /\
  dark_mode (_load_config (set_dark_mode true c)) = JBool true /\
  dark_mode (_load_config (set_dark_mode false c)) = JBool false /\
  (forall i, active_repository_id (_load_config (set_active_repository_id (Some i) c))
             = JInt i) /\
  active_repository_id (_load_config (set_active_repository_id None c)) = JNull /\
  (forall h, master_key_hash (_load_config (set_master_key_hash h c)) = Some (JStr h)).
Proof.
  intros c'. subst c'. rewrite load_after_set.
  assert (Hget : forall k v, get k (set k v c) = Some v).
  { intros k v. unfold get, set, _save_config. cbn [_config_data].
    apply lookup_insert_eq. }
  split; [apply Hget|].
  split.
  { intros other Hne. unfold get, set, _save_config. cbn [_config_data].
    apply lookup_insert_ne. congruence. }
  unfold dark_mode, active_repository_id, master_key_hash, set_dark_mode,
    set_active_repository_id, set_master_key_hash.
  split; [rewrite load_after_set, Hget; reflexivity|].
  split; [rewrite load_after_set, Hget; reflexivity|].
  split; [intros i; rewrite load_after_set, Hget; reflexivity|].
  split; [rewrite load_after_set, Hget; reflexivity|].
  intros h. rewrite load_after_set. apply Hget.
Qed.

(** X17. Whether the application takes itself to be set up depends on the
    presence of the key entry alone: it is a first run on a fresh
    configuration, no first run once an encrypted key was stored, even
    an empty one that the getter then reads as None, and no other
    setting changes the answer. *)
Theorem is_first_run_by_presence (c : Config) (b : bytes) :
  is_first_run fresh = true /\
  is_first_run (set_encrypted_master_key b c) = false /\
  (is_first_run (set_encrypted_master_key [] c) = false /\
   encrypted_master_key (set_encrypted_master_key [] c) = Ok None) /\
  (forall key value, key <> "encrypted_master_key" ->
     is_first_run (set key value c) = is_first_run c) /\
  (forall value, is_first_run (set_language value c) = is_first_run c).
Proof.
  assert (Hset : forall b', is_first_run (set_encrypted_master_key b' c) = false).
  { intros b'. unfold is_first_run, set_encrypted_master_key, set, _save_config.
    cbn [_config_data]. apply bool_decide_eq_false_2.
    rewrite lookup_insert_eq. discriminate. }
  assert (Hother : forall key value, key <> "encrypted_master_key" ->
            is_first_run (set key value c) = is_first_run c).
  { intros key value Hne. unfold is_first_run, set, _save_config.
    cbn [_config_data]. rewrite lookup_insert_ne by exact Hne. reflexivity. }
  split; [reflexivity|]. split; [apply Hset|]. split; [|split; [exact Hother|]].
  - split; [apply Hset|]. unfold encrypted_master_key, set_encrypted_master_key.
    apply get_hex_set_hex.
  - intros value. unfold set_language.
    destruct (bool_decide _); [apply Hother; discriminate | reflexivity].
Qed.

Lemma set_language_guard_witness :
  language (set_language "en" fresh) = JStr "en" /\
  set_language "fr" fresh = fresh.
Proof.
  destruct (set_language_guard "en" fresh) as (Hok & _).
  destruct (set_language_guard "fr" fresh) as (_ & Hbad & _).
  split; [apply Hok; right; reflexivity | apply Hbad; discriminate].
Defined.

Lemma settings_survive_reload_witness :
  get "dark_mode" (_load_config (set "dark_mode" (JBool false) fresh))
    = Some (JBool false) /\
  get "language" (_load_config (set "dark_mode" (JBool false) fresh))
    = get "language" fresh.
Proof.
  destruct (settings_survive_reload "dark_mode" (JBool false) fresh)
    as (Hset & Hother & _).
  split; [exact Hset | apply Hother; discriminate].
Defined.

Lemma is_first_run_by_presence_witness :
  is_first_run (set_encrypted_master_key [x0a] fresh) = false /\
  is_first_run (set "dark_mode" (JBool false) fresh) = true.
Proof.
  destruct (is_first_run_by_presence fresh [x0a]) as (_ & Hset & _ & Hother & _).
  split; [exact Hset|]. rewrite Hother by discriminate. reflexivity.
Defined.

End settings_facts.

(* ------------------------------------------------------------------ *)
(** ** Sealing text, and checking a key *)

Section crypto_facts.
Context `{crypto.Sodium}.
Import crypto.

(** Opening a box with the key and nonce that sealed it gives the
    plaintext back. *)
Hypothesis decrypt_encrypt : forall k n m,
  secretbox_decrypt k n (secretbox_encrypt k n m) = Some m.

(** A box does not open under any other key. *)
Hypothesis decrypt_wrong_key : forall k k' n m,
  k' <> k -> secretbox_decrypt k' n (secretbox_encrypt k n m) = None.

Lemma hex_inj (a b : bytes) : Hex.hex a = Hex.hex b -> a = b.
Proof.
  intros Heq. pose proof (fromhex_hex a) as Ha. rewrite Heq, fromhex_hex in Ha.
  congruence.
Qed.

(** X18. verify_key_hash accepts a key exactly when the stored hash is the
    lowercase hex of its BLAKE2b digest: the key that was hashed always
    passes, a key with another digest never does, and nothing passes
    when the stored hash is missing or is not a string. *)
Theorem verify_key_hash_exact (key key' : bytes) :
  verify_key_hash key (Some (config.JStr (compute_key_hash key))) = true /\
  (forall s, verify_key_hash key (Some (config.JStr s)) = true <->
             s = compute_key_hash key) /\
  (verify_key_hash key (Some (config.JStr (compute_key_hash key'))) = true <->
   blake2b key 32 = blake2b key' 32) /\
  verify_key_hash key None = false /\
  (forall v, (forall s, v <> config.JStr s) -> verify_key_hash key (Some v) = false).
Proof.
  unfold verify_key_hash, compute_key_hash.
  split; [apply bool_decide_eq_true_2; reflexivity|].
  split; [|split; [|split]].
  - intros s. rewrite bool_decide_eq_true. split.
    + intros [= Hs]. symmetry. exact Hs.
    + intros ->. reflexivity.
  - rewrite bool_decide_eq_true. split.
    + intros [= Hhex]. apply hex_inj, Hhex.
    + intros ->. reflexivity.
  - apply bool_decide_eq_false_2. discriminate.
  - intros v Hv. apply bool_decide_eq_false_2. intros [= Heq].
    eapply Hv. symmetry. exact Heq.
Qed.

(** X19. Text sealed by encrypt_metadata comes back from decrypt_metadata
    under the same key and the nonce returned, which is 24 bytes long;
    under another key decrypt_metadata raises CryptoError.  A box that
    opens to bytes that are no UTF-8 text does not end in CryptoError:
    the ValueError of the decoder comes out. *)
Theorem metadata_round_trip (data : string) (key : bytes) (r : Rng) :
  utf8.valid (encode_utf8 data) = true ->
  exists ct nonce,
    encrypt_metadata data key r = (Ok (ct, nonce), advance 24 r) /\
    length nonce = 24%nat /\
    decrypt_metadata ct key nonce = Ok data /\
    (forall key', key' <> key -> decrypt_metadata ct key' nonce = Raise CryptoError) /\
    (forall raw n, utf8.valid raw = false ->
       decrypt_metadata (secretbox_encrypt key n raw) key n = Raise ValueError).
Proof.
  intros Hvalid.
  exists (secretbox_encrypt key (draw r 0 24) (encode_utf8 data)), (draw r 0 24).
  split; [reflexivity|]. split; [reflexivity|].
  unfold decrypt_metadata, decrypt_block. split; [|split].
  - rewrite decrypt_encrypt. unfold utf8.decode. rewrite Hvalid.
    unfold encode_utf8. rewrite string_of_list_byte_of_string. reflexivity.
  - intros key' Hne. rewrite decrypt_wrong_key by exact Hne. reflexivity.
  - intros raw n Hraw. rewrite decrypt_encrypt. unfold utf8.decode.
    rewrite Hraw. reflexivity.
Qed.

End crypto_facts.

Section crypto_examples.
Import reference_sodium crypto.

Lemma verify_key_hash_exact_witness :
  verify_key_hash [x01; x02] (Some (config.JStr (compute_key_hash [x01; x02]))) = true /\
  verify_key_hash [x01; x02] (Some (config.JStr (compute_key_hash [x01; x03]))) = false /\
  verify_key_hash [x01; x02] (Some (config.JInt 7)) = false.
Proof.
  destruct (verify_key_hash_exact [x01; x02] [x01; x03])
    as (Hown & _ & Hother & _ & Hshape).
  split; [exact Hown|]. split.
  - apply not_true_is_false. intros Hv. apply Hother in Hv. discriminate Hv.
  - apply Hshape. intros s. discriminate.
Defined.

Lemma metadata_round_trip_witness :
  let name := String "r" (String (ascii_of_byte xc3) (String (ascii_of_byte xa9)
                (String "s" (String "." (String "t" (String "x" (String "t" ""))))))) in
  exists ct nonce,
    encrypt_metadata name [x4b] examples.rng0 = (Ok (ct, nonce), advance 24 examples.rng0) /\
    decrypt_metadata ct [x4b] nonce = Ok name /\
    decrypt_metadata (secretbox_encrypt [x4b] nonce [xff]) [x4b] nonce = Raise ValueError.
Proof.
  intros name.
  destruct (metadata_round_trip reference_decrypt_encrypt reference_decrypt_wrong_key
              name [x4b] examples.rng0 eq_refl)
    as (ct & nonce & Hrun & _ & Hback & _ & Hraw).
  exists ct, nonce. split; [exact Hrun|]. split; [exact Hback|].
  apply Hraw. reflexivity.
Defined.

End crypto_examples.

(* ------------------------------------------------------------------ *)
(** ** Hashing and counting a host file *)

Section file_hash_facts.
Context `{crypto.Sodium} `{hash_utils.GenericHash}.
Import hash_utils.

(** Hashing piece by piece is hashing the whole. *)
Hypothesis incremental_blake2b : forall (n : Z) (chunks : list bytes),
  crypto_generichash_blake2b_final
    (fold_left crypto_generichash_blake2b_update chunks
       (crypto_generichash_blake2b_init n))
  = crypto.blake2b (concat chunks) n.

(** X20. The hash of a file, computed over chunks of 1 MiB, is the block
    hash of its whole content, so a file of one block and that block
    hash alike; a missing file raises FileNotFoundError, as it does for
    the size. *)
Theorem compute_file_hash_whole (files : gmap Path bytes) (file_path : Path) :
  match files !! file_path with
  | Some content =>
      compute_file_hash files file_path = Ok (compute_block_hash content) /\
      get_file_size files file_path = Ok (Z.of_nat (length content))
  | None =>
      compute_file_hash files file_path = Raise FileNotFoundError /\
      get_file_size files file_path = Raise FileNotFoundError
  end.
Proof.
  unfold compute_file_hash, get_file_size.
  destruct (files !! file_path) as [content|]; [|split; reflexivity].
  split; [|reflexivity].
  rewrite incremental_blake2b.
  destruct (read_chunks_spec READ_BLOCK_SIZE content) as (Hcat & _); [reflexivity|].
  rewrite Hcat. reflexivity.
Qed.

End file_hash_facts.

Section chunk_count_facts.
Import hash_utils.


End chunk_count_facts.

Section file_hash_examples.
Import reference_sodium hash_utils.

Lemma reference_incremental_blake2b (n : Z) (chunks : list bytes) :
  crypto_generichash_blake2b_final
    (fold_left crypto_generichash_blake2b_update chunks
       (crypto_generichash_blake2b_init n))
  = crypto.blake2b (concat chunks) n.
Proof.
  cbn. change (fold_left (fun state chunk => state ++ chunk) chunks [] = concat chunks).
  assert (Hgen : forall acc, fold_left (fun state chunk : bytes => state ++ chunk) chunks acc
                             = acc ++ concat chunks).
  { induction chunks as [|c cs IH]; intros acc; simpl.
    - symmetry. apply app_nil_r.
    - rewrite IH, app_assoc. reflexivity. }
  apply Hgen.
Qed.

Lemma compute_file_hash_whole_witness :
  compute_file_hash {[ ["host"; "a.bin"] := [x01; x02; x03] ]} ["host"; "a.bin"]
  = Ok (compute_block_hash [x01; x02; x03]).
Proof.
  pose proof (compute_file_hash_whole reference_incremental_blake2b
                {[ ["host"; "a.bin"] := [x01; x02; x03] ]} ["host"; "a.bin"]) as Hrun.
  rewrite lookup_singleton_eq in Hrun. apply Hrun.
Defined.


End file_hash_examples.

(* ------------------------------------------------------------------ *)
(** ** Setting up and unlocking, at their edges *)

Section unlock_facts.
Context `{crypto.Sodium}.
Import crypto main.


(** X23. One attempt at the PIN dialog never writes: whatever it ends in,
    the configuration and the random source are as before.  A master
    key is taken over only by an accepted attempt, and an accepted key
    is one that opens the stored box under the PIN entered and whose
    digest is the stored hash; an attempt that is not accepted leaves
    the application exactly as it was.  With no hash stored no PIN is
    accepted. *)
Theorem on_pin_verified_sound (pin : string) (a a' : SecureVaultApp)
    (r : result pin_reply) :
  on_pin_verified pin a = (r, a') ->
  config_ a' = config_ a /\ rng_ a' = rng_ a /\
  (r <> Ok Accept -> a' = a) /\
  (r = Ok Accept ->
   exists ek salt nonce mk,
     stored_key (config_ a) = Ok (Some ek, Some salt, Some nonce) /\
     decrypt_master_key ek pin salt nonce = Ok mk /\
     master_key a' = Some mk /\
     config.master_key_hash (config_ a) = Some (config.JStr (compute_key_hash mk))) /\
  (config.master_key_hash (config_ a) = None -> r <> Ok Accept).
Proof.
  unfold on_pin_verified.
  assert (Hsame : forall r0, (r0, a) = (r, a') -> r0 <> Ok Accept ->
            config_ a' = config_ a /\ rng_ a' = rng_ a /\
            (r <> Ok Accept -> a' = a) /\
            (r = Ok Accept ->
             exists ek salt nonce mk,
               stored_key (config_ a) = Ok (Some ek, Some salt, Some nonce) /\
               decrypt_master_key ek pin salt nonce = Ok mk /\
               master_key a' = Some mk /\
               config.master_key_hash (config_ a)
               = Some (config.JStr (compute_key_hash mk))) /\
            (config.master_key_hash (config_ a) = None -> r <> Ok Accept)).
  { intros r0 [= <- <-] Hr0. repeat split; try reflexivity; try contradiction.
    intros _. exact Hr0. }
  destruct (stored_key (config_ a)) as [[[oek os] on]|e];
    [|intros Hrun; apply (Hsame _ Hrun); discriminate].
  destruct oek as [ek|]; [|intros Hrun; apply (Hsame _ Hrun); discriminate].
  destruct os as [salt|]; [|intros Hrun; apply (Hsame _ Hrun); discriminate].
  destruct on as [nonce|]; [|intros Hrun; apply (Hsame _ Hrun); discriminate].
  destruct (decrypt_master_key ek pin salt nonce) as [mk|e] eqn:Hdec.
  2:{ destruct e; intros Hrun; apply (Hsame _ Hrun); discriminate. }
  destruct (verify_key_hash mk (config.master_key_hash (config_ a))) eqn:Hver;
    [|intros Hrun; apply (Hsame _ Hrun); discriminate].
  intros [= <- <-]. cbn [config_ rng_ master_key set_master_key].
  unfold verify_key_hash in Hver. apply bool_decide_eq_true in Hver.
  split; [reflexivity|]. split; [reflexivity|]. split; [intros Hne; contradiction|].
  split.
  - intros _. exists ek, salt, nonce, mk.
    split; [reflexivity|]. split; [exact Hdec|]. split; [reflexivity|].
    symmetry. exact Hver.
  - intros Hnone. rewrite Hnone in Hver. discriminate Hver.
Qed.

End unlock_facts.

Section unlock_examples.
Import reference_sodium crypto main.

Lemma on_pin_verified_sound_witness :
  let a := {| config_ := config.fresh; master_key := None;
              rng_ := {| entropy := fun _ => x2a; drawn := 0 |} |} in
  let a1 := snd (_first_time_setup (Some "1234") (Some [x01; x02; x03]) a) in
  let a2 := set_master_key None a1 in
  exists mk,
    on_pin_verified "1234" a2 = (Ok Accept, set_master_key (Some mk) a2) /\
    decrypt_master_key
      (key_code (encode_utf8 "1234" ++ salt_drawn (rng_ a)) ++ [x01; x02; x03])
      "1234" (salt_drawn (rng_ a)) (nonce_drawn (rng_ a)) = Ok mk /\
    config.master_key_hash (config_ a2) = Some (config.JStr (compute_key_hash mk)).
Proof.
  intros a a1 a2.
  assert (Hrun : on_pin_verified "1234" a2
                 = (Ok Accept, set_master_key (Some [x01; x02; x03]) a2))
    by (vm_compute; reflexivity).
  destruct (on_pin_verified_sound "1234" a2 _ _ Hrun)
    as (_ & _ & _ & Haccept & _).
  destruct (Haccept eq_refl) as (ek & salt & nonce & mk & Hstored & Hdec & Hkey & Hhash).
  injection Hkey as <-. injection Hstored as <- <- <-.
  exists [x01; x02; x03]. split; [exact Hrun|]. split; [exact Hdec | exact Hhash].
Defined.


End unlock_examples.

(* ------------------------------------------------------------------ *)
(** ** Changing the PIN *)

Section pin_change_facts.
Context `{crypto.Sodium}.
Import crypto pin_change.

(** Opening a box with the key and nonce that sealed it gives the
    plaintext back. *)
Hypothesis decrypt_encrypt : forall k n m,
  secretbox_decrypt k n (secretbox_encrypt k n m) = Some m.

(** A box does not open under any other key. *)
Hypothesis decrypt_wrong_key : forall k k' n m,
  k' <> k -> secretbox_decrypt k' n (secretbox_encrypt k n m) = None.

(** A sealed box carries its authenticator: it is never empty. *)
Hypothesis encrypt_nonempty : forall k n m, secretbox_encrypt k n m <> [].

Lemma stored_key_after_change (ek s n : bytes) (c : config.Config) :
  ek <> [] -> s <> [] -> n <> [] ->
  let c' := config.set_master_key_nonce n
              (config.set_master_key_salt s
                 (config.set_encrypted_master_key ek c)) in
  main.stored_key c' = Ok (Some ek, Some s, Some n) /\
  config.master_key_hash c' = config.master_key_hash c.
Proof.
  intros Hek Hs Hn c'. subst c'.
  unfold main.stored_key, config.encrypted_master_key, config.master_key_salt,
    config.master_key_nonce, config.set_master_key_nonce, config.set_master_key_salt,
    config.set_encrypted_master_key.
  rewrite !get_hex_set_ne by discriminate. rewrite get_hex_set_hex.
  rewrite bool_decide_eq_false_2 by exact Hek.
  rewrite !get_hex_set_ne by discriminate. rewrite get_hex_set_hex.
  rewrite bool_decide_eq_false_2 by exact Hs.
  rewrite get_hex_set_hex.
  rewrite bool_decide_eq_false_2 by exact Hn.
  split; [reflexivity|].
  unfold config.master_key_hash, config.get, config.set, config._save_config.
  cbn [config._config_data]. rewrite !lookup_insert_ne by discriminate. reflexivity.
Qed.

(** What a click on the change button has checked when it goes
    through to the new key material. *)
Lemma on_change_changed (current_pin new_pin confirm_pin : string)
    (d d' : PinChangeDialog) :
  _on_change current_pin new_pin confirm_pin d = (Ok Changed, d') ->
  exists ek salt nonce mk,
    current_pin <> "" /\ (4 <= utf8.str_len new_pin)%nat /\
    confirm_pin = new_pin /\ current_pin <> new_pin /\
    main.stored_key (config_ d) = Ok (Some ek, Some salt, Some nonce) /\
    decrypt_master_key ek current_pin salt nonce = Ok mk /\
    verify_key_hash mk (config.master_key_hash (config_ d)) = true /\
    d' = {| config_ :=
              config.set_master_key_nonce (nonce_drawn (rng_ d))
                (config.set_master_key_salt (salt_drawn (rng_ d))
                   (config.set_encrypted_master_key
                      (secretbox_encrypt
                         (derive_key_from_pin new_pin (salt_drawn (rng_ d)))
                         (nonce_drawn (rng_ d)) mk)
                      (config_ d)));
            _master_key := Some mk;
            rng_ := advance 40 (rng_ d) |}.
Proof.
  unfold _on_change.
  destruct (String.eqb_spec current_pin "") as [|Hcur]; [discriminate|].
  destruct (Nat.ltb_spec (utf8.str_len new_pin) 4) as [|Hlen]; [discriminate|].
  destruct (String.eqb_spec new_pin confirm_pin) as [Hconf|]; [|discriminate].
  cbn [negb].
  destruct (String.eqb_spec current_pin new_pin) as [|Hdiff]; [discriminate|].
  destruct (main.stored_key (config_ d)) as [[[oek os] on]|e]; [|discriminate].
  destruct oek as [ek|]; [|discriminate].
  destruct os as [salt|]; [|discriminate].
  destruct on as [nonce|]; [|discriminate].
  destruct (decrypt_master_key ek current_pin salt nonce) as [mk|e] eqn:Hdec;
    [|destruct e; discriminate].
  destruct (verify_key_hash mk (config.master_key_hash (config_ d))) eqn:Hver;
    [|discriminate].
  cbn [negb]. rewrite encrypt_master_key_run.
  intros [= <-]. exists ek, salt, nonce, mk. repeat split; auto.
Qed.

(** X24. A PIN change re-wraps the same master key.  When the change goes
    through, the current PIN was the one that unlocked the vault, the
    key it unlocked is the key the new PIN unlocks from then on, and
    the stored hash is untouched; a PIN whose derived key differs from
    that of the new PIN, the old one among them, is refused from then
    on.  The new PIN has at least four characters, was typed twice
    alike and differs from the old one. *)
Theorem pin_change_rewraps (current_pin new_pin confirm_pin : string)
    (d d' : PinChangeDialog) :
  _on_change current_pin new_pin confirm_pin d = (Ok Changed, d') ->
  let before := {| main.config_ := config_ d; main.master_key := None;
                   main.rng_ := rng_ d |} in
  let after := {| main.config_ := config_ d'; main.master_key := None;
                  main.rng_ := rng_ d' |} in
  exists mk,
    _master_key d' = Some mk /\
    main.on_pin_verified current_pin before
      = (Ok main.Accept, main.set_master_key (Some mk) before) /\
    main.on_pin_verified new_pin after
      = (Ok main.Accept, main.set_master_key (Some mk) after) /\
    config.master_key_hash (config_ d') = config.master_key_hash (config_ d) /\
    (forall P,
        derive_key_from_pin P (salt_drawn (rng_ d))
          <> derive_key_from_pin new_pin (salt_drawn (rng_ d)) ->
        main.on_pin_verified P after = (Ok main.ShowErrorDecrypt, after)) /\
    confirm_pin = new_pin /\ current_pin <> new_pin /\
    (4 <= utf8.str_len new_pin)%nat.
Proof.
  intros Hrun before after.
  destruct (on_change_changed _ _ _ _ _ Hrun)
    as (ek & salt & nonce & mk & Hcur & Hlen & Hconf & Hdiff & Hstored & Hdec
        & Hver & Hd').
  destruct (stored_key_after_change
              (secretbox_encrypt (derive_key_from_pin new_pin (salt_drawn (rng_ d)))
                 (nonce_drawn (rng_ d)) mk)
              (salt_drawn (rng_ d)) (nonce_drawn (rng_ d)) (config_ d)
              (encrypt_nonempty _ _ _) (salt_drawn_nonempty _)
              (nonce_drawn_nonempty _)) as (Hstored' & Hhash').
  exists mk. subst after before. rewrite Hd'. cbn [config_ _master_key rng_].
  split; [reflexivity|]. split; [|split; [|split; [exact Hhash'|split]]].
  - unfold main.on_pin_verified. cbn [main.config_]. rewrite Hstored, Hdec, Hver.
    reflexivity.
  - unfold main.on_pin_verified. cbn [main.config_]. rewrite Hstored'.
    unfold decrypt_master_key. rewrite decrypt_encrypt, Hhash', Hver. reflexivity.
  - intros P HP. unfold main.on_pin_verified. cbn [main.config_]. rewrite Hstored'.
    unfold decrypt_master_key. rewrite decrypt_wrong_key by exact HP. reflexivity.
  - auto.
Qed.


End pin_change_facts.

Section pin_change_examples.
Import reference_sodium crypto pin_change.

Lemma pin_change_rewraps_witness :
  let a := {| main.config_ := config.fresh; main.master_key := None;
              main.rng_ := {| entropy := fun _ => x2a; drawn := 0 |} |} in
  let a1 := snd (main._first_time_setup (Some "1234") (Some [x01; x02; x03]) a) in
  let d := {| config_ := main.config_ a1; _master_key := None;
              rng_ := {| entropy := fun _ => x07; drawn := 5 |} |} in
  exists d',
    _on_change "1234" "98765" "98765" d = (Ok Changed, d') /\
    _master_key d' = Some [x01; x02; x03] /\
    main.on_pin_verified "1234"
      {| main.config_ := config_ d'; main.master_key := None; main.rng_ := rng_ d' |}
    = (Ok main.ShowErrorDecrypt,
       {| main.config_ := config_ d'; main.master_key := None; main.rng_ := rng_ d' |}).
Proof.
  intros a a1 d.
  remember (_on_change "1234" "98765" "98765" d) as res eqn:Hrun.
  assert (Hchanged : match res with (Ok Changed, _) => True | _ => False end)
    by (rewrite Hrun; vm_compute; exact I).
  destruct res as [[[m|]|e] d']; try contradiction. symmetry in Hrun.
  destruct (pin_change_rewraps reference_decrypt_encrypt reference_decrypt_wrong_key
              reference_encrypt_nonempty "1234" "98765" "98765" d d' Hrun)
    as (mk & Hkey & Hold & _ & _ & Hrefuse & _).
  exists d'. split; [reflexivity|]. split.
  - rewrite Hkey. f_equal.
    assert (Hacc : main.on_pin_verified "1234"
                     {| main.config_ := config_ d; main.master_key := None;
                        main.rng_ := rng_ d |}
                   = (Ok main.Accept,
                      main.set_master_key (Some [x01; x02; x03])
                        {| main.config_ := config_ d; main.master_key := None;
                           main.rng_ := rng_ d |}))
      by (vm_compute; reflexivity).
    rewrite Hacc in Hold. injection Hold as Hmk. symmetry. exact Hmk.
  - apply Hrefuse. cbn. intros Heq. discriminate Heq.
Defined.


End pin_change_examples.

(* ------------------------------------------------------------------ *)
(** ** A name that is free *)

Section unique_name_facts.
Import file_utils.
Variables stem suffix : string -> string.

Lemma string_app_inv_head (s t u : string) : s +:+ t = s +:+ u -> t = u.
Proof.
  induction s as [|c s IH]; [auto|].
  rewrite !string_app_cons. intros [= Heq]. apply IH, Heq.
Qed.

Lemma string_app_length (s t : string) :
  String.length (s +:+ t) = (String.length s + String.length t)%nat.
Proof.
  induction s as [|c s IH]; [reflexivity|].
  rewrite string_app_cons. simpl. rewrite IH. reflexivity.
Qed.

Lemma string_app_inv_same_length (a b t u : string) :
  String.length a = String.length b -> a +:+ t = b +:+ u -> a = b.
Proof.
  revert b. induction a as [|c a IH]; intros [|c' b] Hlen; try discriminate Hlen.
  - reflexivity.
  - rewrite !string_app_cons. intros [= -> Heq]. f_equal.
    apply IH; [simpl in Hlen; lia | exact Heq].
Qed.

(** Different counters give different names. *)
Lemma new_name_inj (name : string) (n m : nat) :
  new_name stem suffix name n = new_name stem suffix name m -> n = m.
Proof.
  unfold new_name. intros Heq.
  apply string_app_inv_head, string_app_inv_head in Heq.
  apply (inj pretty).
  apply (string_app_inv_same_length _ _ _ _) in Heq as Hpre; [exact Hpre|].
  apply (f_equal String.length) in Heq. rewrite !string_app_length in Heq. lia.
Qed.

(** Among one more candidate than there are names in the way, one is
    free. *)
Lemma free_candidate (name : string) (existing_names : gset string) :
  exists k, (1 <= k <= S (size existing_names))%nat /\
            new_name stem suffix name k ∉ existing_names.
Proof.
  set (n := size existing_names).
  set (candidates := new_name stem suffix name <$> seq 1 (S n)).
  destruct (decide (Forall (fun c => c ∈ existing_names) candidates)) as [Hall|Hsome].
  - exfalso.
    assert (Hnd : NoDup candidates).
    { apply NoDup_fmap_2_strong; [|apply NoDup_seq].
      intros i j _ _ Heq. apply (new_name_inj name), Heq. }
    assert (Hsub : list_to_set candidates ⊆ existing_names).
    { intros c Hc. apply elem_of_list_to_set in Hc.
      rewrite Forall_forall in Hall. apply Hall, Hc. }
    apply subseteq_size in Hsub. rewrite size_list_to_set in Hsub by exact Hnd.
    subst candidates. rewrite length_fmap, length_seq in Hsub. lia.
  - apply not_Forall_Exists in Hsome; [|intros c; apply _].
    apply Exists_exists in Hsome as (c & Hc & Hfree).
    apply list_elem_of_fmap in Hc as (k & -> & Hk). apply elem_of_seq in Hk.
    exists k. split; [lia | exact Hfree].
Qed.

Lemma first_free_run (name : string) (existing_names : gset string) (fuel : nat) :
  forall counter k,
    (counter <= k < counter + fuel)%nat ->
    new_name stem suffix name k ∉ existing_names ->
    (forall j, (counter <= j < k)%nat ->
               new_name stem suffix name j ∈ existing_names) ->
    first_free stem suffix name existing_names fuel counter
    = Some (new_name stem suffix name k).
Proof.
  induction fuel as [|fuel IH]; intros counter k Hk Hfree Hbelow; [lia|].
  cbn [first_free].
  destruct (decide (counter = k)) as [->|Hne].
  - rewrite bool_decide_eq_false_2 by exact Hfree. reflexivity.
  - rewrite bool_decide_eq_true_2 by (apply Hbelow; lia).
    apply IH; [lia | exact Hfree | intros j Hj; apply Hbelow; lia].
Qed.

(** The least index from [lo] on whose candidate is free, below a free
    one. *)
Lemma least_free (name : string) (existing_names : gset string) (k : nat) :
  forall lo, (lo <= k)%nat ->
    new_name stem suffix name k ∉ existing_names ->
    exists k', (lo <= k' <= k)%nat /\
               (new_name stem suffix name k' ∉ existing_names) /\
               forall j, (lo <= j < k')%nat ->
                         new_name stem suffix name j ∈ existing_names.
Proof.
  intros lo Hlo Hfree.
  remember (k - lo)%nat as gap eqn:Hgap. revert lo Hlo Hgap.
  induction gap as [|gap IH]; intros lo Hlo Hgap.
  - exists k. split; [lia|]. split; [exact Hfree|]. intros j Hj. lia.
  - destruct (decide (new_name stem suffix name lo ∈ existing_names)) as [Hin|Hout].
    + destruct (IH (S lo)) as (k' & Hk' & Hf & Hb); [lia | lia |].
      exists k'. split; [lia|]. split; [exact Hf|].
      intros j Hj. destruct (decide (j = lo)) as [->|?]; [exact Hin | apply Hb; lia].
    + exists lo. split; [lia|]. split; [exact Hout|]. intros j Hj. lia.
Qed.

(** X26. get_unique_filename always comes back, although its loop has no
    bound, and what it returns is not among the existing names.  A name
    that is free is returned as it is; otherwise the result is
    "stem (k)suffix" for the least k from 1 on that is free, so k is at
    most one more than the number of existing names. *)
Theorem get_unique_filename_spec (name : string) (existing_names : gset string) :
  exists result,
    get_unique_filename stem suffix name existing_names = Some result /\
    (result ∉ existing_names) /\
    (name ∉ existing_names -> result = name) /\
    (name ∈ existing_names ->
     exists k, (1 <= k <= S (size existing_names))%nat /\
               result = new_name stem suffix name k /\
               forall j, (1 <= j < k)%nat ->
                         new_name stem suffix name j ∈ existing_names).
Proof.
  unfold get_unique_filename.
  destruct (decide (name ∈ existing_names)) as [Hin|Hout].
  - rewrite bool_decide_eq_true_2 by exact Hin.
    destruct (free_candidate name existing_names) as (k0 & Hk0 & Hfree0).
    destruct (least_free name existing_names k0 1) as (k & Hk & Hfree & Hbelow);
      [lia | exact Hfree0 |].
    exists (new_name stem suffix name k).
    split; [apply first_free_run; [lia | exact Hfree | exact Hbelow]|].
    split; [exact Hfree|]. split; [contradiction|].
    intros _. exists k. split; [lia|]. split; [reflexivity | exact Hbelow].
  - rewrite bool_decide_eq_false_2 by exact Hout.
    exists name. split; [reflexivity|]. split; [exact Hout|].
    split; [reflexivity | contradiction].
Qed.

End unique_name_facts.

Section unique_name_examples.
Import file_utils.

(** "file.txt" taken, and "file (1).txt" too. *)
Example get_unique_filename_run :
  get_unique_filename (fun _ => "file") (fun _ => ".txt") "file.txt"
    {[ "file.txt"; "file (1).txt" ]}
  = Some "file (2).txt".
Proof. vm_compute. reflexivity. Qed.

Lemma get_unique_filename_spec_witness :
  exists result,
    get_unique_filename (fun _ => "file") (fun _ => ".txt") "file.txt"
      {[ "file.txt"; "file (1).txt" ]} = Some result /\
    result ∉ ({[ "file.txt"; "file (1).txt" ]} : gset string).
Proof.
  destruct (get_unique_filename_spec (fun _ => "file") (fun _ => ".txt") "file.txt"
              {[ "file.txt"; "file (1).txt" ]})
    as (result & Hrun & Hfree & _).
  exists result. split; [exact Hrun | exact Hfree].
Defined.

End unique_name_examples.

(* ------------------------------------------------------------------ *)
(** ** References taken and given back *)

Section reference_facts.
Import world models Block block_manager repository.

Lemma add_reference_back (b : Block) (d : Z) :
  add_reference (- d) (add_reference d b) = b.
Proof.
  destruct b. unfold add_reference. cbn. f_equal. lia.
Qed.

Lemma update_reference_back (rows : list Block) (i d : Z) :
  update_reference i (- d) (update_reference i d rows) = rows.
Proof.
  unfold update_reference. rewrite map_map. rewrite <- (map_id rows) at 2.
  apply map_ext. intros b. destruct (has_id i b) eqn:Hb.
  - rewrite has_id_add_reference, Hb. apply add_reference_back.
  - rewrite Hb. reflexivity.
Qed.

(** X27. A reference taken by a store that found the block, and given back
    by delete_block, leaves the table exactly as it was: the row has
    its old count, no row is deleted, and the disk is not touched by
    either call. *)
Theorem store_hit_then_delete_restores (self : BlockManager) (p : prepared.t)
    (w w1 : World) (blk : Block) :
  table_ok w ->
  store_prepared_block self p w = (Ok (blk, false), w1) ->
  exists w2,
    delete_block self blk w1 = (Ok false, w2) /\
    blk ∈ blocks w /\ hash blk = prepared.hash p /\
    blocks w2 = blocks w /\ blocks_seq w2 = blocks_seq w /\
    files w2 = files w /\ dirs w2 = dirs w /\ free_space w2 = free_space w /\
    trace w2 = trace w ++ [EvUpdateRef (id blk) 1; EvUpdateRef (id blk) (-1)].
Proof.
  intros (Hid & _ & Hcount & _). unfold store_prepared_block, bind.
  rewrite get_by_hash_run.
  destruct (find _ (blocks w)) as [existing|] eqn:Hfind.
  2:{ destruct (mkdir_parents _ w) as [[[]|e1] w0]; [|discriminate].
      destruct (write_file _ _ w0) as [[[]|e2] w2]; [|discriminate].
      destruct (create _ _ _ _ _ w2) as [[b|e3] w3]; discriminate. }
  apply find_some_elem in Hfind as [Hin Hhash].
  apply String.eqb_eq in Hhash.
  unfold increment_reference. destruct (db_writable w) eqn:Hdb; [|discriminate].
  intros [= <- <-].
  set (w1 := log _ _).
  assert (Hrow : add_reference 1 existing ∈ blocks w1).
  { cbn [blocks w1 log set_blocks]. unfold update_reference.
    apply list_elem_of_fmap. exists existing. split; [|exact Hin].
    unfold has_id. rewrite Z.eqb_refl. reflexivity. }
  assert (Hpos : 1 <= reference_count existing).
  { rewrite Forall_forall in Hcount. apply Hcount, Hin. }
  assert (Hnd1 : NoDup (map id (blocks w1))).
  { cbn [blocks w1 log set_blocks]. rewrite map_id_update_reference. exact Hid. }
  unfold delete_block, bind, decrement_reference.
  change (db_writable w1) with (db_writable w). rewrite Hdb.
  change (id existing) with (id (add_reference 1 existing)) at 1 2.
  rewrite (find_update_reference (blocks w1) (add_reference 1 existing) (-1) Hnd1 Hrow).
  cbn [reference_count add_reference id].
  destruct (Z.eqb_spec (reference_count existing + 1 + -1) 0) as [Hz|_]; [lia|].
  eexists. split; [reflexivity|].
  cbn [blocks blocks_seq files dirs free_space trace w1 log set_blocks].
  split; [exact Hin|]. split; [exact Hhash|].
  split; [change (-1) with (- (1)); apply update_reference_back|].
  rewrite <- app_assoc. repeat split.
Qed.

(** X28. Releasing a block takes away no other block's blob: when no two
    rows share a blob path and every row has its blob on disk, the same
    holds for the rows that remain after delete_block has returned. *)
Theorem delete_keeps_blobs (self : BlockManager) (block : Block)
    (w w' : World) (removed : bool) :
  let blob_of := fun b : Block => joinpath (blocks_dir self) (relative_path b) in
  NoDup (map id (blocks w)) ->
  NoDup (map blob_of (blocks w)) ->
  block ∈ blocks w ->
  blobs_on_disk self w ->
  delete_block self block w = (Ok removed, w') ->
  blobs_on_disk self w' /\
  (removed = true -> is_file (blob_of block) w' = false /\ block ∉ blocks w') /\
  (removed = false -> is_file (blob_of block) w' = true).
Proof.
  intros blob_of Hid Hpaths Hin Hblobs Hrun.
  assert (Hdb : db_writable w = true).
  { unfold delete_block, bind, decrement_reference in Hrun.
    destruct (db_writable w); [reflexivity | discriminate Hrun]. }
  assert (Hall : forall b, b ∈ blocks w -> is_file (blob_of b) w = true).
  { unfold blobs_on_disk in Hblobs. rewrite Forall_forall in Hblobs. exact Hblobs. }
  revert Hrun.
  destruct (Z.eq_dec (reference_count block) 1) as [Hone|Hmore].
  - (* the last reference *)
    unfold delete_block, bind. rewrite decrement_reference_run by assumption.
    rewrite Hone. change (1 - 1 =? 0) with true. cbv beta iota.
    unfold delete_block_file. cbv beta zeta. fold (blob_of block).
    set (w1 := log _ _).
    assert (Hex : path_exists (blob_of block) w1 = true).
    { unfold path_exists. change (is_file (blob_of block) w1)
        with (is_file (blob_of block) w). rewrite (Hall block Hin). reflexivity. }
    rewrite Hex. unfold bind, unlink. change (files w1) with (files w).
    pose proof (Hall block Hin) as Hblob.
    unfold is_file in Hblob. apply bool_decide_eq_true in Hblob as [data Hdata].
    rewrite Hdata. unfold ret, Block.delete. cbv beta iota.
    cbn [db_writable log set_files set_blocks w1]. rewrite Hdb.
    intros [= <- <-]. cbn [blocks files log set_files set_blocks].
    rewrite filter_update_reference.
    split; [|split; [|discriminate]].
    + unfold blobs_on_disk. cbn [blocks]. apply Forall_forall. intros b Hb.
      apply list_elem_of_filter in Hb as [Hne Hb].
      unfold is_file. cbn [files log set_blocks set_files].
      rewrite lookup_delete_ne; [apply (Hall b Hb)|].
      intros Heq.
      assert (block = b) by (apply (NoDup_fmap_eq blob_of (blocks w)); assumption).
      subst b. unfold has_id in Hne. rewrite Z.eqb_refl in Hne. discriminate Hne.
    + intros _. split.
      * unfold is_file. cbn [files log set_blocks set_files].
        apply bool_decide_eq_false_2. rewrite lookup_delete_eq. intros [x Hx]. discriminate Hx.
      * intros Hb. apply list_elem_of_filter in Hb as [Hne _].
        unfold has_id in Hne. rewrite Z.eqb_refl in Hne. discriminate Hne.
  - (* references remain *)
    rewrite (delete_shared_run self block block w Hdb Hid Hin eq_refl Hmore).
    intros [= <- <-].
    split; [|split; [discriminate|intros _; apply (Hall block Hin)]].
    unfold blobs_on_disk. cbn [blocks log set_blocks]. unfold update_reference.
    apply Forall_fmap, Forall_forall. intros b Hb. unfold compose.
    destruct (has_id _ b); apply (Hall b Hb).
Qed.

End reference_facts.

(* ------------------------------------------------------------------ *)
(** ** Blocks do not disturb each other *)

Section frame_facts.
Context `{crypto.Sodium}.
Import world models Block block_manager.

(** What a block reads as depends on the file at its blob path only. *)
Lemma retrieve_block_data_run (self : BlockManager) (block : Block) (w : World)
    (data : bytes) :
  retrieve_block_data self block w = (Ok data, w) <->
  exists ct,
    files w !! joinpath (blocks_dir self) (relative_path block) = Some ct /\
    crypto.decrypt_block ct
      (crypto.derive_file_key (master_key self) (salt block)) (nonce block) = Ok data.
Proof.
  unfold retrieve_block_data, path_exists, is_file, read_file.
  destruct (files w !! _) as [ct|] eqn:Hct.
  - rewrite bool_decide_eq_true_2 by eauto. cbn [orb negb]. split.
    + intros [= Hdec]. exists ct. split; [reflexivity | exact Hdec].
    + intros (ct' & [= <-] & Hdec). rewrite Hdec. reflexivity.
  - rewrite bool_decide_eq_false_2 by (intros [x Hx]; discriminate Hx).
    cbn [orb]. split.
    + destruct (is_dir _ w); cbn [negb]; discriminate.
    + intros (ct & Hx & _). discriminate Hx.
Qed.

(** Files at other paths are as before after a store, however it
    ended. *)
Lemma store_frame (self : BlockManager) (p : prepared.t) (w w' : World)
    (r : result (Block * bool)) (q : Path) :
  store_prepared_block self p w = (r, w') ->
  q <> joinpath (blocks_dir self) (prepared.relative_path p) ->
  files w' !! q = files w !! q.
Proof.
  unfold store_prepared_block, bind. rewrite get_by_hash_run.
  destruct (find _ (blocks w)) as [existing|].
  - unfold increment_reference. destruct (db_writable w); intros [= _ <-]; reflexivity.
  - destruct (mkdir_parents _ w) as [[[]|e1] w1] eqn:Hmk;
      apply mkdir_parents_files in Hmk as (_ & _ & Hf1 & _).
    2:{ intros [= _ <-] _. rewrite Hf1. reflexivity. }
    destruct (write_file _ _ w1) as [[[]|e2] w2] eqn:Hwr.
    2:{ apply write_file_raises in Hwr as (_ & _ & Hother & _).
        intros [= _ <-] Hq. rewrite (Hother q Hq), Hf1. reflexivity. }
    apply write_file_ok in Hwr as (_ & _ & Hf2 & _).
    assert (Hkeep : q <> joinpath (blocks_dir self) (prepared.relative_path p) ->
                    files w2 !! q = files w !! q).
    { intros Hq. rewrite Hf2, lookup_insert_ne by congruence. rewrite Hf1.
      reflexivity. }
    unfold create. destruct (negb (db_writable w2)); [intros [= _ <-]; exact Hkeep|].
    destruct (existsb _ _); intros [= _ <-]; exact Hkeep.
Qed.

(** Files at other paths are as before after a release, however it
    ended. *)
Lemma delete_frame (self : BlockManager) (other : Block) (w w' : World)
    (r : result bool) (q : Path) :
  delete_block self other w = (r, w') ->
  q <> joinpath (blocks_dir self) (relative_path other) ->
  files w' !! q = files w !! q.
Proof.
  unfold delete_block, bind, decrement_reference.
  destruct (db_writable w) eqn:Hdb; [|intros [= _ <-]; reflexivity].
  set (w1 := log _ _).
  destruct (match find _ _ with Some row => _ | None => false end);
    [|intros [= _ <-]; reflexivity].
  unfold delete_block_file. cbv beta zeta.
  destruct (path_exists _ w1).
  - unfold bind, unlink. change (files w1) with (files w).
    destruct (files w !! joinpath _ (relative_path other)) as [data|].
    + unfold ret, Block.delete. cbv beta iota.
      cbn [db_writable log set_files set_blocks w1]. rewrite Hdb.
      intros [= _ <-] Hq. cbn [files log set_blocks set_files].
      apply lookup_delete_ne. congruence.
    + intros [= _ <-]. reflexivity.
  - unfold Block.delete. cbv beta iota. cbn [db_writable log set_blocks w1].
    rewrite Hdb. intros [= _ <-]. reflexivity.
Qed.

(** X30. A block that can be read stays readable, with the same data,
    whatever is stored or released next to it: a store of a prepared
    block with another blob path and a release of a block with another
    blob path leave it as it was, whether they returned or raised. *)
Theorem retrieve_unaffected (self : BlockManager) (block : Block) (w : World)
    (data : bytes) :
  let blob := joinpath (blocks_dir self) (relative_path block) in
  retrieve_block_data self block w = (Ok data, w) ->
  (forall p r w',
      store_prepared_block self p w = (r, w') ->
      joinpath (blocks_dir self) (prepared.relative_path p) <> blob ->
      retrieve_block_data self block w' = (Ok data, w')) /\
  (forall other r w',
      delete_block self other w = (r, w') ->
      joinpath (blocks_dir self) (relative_path other) <> blob ->
      retrieve_block_data self block w' = (Ok data, w')).
Proof.
  intros blob Hread. apply retrieve_block_data_run in Hread as (ct & Hct & Hdec).
  split.
  - intros p r w' Hrun Hpath. apply retrieve_block_data_run. exists ct.
    split; [|exact Hdec]. fold blob.
    rewrite (store_frame self p w w' r blob Hrun) by congruence. exact Hct.
  - intros other r w' Hrun Hpath. apply retrieve_block_data_run. exists ct.
    split; [|exact Hdec]. fold blob.
    rewrite (delete_frame self other w w' r blob Hrun) by congruence. exact Hct.
Qed.

End frame_facts.

Section reference_examples.
Import world models Block block_manager repository examples.

Lemma store_hit_then_delete_restores_witness :
  exists w1 w2,
    store_prepared_block bm pb one_block_repo = (Ok (row, false), w1) /\
    delete_block bm row w1 = (Ok false, w2) /\
    blocks w2 = [row] /\ files w2 = files one_block_repo.
Proof.
  assert (Hrun : store_prepared_block bm pb one_block_repo
                 = (Ok (row, false), snd (store_prepared_block bm pb one_block_repo)))
    by reflexivity.
  destruct (store_hit_then_delete_restores bm pb one_block_repo _ row
              table_ok_one_block_repo Hrun)
    as (w2 & Hdel & _ & _ & Hrows & _ & Hfiles & _).
  eexists _, w2. split; [exact Hrun|]. split; [exact Hdel|].
  split; [exact Hrows | exact Hfiles].
Defined.

Lemma delete_keeps_blobs_witness :
  exists w',
    delete_block bm row one_block_repo = (Ok true, w') /\
    blobs_on_disk bm w' /\ is_file blob w' = false.
Proof.
  destruct one_block_repo_ready as (Hdb & Hnd & Hin & Hnodir).
  pose proof (delete_last_reference_run bm row one_block_repo Hdb Hnd Hin Hnodir
                eq_refl) as Hrun.
  assert (Hpaths : NoDup (map (fun b => joinpath (blocks_dir bm) (relative_path b))
                            (blocks one_block_repo)))
    by (simpl; apply NoDup_singleton).
  assert (Hall : blobs_on_disk bm one_block_repo)
    by (unfold blobs_on_disk; cbn [blocks one_block_repo]; repeat constructor).
  destruct (delete_keeps_blobs bm row one_block_repo _ true Hnd Hpaths Hin Hall Hrun)
    as (Hblobs & Hgone & _).
  eexists. split; [exact Hrun|]. split; [exact Hblobs|]. apply Hgone. reflexivity.
Defined.

End reference_examples.

(* ------------------------------------------------------------------ *)
(** ** A damaged configuration *)

Section damaged_config_facts.
Context `{crypto.Sodium}.
Import config.

Lemma get_hex_outcome (key : string) (c : Config) :
  (exists ob, get_hex key c = Ok ob) \/
  get_hex key c = Raise ValueError \/ get_hex key c = Raise TypeError.
Proof.
  unfold get_hex. destruct (get key c) as [v|]; [|left; eauto].
  destruct (truthy v); [|left; eauto].
  destruct v as [|b|z|s]; auto.
  destruct (Hex.fromhex s); [left; eauto | auto].
Qed.

Lemma get_hex_damaged (key : string) (v : json) (c : Config) :
  get key c = Some v -> truthy v = true ->
  (forall s, v = JStr s -> Hex.fromhex s = None) ->
  get_hex key c = Raise ValueError \/ get_hex key c = Raise TypeError.
Proof.
  intros Hget Htruthy Hbad. unfold get_hex. rewrite Hget, Htruthy.
  destruct v as [|b|z|s]; auto. rewrite (Hbad s eq_refl). auto.
Qed.

(** X29. With one of the three stored key fields damaged (a text that is no
    hex, or a value that is no text), no PIN gets an answer: every
    attempt at the PIN dialog raises ValueError or TypeError instead of
    accepting or refusing the PIN, and so does every PIN change that
    passed its input checks; nothing is changed by either. *)
Theorem damaged_field_raises (key : string) (v : json) (c : Config) :
  key ∈ ["encrypted_master_key"; "master_key_salt"; "master_key_nonce"] ->
  get key c = Some v -> truthy v = true ->
  (forall s, v = JStr s -> Hex.fromhex s = None) ->
  exists e,
    (e = ValueError \/ e = TypeError) /\
    main.stored_key c = Raise e /\
    (forall pin a, main.config_ a = c ->
       main.on_pin_verified pin a = (Raise e, a)) /\
    (forall current_pin new_pin d,
       pin_change.config_ d = c ->
       current_pin <> "" -> (4 <= utf8.str_len new_pin)%nat ->
       current_pin <> new_pin ->
       pin_change._on_change current_pin new_pin new_pin d = (Raise e, d)).
Proof.
  intros Hkey Hget Htruthy Hbad.
  pose proof (get_hex_damaged key v c Hget Htruthy Hbad) as Hdamaged.
  assert (Hstored : exists e, (e = ValueError \/ e = TypeError) /\
                              main.stored_key c = Raise e).
  { unfold main.stored_key, encrypted_master_key, master_key_salt, master_key_nonce.
    destruct (get_hex_outcome "encrypted_master_key" c) as [[ek Hek] | [Hek | Hek]];
      rewrite Hek; [|eauto|eauto].
    destruct (get_hex_outcome "master_key_salt" c) as [[s Hs] | [Hs | Hs]];
      rewrite Hs; [|eauto|eauto].
    destruct (get_hex_outcome "master_key_nonce" c) as [[n Hn] | [Hn | Hn]];
      rewrite Hn; [|eauto|eauto].
    exfalso.
    repeat (apply elem_of_cons in Hkey as [-> | Hkey]);
      [| | |inversion Hkey];
      destruct Hdamaged as [Hd | Hd]; congruence. }
  destruct Hstored as (e & He & Hstored). exists e.
  split; [exact He|]. split; [exact Hstored|]. split.
  - intros pin a <-. unfold main.on_pin_verified. rewrite Hstored. reflexivity.
  - intros current_pin new_pin d <- Hcur Hlen Hdiff. unfold pin_change._on_change.
    destruct (String.eqb_spec current_pin "") as [|_]; [contradiction|].
    destruct (Nat.ltb_spec (utf8.str_len new_pin) 4) as [|_]; [lia|].
    rewrite String.eqb_refl. cbn [negb].
    destruct (String.eqb_spec current_pin new_pin) as [|_]; [contradiction|].
    rewrite Hstored. reflexivity.
Qed.

End damaged_config_facts.

Section damaged_config_examples.
Import reference_sodium config.

Lemma damaged_field_raises_witness :
  let c := set "master_key_salt" (JStr "0g") (set_encrypted_master_key [x0a] fresh) in
  let a := {| main.config_ := c; main.master_key := None;
              main.rng_ := examples.rng0 |} in
  exists e, main.on_pin_verified "1234" a = (Raise e, a) /\ is_Exception e = true.
Proof.
  intros c a.
  destruct (damaged_field_raises "master_key_salt" (JStr "0g") c)
    as (e & He & _ & Hpin & _).
  - right. left.
  - reflexivity.
  - reflexivity.
  - intros s [= <-]. reflexivity.
  - exists e. split; [apply Hpin; reflexivity|].
    destruct He as [-> | ->]; reflexivity.
Defined.

End damaged_config_examples.

Section frame_examples.
Import reference_sodium world models Block block_manager examples.

Lemma retrieve_unaffected_witness :
  let stored := store_block bm [x68; x69] empty_repo in
  let blk := match fst stored with Ok (b, _) => b | Raise _ => row end in
  let w1 := snd stored in
  let w2 := snd (store_prepared_block bm pb w1) in
  retrieve_block_data bm blk w1 = (Ok [x68; x69], w1) /\
  retrieve_block_data bm blk w2 = (Ok [x68; x69], w2).
Proof.
  intros stored blk w1 w2.
  assert (Hread : retrieve_block_data bm blk w1 = (Ok [x68; x69], w1))
    by (vm_compute; reflexivity).
  split; [exact Hread|].
  destruct (retrieve_unaffected bm blk w1 [x68; x69] Hread) as (Hstore & _).
  apply (Hstore pb (fst (store_prepared_block bm pb w1)) w2).
  - apply surjective_pairing.
  - vm_compute. discriminate.
Defined.

End frame_examples.
